(** * PathEditor: the key-frame editor panel of Falcor's object paths

    A shallow embedding of
    [Framework/Source/Graphics/Paths/PathEditor.cpp] and a verification of
    the behaviour its design document describes.

    The panel is immediate-mode GUI glue: once per frame [render] issues a
    fixed sequence of widget calls, each widget reports whether its value
    changed, and the panel pushes the change into the shared [ObjectPath] and
    notifies the host through callbacks.  The embedding is a state monad over
    the editor's members with an error channel (for what is undefined
    behaviour or an exception in C++) and a log of everything the panel does
    to its collaborators: the widgets it draws, the calls it makes on the
    path and the callbacks it invokes, in order. *)

From Stdlib Require Import ZArith List String Bool Lia.
From Stdlib Require Import Floats.SpecFloat.
Import ListNotations.

Open Scope string_scope.
Open Scope list_scope.
Open Scope Z_scope.

(* ===================================================================== *)
(** * Scalars: IEEE-754 binary32 *)
(* ===================================================================== *)

(** The components of [glm::vec3] and the key-frame times are C++ [float]s.
    They are modelled by the specification floats of the standard library
    at the binary32 format: 24 bits of precision, infinities at exponent
    128, round to nearest even. *)
Module F32.

Definition prec : Z := 24.
Definition emax : Z := 128.

Definition float : Type := spec_float.

Definition add (a b : float) : float := SFadd prec emax a b.
Definition sub (a b : float) : float := SFsub prec emax a b.
Definition opp (a : float) : float := SFopp a.
Definition ltb (a b : float) : bool := SFltb a b.

(** The float nearest to an integer ([0.0f], [1.0f], [360.0f], ...). *)
Definition of_Z (n : Z) : float := binary_normalize prec emax n 0 false.

Definition zero : float := of_Z 0.
Definition one : float := of_Z 1.

(** [FLT_MAX = (2^24 - 1) * 2^104]. *)
Definition FLT_MAX : float := S754_finite false 16777215 104.

End F32.

Definition float : Type := F32.float.

(* ===================================================================== *)
(** * Vectors and matrices (glm) *)
(* ===================================================================== *)

Record vec3 : Type := mkvec3 { vx : float; vy : float; vz : float }.

Record vec4 : Type := mkvec4 { wx : float; wy : float; wz : float; ww : float }.

(** [glm::mat3] and [glm::mat4] are column major: [m[i]] is column [i]. *)
Record mat3 : Type := mkmat3 { m3c0 : vec3; m3c1 : vec3; m3c2 : vec3 }.

Record mat4 : Type := mkmat4 { m4c0 : vec4; m4c1 : vec4; m4c2 : vec4; m4c3 : vec4 }.

(** [a + b] and [a - b] on [glm::vec3], component by component. *)
Definition vadd (a b : vec3) : vec3 :=
  mkvec3 (F32.add (vx a) (vx b)) (F32.add (vy a) (vy b)) (F32.add (vz a) (vz b)).

Definition vsub (a b : vec3) : vec3 :=
  mkvec3 (F32.sub (vx a) (vx b)) (F32.sub (vy a) (vy b)) (F32.sub (vz a) (vz b)).

(** [glm::vec3(x, y, z)] from integer literals, and [glm::vec3()]. *)
Definition vec3_of_Z (x y z : Z) : vec3 := mkvec3 (F32.of_Z x) (F32.of_Z y) (F32.of_Z z).

Definition vec3_zero : vec3 := vec3_of_Z 0 0 0.

(** The math helpers the editor calls but does not define: [glm::radians],
    [glm::degrees], [glm::yawPitchRoll], [glm::extractEulerAngleXYZ] and
    Falcor's [createMatrixFromLookAt].  They are single-precision
    trigonometry outside this translation unit, so the editor is modelled
    for arbitrary helpers of these types. *)
Class MathOps : Type := {
  radians : vec3 -> vec3;
  degrees : vec3 -> vec3;
  yawPitchRoll : float -> float -> float -> mat3;
  createMatrixFromLookAt : vec3 -> vec3 -> vec3 -> mat4;
  (** the three output angles [t1], [t2], [t3], in parameter order *)
  extractEulerAngleXYZ : mat4 -> float * float * float
}.

(* ===================================================================== *)
(** * Machine integers *)
(* ===================================================================== *)

(** [uint32_t] and [int32_t] values are integers in range; conversions wrap
    modulo [2^32]. *)
Definition to_uint32 (n : Z) : Z := n mod 2 ^ 32.

Definition to_int32 (n : Z) : Z := (n + 2 ^ 31) mod 2 ^ 32 - 2 ^ 31.

Definition is_uint32 (n : Z) : Prop := 0 <= n < 2 ^ 32.

Definition is_int32 (n : Z) : Prop := - 2 ^ 31 <= n < 2 ^ 31.

(** [a - b] on [uint32_t]. *)
Definition sub_u32 (a b : Z) : Z := to_uint32 (a - b).

(* ===================================================================== *)
(** * The path *)
(* ===================================================================== *)

(** [ObjectPath::Frame], the key frame: the editor reads its fields
    [position], [target], [up] and [time]. *)
Record Frame : Type := mkFrame {
  position : vec3;
  target : vec3;
  up : vec3;
  time : float
}.

Definition with_position (v : vec3) (f : Frame) : Frame :=
  mkFrame v (target f) (up f) (time f).

Definition with_target (v : vec3) (f : Frame) : Frame :=
  mkFrame (position f) v (up f) (time f).

Definition with_up (v : vec3) (f : Frame) : Frame :=
  mkFrame (position f) (target f) v (time f).

Definition with_time (t : float) (f : Frame) : Frame :=
  mkFrame (position f) (target f) (up f) t.

(** Modelled from the spec: the interface of [ObjectPath], whose header and
    implementation are not part of this translation unit.  The design
    document lists the capability set the editor consumes: name and loop
    flag accessors, [getKeyFrameCount() -> uint], [getKeyFrame(index)],
    [addKeyFrame(time, position, target, up) -> newIndex],
    [removeKeyFrame(index)], [setFramePosition/Target/Up(index, vec3)] and
    [setFrameTime(index, time) -> resultingIndex].  The count and the
    indices are [uint32_t] in C++ and plain integers here: what depends on
    their width assumes the count in range.  The operations are total; that
    an index must be below the count is checked where the editor makes the
    call (see [path_call]). *)
Class ObjectPath (P : Type) : Type := {
  getName : P -> string;
  setName : string -> P -> P;
  isRepeatOn : P -> bool;
  setAnimationRepeat : bool -> P -> P;
  getKeyFrameCount : P -> Z;
  getKeyFrame : P -> Z -> Frame;
  addKeyFrame : float -> vec3 -> vec3 -> vec3 -> P -> P * Z;
  removeKeyFrame : Z -> P -> P;
  setFramePosition : Z -> vec3 -> P -> P;
  setFrameTarget : Z -> vec3 -> P -> P;
  setFrameUp : Z -> vec3 -> P -> P;
  setFrameTime : Z -> float -> P -> P * Z
}.

(** Modelled from the spec: what the design document promises of a path, "an
    ordered sequence of Keyframes, indexed 0..N-1" whose operations "add,
    remove, query keyframes and set per-keyframe fields".  Where the path
    puts a new or re-timed key frame is the path's business ("Path determines
    final ordering/index by time"); the editor only relies on the index it
    gets back. *)
Record PathLaws {P : Type} `{ObjectPath P} : Prop := {
  count_nonneg : forall p, 0 <= getKeyFrameCount p;
  setName_count : forall s p, getKeyFrameCount (setName s p) = getKeyFrameCount p;
  setRepeat_count : forall b p,
    getKeyFrameCount (setAnimationRepeat b p) = getKeyFrameCount p;
  add_index : forall t a b c p,
    0 <= snd (addKeyFrame t a b c p) < getKeyFrameCount (fst (addKeyFrame t a b c p));
  add_frame : forall t a b c p,
    getKeyFrame (fst (addKeyFrame t a b c p)) (snd (addKeyFrame t a b c p))
    = mkFrame a b c t;
  add_count_le : forall t a b c p,
    getKeyFrameCount (fst (addKeyFrame t a b c p)) <= getKeyFrameCount p + 1;
  remove_count : forall i p, 0 <= i < getKeyFrameCount p ->
    getKeyFrameCount (removeKeyFrame i p) = getKeyFrameCount p - 1;
  setPosition_count : forall i v p,
    getKeyFrameCount (setFramePosition i v p) = getKeyFrameCount p;
  setTarget_count : forall i v p,
    getKeyFrameCount (setFrameTarget i v p) = getKeyFrameCount p;
  setUp_count : forall i v p,
    getKeyFrameCount (setFrameUp i v p) = getKeyFrameCount p;
  setPosition_frame : forall i v p, 0 <= i < getKeyFrameCount p ->
    getKeyFrame (setFramePosition i v p) i = with_position v (getKeyFrame p i);
  setTarget_frame : forall i v p, 0 <= i < getKeyFrameCount p ->
    getKeyFrame (setFrameTarget i v p) i = with_target v (getKeyFrame p i);
  setUp_frame : forall i v p, 0 <= i < getKeyFrameCount p ->
    getKeyFrame (setFrameUp i v p) i = with_up v (getKeyFrame p i);
  setTime_index : forall i t p, 0 <= i < getKeyFrameCount p ->
    0 <= snd (setFrameTime i t p) < getKeyFrameCount (fst (setFrameTime i t p));
  setTime_count_le : forall i t p, 0 <= i < getKeyFrameCount p ->
    getKeyFrameCount (fst (setFrameTime i t p)) <= getKeyFrameCount p
}.

Arguments PathLaws P {_}.

(** Modelled from the spec: [Camera], of which the editor consumes
    "getPosition()/getTarget()/getUpVector() -> vec3 (read-only)". *)
Record Camera : Type := mkCamera {
  getPosition : vec3;
  getTarget : vec3;
  getUpVector : vec3
}.

(* ===================================================================== *)
(** * The GUI *)
(* ===================================================================== *)

(** Modelled from the spec: the GUI surface, whose class is not part of this
    translation unit; the design document lists the widgets consumed, each
    of which "returns whether its value changed this frame".

    One frame of user input, as the widgets report it.  A button answers
    whether it was pressed; an editing widget is shown the current value of
    the variable it is bound to (and its range) and answers whether the value
    changed together with the value it leaves in the variable.  Widgets are
    identified by their labels, which are unique in this panel.  Step sizes
    and layout flags do not reach the answer. *)
Record Gui : Type := {
  button : string -> bool;
  checkBox : string -> bool -> bool * bool;
  floatVar : string -> float -> float -> float -> bool * float;
  float3Var : string -> vec3 -> float -> float -> bool * vec3;
  intVar : string -> Z -> Z -> Z -> bool * Z;
  textBox : string -> string -> bool * string
}.

(* ===================================================================== *)
(** * What the panel does to the outside world *)
(* ===================================================================== *)

(** The three notification callbacks handed to [PathEditor::create]. *)
Variant Callback : Type := FrameChangedCB | AddRemoveKeyframeCB | EditCompleteCB.

(** Calls on the path that take a key-frame index or change the path. *)
Variant PathCall : Type :=
  | GetKeyFrame (i : Z)
  | AddKeyFrame (f : Frame)
  | RemoveKeyFrame (i : Z)
  | SetFramePosition (i : Z) (v : vec3)
  | SetFrameTarget (i : Z) (v : vec3)
  | SetFrameUp (i : Z) (v : vec3)
  | SetFrameTime (i : Z) (t : float)
  | SetName (s : string)
  | SetAnimationRepeat (b : bool).

(** A widget event records the label and what the widget answered; a path
    event records the number of key frames at the moment of the call. *)
Variant Event : Type :=
  | PushWindow (title : string) (x y w h : Z)
  | PopWindow
  | Separator
  | Tooltip (text : string)
  | Button (label : string) (pressed : bool)
  | CheckBox (label : string) (changed : bool)
  | FloatVar (label : string) (changed : bool)
  | Float3Var (label : string) (changed : bool)
  | IntVar (label : string) (changed : bool)
  | TextBox (label : string) (changed : bool)
  | Path (count : Z) (c : PathCall)
  | Invoke (cb : Callback).

(** Does the call name a key frame by index? *)
Definition indexed (c : PathCall) : option Z :=
  match c with
  | GetKeyFrame i | RemoveKeyFrame i | SetFramePosition i _
  | SetFrameTarget i _ | SetFrameUp i _ | SetFrameTime i _ => Some i
  | AddKeyFrame _ | SetName _ | SetAnimationRepeat _ => None
  end.

Definition is_widget (e : Event) : bool :=
  match e with
  | Separator | Tooltip _ | Button _ _ | CheckBox _ _ | FloatVar _ _
  | Float3Var _ _ | IntVar _ _ | TextBox _ _ => true
  | PushWindow _ _ _ _ _ | PopWindow | Path _ _ | Invoke _ => false
  end.

Definition is_path_call (e : Event) : bool :=
  match e with Path _ _ => true | _ => false end.

Definition is_invoke (cb : Callback) (e : Event) : bool :=
  match e, cb with
  | Invoke FrameChangedCB, FrameChangedCB
  | Invoke AddRemoveKeyframeCB, AddRemoveKeyframeCB
  | Invoke EditCompleteCB, EditCompleteCB => true
  | _, _ => false
  end.

(** How many times a callback was invoked. *)
Definition invocations (cb : Callback) (log : list Event) : nat :=
  List.length (List.filter (is_invoke cb) log).

(** An indexed path call is guarded when the path was not empty. *)
Definition guarded (e : Event) : Prop :=
  match e with
  | Path n c => match indexed c with Some _ => 0 < n | None => True end
  | _ => True
  end.

(** An indexed path call is in range when its index is below the count. *)
Definition in_range (e : Event) : Prop :=
  match e with
  | Path n c => match indexed c with Some i => 0 <= i < n | None => True end
  | _ => True
  end.

(** One of the four value fields of the key-frame property editor answered
    "changed". *)
Definition field_changed (e : Event) : bool :=
  match e with
  | Float3Var l true =>
      String.eqb l "Position" || String.eqb l "Target"
      || String.eqb l "Up" || String.eqb l "Rotation"
  | _ => false
  end.

(* ===================================================================== *)
(** * The editor's state and its monad *)
(* ===================================================================== *)

(** [PathEditorCallback] is a [std::function<void(void)>].  All the editor
    can observe of one is whether it holds a target ([operator bool]); calling
    it runs the host's handler, which appears in the log.  The handlers are
    notifications: they are taken to leave the path and the editor alone and
    not to call back into the editor. *)
Definition PathEditorCallback : Type := bool.

(** The members of [PathEditor].  [mpPath] and [mpCamera] are shared
    pointers; the record holds the objects they point to, which the editor
    reads and (for the path) mutates in place.  [mActiveFrame] is an
    [int32_t]. *)
Record PathEditor {P : Type} : Type := mkPathEditor {
  mpPath : P;
  mpCamera : Camera;
  mFrameChangedCB : PathEditorCallback;
  mAddRemoveKeyframeCB : PathEditorCallback;
  mEditCompleteCB : PathEditorCallback;
  mPreserveRotation : bool;
  mActiveFrame : Z;
  mFrameTime : float;
  mActiveFrameRot : vec3
}.

Arguments PathEditor P : clear implicits.
Arguments mkPathEditor {P}.

(** What ends a call abnormally: indexing the key-frame vector out of its
    bounds (undefined behaviour in C++), and calling an empty
    [std::function] (which throws [std::bad_function_call]). *)
Variant Error : Type := InvalidIndex | BadFunctionCall.

Inductive Outcome (S A : Type) : Type :=
  | Done (a : A) (s : S) (log : list Event)
  | Crash (e : Error) (log : list Event).

Arguments Done {S A}.
Arguments Crash {S A}.

Definition M (S A : Type) : Type := S -> Outcome S A.

Definition ret {S A : Type} (a : A) : M S A := fun s => Done a s [].

(** An outcome, after the events [l1] that came before it. *)
Definition prepend {S A : Type} (l1 : list Event) (o : Outcome S A) : Outcome S A :=
  match o with
  | Done a s l2 => Done a s (l1 ++ l2)
  | Crash e l2 => Crash e (l1 ++ l2)
  end.

Definition bind {S A B : Type} (m : M S A) (k : A -> M S B) : M S B :=
  fun s =>
    match m s with
    | Done a s1 l1 => prepend l1 (k a s1)
    | Crash e l1 => Crash e l1
    end.

Declare Scope editor_scope.
Delimit Scope editor_scope with editor.

Notation "x <- m ;; k" := (bind m (fun x => k))
  (at level 61, m at next level, right associativity) : editor_scope.
Notation "' pat <- m ;; k" := (bind m (fun x => match x with pat => k end))
  (at level 61, pat pattern, m at next level, right associativity) : editor_scope.
Notation "m ;; k" := (bind m (fun _ => k))
  (at level 61, right associativity) : editor_scope.

Open Scope editor_scope.

Definition gets {S A : Type} (f : S -> A) : M S A := fun s => Done (f s) s [].

Definition modify {S : Type} (f : S -> S) : M S unit := fun s => Done tt (f s) [].

Definition emit {S : Type} (e : Event) : M S unit := fun s => Done tt s [e].

Definition crash {S A : Type} (e : Error) : M S A := fun _ => Crash e [].

(** The log and the final state of an outcome. *)
Definition log_of {S A : Type} (o : Outcome S A) : list Event :=
  match o with Done _ _ l => l | Crash _ l => l end.

Definition state_of {S A : Type} (o : Outcome S A) : option S :=
  match o with Done _ s _ => Some s | Crash _ _ => None end.

Definition crashed_with {S A : Type} (e : Error) (o : Outcome S A) : Prop :=
  match o with
  | Crash e' _ => e' = e
  | Done _ _ _ => False
  end.

(* ===================================================================== *)
(** * PathEditor.cpp *)
(* ===================================================================== *)

(** Computations of the editor over a path of type [P]. *)
Definition Ed (P : Type) (A : Type) : Type := M (PathEditor P) A.

Section Editor.

Context {P : Type} {OP : ObjectPath P} {MO : MathOps}.


(** ** Assignments to members *)

Definition set_mpPath (p : P) (s : PathEditor P) : PathEditor P :=
  mkPathEditor p (mpCamera s) (mFrameChangedCB s) (mAddRemoveKeyframeCB s)
    (mEditCompleteCB s) (mPreserveRotation s) (mActiveFrame s) (mFrameTime s)
    (mActiveFrameRot s).

Definition set_mPreserveRotation (b : bool) (s : PathEditor P) : PathEditor P :=
  mkPathEditor (mpPath s) (mpCamera s) (mFrameChangedCB s) (mAddRemoveKeyframeCB s)
    (mEditCompleteCB s) b (mActiveFrame s) (mFrameTime s) (mActiveFrameRot s).

Definition set_mActiveFrame (a : Z) (s : PathEditor P) : PathEditor P :=
  mkPathEditor (mpPath s) (mpCamera s) (mFrameChangedCB s) (mAddRemoveKeyframeCB s)
    (mEditCompleteCB s) (mPreserveRotation s) a (mFrameTime s) (mActiveFrameRot s).

Definition set_mFrameTime (t : float) (s : PathEditor P) : PathEditor P :=
  mkPathEditor (mpPath s) (mpCamera s) (mFrameChangedCB s) (mAddRemoveKeyframeCB s)
    (mEditCompleteCB s) (mPreserveRotation s) (mActiveFrame s) t (mActiveFrameRot s).

Definition set_mActiveFrameRot (r : vec3) (s : PathEditor P) : PathEditor P :=
  mkPathEditor (mpPath s) (mpCamera s) (mFrameChangedCB s) (mAddRemoveKeyframeCB s)
    (mEditCompleteCB s) (mPreserveRotation s) (mActiveFrame s) (mFrameTime s) r.

(** ** Calls on the path *)

Definition keyFrameCount : Ed P Z := gets (fun s => getKeyFrameCount (mpPath s)).

(** A call on the path is logged with the count at that moment.  A call
    that names a key frame by an index not below the count is undefined
    behaviour in C++: the path has no check to fail.  The model logs the call
    and stops there with [InvalidIndex]; what the program does after such a
    call is not modelled, and no theorem says anything of it. *)
Definition path_call {A : Type} (c : PathCall) (run : P -> P * A) : Ed P A :=
  fun s =>
    let n := getKeyFrameCount (mpPath s) in
    let ok := match indexed c with
              | Some i => (0 <=? i) && (i <? n)
              | None => true
              end in
    if ok
    then let (p', a) := run (mpPath s) in Done a (set_mpPath p' s) [Path n c]
    else Crash InvalidIndex [Path n c].

Definition path_getKeyFrame (i : Z) : Ed P Frame :=
  path_call (GetKeyFrame i) (fun p => (p, getKeyFrame p i)).

Definition path_addKeyFrame (t : float) (pos tgt u : vec3) : Ed P Z :=
  path_call (AddKeyFrame (mkFrame pos tgt u t)) (addKeyFrame t pos tgt u).

Definition path_removeKeyFrame (i : Z) : Ed P unit :=
  path_call (RemoveKeyFrame i) (fun p => (removeKeyFrame i p, tt)).

Definition path_setFramePosition (i : Z) (v : vec3) : Ed P unit :=
  path_call (SetFramePosition i v) (fun p => (setFramePosition i v p, tt)).

Definition path_setFrameTarget (i : Z) (v : vec3) : Ed P unit :=
  path_call (SetFrameTarget i v) (fun p => (setFrameTarget i v p, tt)).

Definition path_setFrameUp (i : Z) (v : vec3) : Ed P unit :=
  path_call (SetFrameUp i v) (fun p => (setFrameUp i v p, tt)).

Definition path_setFrameTime (i : Z) (t : float) : Ed P Z :=
  path_call (SetFrameTime i t) (setFrameTime i t).

Definition path_setName (n : string) : Ed P unit :=
  path_call (SetName n) (fun p => (setName n p, tt)).

Definition path_setAnimationRepeat (b : bool) : Ed P unit :=
  path_call (SetAnimationRepeat b) (fun p => (setAnimationRepeat b p, tt)).

(** ** Calls on the GUI *)

Definition pushWindow (title : string) (x y w h : Z) : Ed P unit :=
  emit (PushWindow title x y w h).

Definition popWindow : Ed P unit := emit PopWindow.

Definition addSeparator : Ed P unit := emit Separator.

Definition addTooltip (text : string) (showIcon : bool) : Ed P unit :=
  emit (Tooltip text).

Definition addButton (g : Gui) (label : string) (sameLine : bool) : Ed P bool :=
  let pressed := button g label in
  emit (Button label pressed) ;; ret pressed.

Definition addCheckBox (g : Gui) (label : string) (var : bool) : Ed P (bool * bool) :=
  let r := checkBox g label var in
  emit (CheckBox label (fst r)) ;; ret r.

Definition addFloatVar (g : Gui) (label : string) (var lo hi : float)
  : Ed P (bool * float) :=
  let r := floatVar g label var lo hi in
  emit (FloatVar label (fst r)) ;; ret r.

Definition addFloat3Var (g : Gui) (label : string) (var : vec3) (lo hi : float)
  : Ed P (bool * vec3) :=
  let r := float3Var g label var lo hi in
  emit (Float3Var label (fst r)) ;; ret r.

Definition addIntVar (g : Gui) (label : string) (var lo hi : Z) : Ed P (bool * Z) :=
  let r := intVar g label var lo hi in
  emit (IntVar label (fst r)) ;; ret r.

Definition addTextBox (g : Gui) (label : string) (buffer : string)
  : Ed P (bool * string) :=
  let r := textBox g label buffer in
  emit (TextBox label (fst r)) ;; ret r.

(** ** Callbacks *)

Definition callback (cb : Callback) (s : PathEditor P) : PathEditorCallback :=
  match cb with
  | FrameChangedCB => mFrameChangedCB s
  | AddRemoveKeyframeCB => mAddRemoveKeyframeCB s
  | EditCompleteCB => mEditCompleteCB s
  end.

(** Calling a [std::function]: the host's handler runs, unless the function
    is empty. *)
Definition invoke (cb : Callback) : Ed P unit :=
  present <- gets (callback cb) ;;
  if present then emit (Invoke cb) else crash BadFunctionCall.

(** Modelled from the spec: [copyStringToBuffer] of [Utils/StringUtils.h],
    missing from this translation unit: a "bounded-length buffer", what
    exceeds the capacity is "truncated, not an error".  One byte of the
    buffer is the terminator. *)
Definition copyStringToBuffer (bufferSize : Z) (s : string) : string :=
  String.substring 0 (Z.to_nat (bufferSize - 1)) s.

(** ** The member functions, in the order of the source file *)

Definition closeEditor (g : Gui) : Ed P bool :=
  pressed <- addButton g "Close Editor" false ;;
  if pressed then
    popWindow ;;
    present <- gets mEditCompleteCB ;;
    (if present then invoke EditCompleteCB else ret tt) ;;
    ret true
  else ret false.

Definition updateActiveFrameRotationAngles : Ed P unit :=
  a <- gets mActiveFrame ;;
  keyframe <- path_getKeyFrame (to_uint32 a) ;;
  let rot := createMatrixFromLookAt (position keyframe) (target keyframe) (up keyframe) in
  (* the outputs go to components 1, 0 and 2 of mActiveFrameRot *)
  let '(t1, t2, t3) := extractEulerAngleXYZ rot in
  modify (set_mActiveFrameRot (degrees (mkvec3 t2 t1 t3))).

(** The body of the "Position" branch: returns [rotationChanged]. *)
Definition commitPosition (keyframe : Frame) (p : vec3) : Ed P bool :=
  a <- gets mActiveFrame ;;
  preserve <- gets mPreserveRotation ;;
  rotationChanged <-
    (if preserve then
       (* calculate using pre-edited position *)
       let toTarget := vsub (target keyframe) (position keyframe) in
       path_setFrameTarget (to_uint32 a) (vadd p toTarget) ;;
       ret false
     else ret true) ;;
  path_setFramePosition (to_uint32 a) p ;;
  ret rotationChanged.

(** The body of the "Rotation" branch. *)
Definition commitRotation (p : vec3) : Ed P unit :=
  a <- gets mActiveFrame ;;
  rot <- gets mActiveFrameRot ;;
  let r := radians rot in
  let rotMtx := yawPitchRoll (vx r) (vy r) (vz r) in
  path_setFrameUp (to_uint32 a) (m3c1 rotMtx) ;;
  path_setFrameTarget (to_uint32 a) (vadd p (m3c2 rotMtx)).

Definition editKeyframeProperties (g : Gui) : Ed P unit :=
  n <- keyFrameCount ;;
  if 0 <? n then
    a <- gets mActiveFrame ;;
    (* [keyframe] is a reference into the path; it is read below only
       before the path is first changed *)
    keyframe <- path_getKeyFrame (to_uint32 a) ;;
    let p := position keyframe in
    let t := target keyframe in
    let u := up keyframe in
    preserve <- gets mPreserveRotation ;;
    '(_, preserve') <- addCheckBox g "Preserve Rotation" preserve ;;
    modify (set_mPreserveRotation preserve') ;;
    addTooltip "If checked, the target will also be updated when position is changed." true ;;
    '(posChanged, p) <- addFloat3Var g "Position" p (F32.opp F32.FLT_MAX) F32.FLT_MAX ;;
    rotationChanged1 <- (if posChanged then commitPosition keyframe p else ret false) ;;
    '(tgtChanged, t) <- addFloat3Var g "Target" t (F32.opp F32.FLT_MAX) F32.FLT_MAX ;;
    (if tgtChanged then path_setFrameTarget (to_uint32 a) t else ret tt) ;;
    '(upChanged, u) <- addFloat3Var g "Up" u (F32.opp F32.FLT_MAX) F32.FLT_MAX ;;
    (if upChanged then path_setFrameUp (to_uint32 a) u else ret tt) ;;
    let rotationChanged := rotationChanged1 || tgtChanged || upChanged in
    (if rotationChanged then updateActiveFrameRotationAngles else ret tt) ;;
    (* additional UI for editing rotation by yaw-pitch-roll *)
    rot <- gets mActiveFrameRot ;;
    '(rotChanged, rot') <- addFloat3Var g "Rotation" rot (F32.of_Z (-360)) (F32.of_Z 360) ;;
    modify (set_mActiveFrameRot rot') ;;
    (if rotChanged then commitRotation p else ret tt) ;;
    let dirty := posChanged || tgtChanged || upChanged || rotChanged in
    if dirty then invoke FrameChangedCB else ret tt
  else ret tt.

Definition setActiveFrame (id : Z) : Ed P unit :=
  modify (set_mActiveFrame (to_int32 id)) ;;
  a <- gets mActiveFrame ;;
  keyframe <- path_getKeyFrame (to_uint32 a) ;;
  modify (set_mFrameTime (time keyframe)) ;;
  updateActiveFrameRotationAngles ;;
  invoke FrameChangedCB.

Definition editActiveFrameID (g : Gui) : Ed P unit :=
  n <- keyFrameCount ;;
  if 0 <? n then
    a <- gets mActiveFrame ;;
    '(changed, a') <- addIntVar g "Selected Frame" a 0 (to_int32 (sub_u32 n 1)) ;;
    modify (set_mActiveFrame (to_int32 a')) ;;
    if changed then
      a <- gets mActiveFrame ;;
      setActiveFrame (to_uint32 a)
    else ret tt
  else ret tt.

Definition editPathLoop (g : Gui) : Ed P unit :=
  loop <- gets (fun s => isRepeatOn (mpPath s)) ;;
  '(changed, loop) <- addCheckBox g "Loop Path" loop ;;
  if changed then path_setAnimationRepeat loop else ret tt.

Definition editPathName (g : Gui) : Ed P unit :=
  name <- gets (fun s => getName (mpPath s)) ;;
  let buffer := copyStringToBuffer 1024 name in
  '(changed, buffer) <- addTextBox g "Path Name" buffer ;;
  if changed then path_setName buffer else ret tt.

Definition editFrameTime (g : Gui) : Ed P unit :=
  t <- gets mFrameTime ;;
  '(_, t) <- addFloatVar g "Frame Time" t (F32.of_Z 0) F32.FLT_MAX ;;
  modify (set_mFrameTime t).

Definition addFrame (g : Gui) : Ed P unit :=
  pressed <- addButton g "Add Frame" false ;;
  if pressed then
    n <- keyFrameCount ;;
    t <- gets mFrameTime ;;
    (* if path has keyframes, create new keyframe at the location of the
       selected keyframe *)
    id <- (if 0 <? n then
             a <- gets mActiveFrame ;;
             currFrame <- path_getKeyFrame (to_uint32 a) ;;
             path_addKeyFrame t (position currFrame) (target currFrame) (up currFrame)
           else
             path_addKeyFrame t vec3_zero (vec3_of_Z 0 0 1) (vec3_of_Z 0 1 0)) ;;
    modify (set_mActiveFrame (to_int32 id)) ;;
    invoke AddRemoveKeyframeCB ;;
    a <- gets mActiveFrame ;;
    setActiveFrame (to_uint32 a)
  else ret tt.

Definition deleteFrame (g : Gui) : Ed P unit :=
  n <- keyFrameCount ;;
  if 0 <? n then
    pressed <- addButton g "Remove Frame" true ;;
    if pressed then
      a <- gets mActiveFrame ;;
      path_removeKeyFrame (to_uint32 a) ;;
      invoke AddRemoveKeyframeCB ;;
      n <- keyFrameCount ;;
      a <- gets mActiveFrame ;;
      modify (set_mActiveFrame (to_int32 (Z.min (sub_u32 n 1) (to_uint32 a)))) ;;
      n <- keyFrameCount ;;
      if 0 <? n then
        a <- gets mActiveFrame ;;
        setActiveFrame (to_uint32 a)
      else ret tt
    else ret tt
  else ret tt.

Definition updateFrameTime (g : Gui) : Ed P unit :=
  n <- keyFrameCount ;;
  (* [count && addButton(...)]: the button is drawn only if count != 0 *)
  if negb (n =? 0) then
    pressed <- addButton g "Update Current Frame Time" false ;;
    if pressed then
      a <- gets mActiveFrame ;;
      t <- gets mFrameTime ;;
      id <- path_setFrameTime (to_uint32 a) t ;;
      modify (set_mActiveFrame (to_int32 id)) ;;
      invoke AddRemoveKeyframeCB ;;
      a <- gets mActiveFrame ;;
      setActiveFrame (to_uint32 a)
    else ret tt
  else ret tt.

Definition moveToCamera (g : Gui) : Ed P unit :=
  n <- keyFrameCount ;;
  if 0 <? n then
    pressed <- addButton g "Move Frame to Camera" false ;;
    if pressed then
      a <- gets mActiveFrame ;;
      cam <- gets mpCamera ;;
      path_setFramePosition (to_uint32 a) (getPosition cam) ;;
      path_setFrameTarget (to_uint32 a) (getTarget cam) ;;
      path_setFrameUp (to_uint32 a) (getUpVector cam) ;;
      invoke FrameChangedCB
    else ret tt
  else ret tt.

Definition render (g : Gui) : Ed P unit :=
  pushWindow "Path Editor" 350 400 440 400 ;;
  closed <- closeEditor g ;;
  if closed then ret tt
  else
    addSeparator ;;
    editPathName g ;;
    editPathLoop g ;;
    editActiveFrameID g ;;
    addFrame g ;;
    deleteFrame g ;;
    addSeparator ;;
    editFrameTime g ;;
    updateFrameTime g ;;
    addSeparator ;;
    editKeyframeProperties g ;;
    moveToCamera g ;;
    popWindow.

End Editor.

(* ===================================================================== *)
(** * The constructor *)
(* ===================================================================== *)

(** The members that the constructor's initialiser list leaves to their
    default member initialisers.  Those are written in [PathEditor.h], which
    is not part of this translation unit, so they are a parameter. *)
Record MemberDefaults : Type := mkMemberDefaults {
  defaultPreserveRotation : bool;
  defaultActiveFrame : Z;
  defaultFrameTime : float;
  defaultActiveFrameRot : vec3
}.

(** [PathEditor::create], that is the constructor: the initialiser list,
    then the time of key frame 0 if there is one. *)
Definition create {P : Type} `{ObjectPath P} (d : MemberDefaults)
    (pPath : P) (pCamera : Camera)
    (frameChangedCB addRemoveKeyframeCB editCompleteCB : PathEditorCallback)
  : Outcome (PathEditor P) unit :=
  (n <- keyFrameCount ;;
   if 0 <? n then
     keyframe <- path_getKeyFrame 0 ;;
     modify (set_mFrameTime (time keyframe))
   else ret tt)
  (mkPathEditor pPath pCamera frameChangedCB addRemoveKeyframeCB editCompleteCB
     (defaultPreserveRotation d) (defaultActiveFrame d) (defaultFrameTime d)
     (defaultActiveFrameRot d)).

(* ===================================================================== *)
(** * A path as a list of frames *)
(* ===================================================================== *)

(** Modelled from the spec: a path implementation, absent from this
    translation unit: "an ordered sequence of Keyframes, indexed 0..N-1",
    with "a name, a loop flag", that keeps its frames "ordered by time".  A
    new frame goes before the first frame with a later time. *)
Record ListPath : Type := mkListPath {
  lp_name : string;
  lp_repeat : bool;
  lp_frames : list Frame
}.

Definition default_frame : Frame :=
  mkFrame vec3_zero vec3_zero vec3_zero F32.zero.

Fixpoint insert_by_time (f : Frame) (l : list Frame) : list Frame * Z :=
  match l with
  | [] => ([f], 0)
  | g :: l' =>
      if F32.ltb (time f) (time g) then (f :: l, 0)
      else let (r, i) := insert_by_time f l' in (g :: r, i + 1)
  end.

Definition remove_at (i : nat) (l : list Frame) : list Frame :=
  firstn i l ++ skipn (S i) l.

Fixpoint update_at (i : nat) (h : Frame -> Frame) (l : list Frame) : list Frame :=
  match l, i with
  | [], _ => []
  | f :: l', O => h f :: l'
  | f :: l', S j => f :: update_at j h l'
  end.

Definition lp_with_frames (l : list Frame) (p : ListPath) : ListPath :=
  mkListPath (lp_name p) (lp_repeat p) l.

Definition lp_add (t : float) (a b c : vec3) (p : ListPath) : ListPath * Z :=
  let (l, i) := insert_by_time (mkFrame a b c t) (lp_frames p) in
  (lp_with_frames l p, i).

Definition lp_remove (i : Z) (p : ListPath) : ListPath :=
  lp_with_frames (remove_at (Z.to_nat i) (lp_frames p)) p.

Definition lp_update (i : Z) (h : Frame -> Frame) (p : ListPath) : ListPath :=
  lp_with_frames (update_at (Z.to_nat i) h (lp_frames p)) p.

Definition lp_get (p : ListPath) (i : Z) : Frame :=
  nth (Z.to_nat i) (lp_frames p) default_frame.

Definition lp_setFrameTime (i : Z) (t : float) (p : ListPath) : ListPath * Z :=
  let f := lp_get p i in
  lp_add t (position f) (target f) (up f) (lp_remove i p).

#[export] Instance ListPath_ObjectPath : ObjectPath ListPath := {
  getName := lp_name;
  setName s p := mkListPath s (lp_repeat p) (lp_frames p);
  isRepeatOn := lp_repeat;
  setAnimationRepeat b p := mkListPath (lp_name p) b (lp_frames p);
  getKeyFrameCount p := Z.of_nat (List.length (lp_frames p));
  getKeyFrame := lp_get;
  addKeyFrame := lp_add;
  removeKeyFrame := lp_remove;
  setFramePosition i v := lp_update i (with_position v);
  setFrameTarget i v := lp_update i (with_target v);
  setFrameUp i v := lp_update i (with_up v);
  setFrameTime := lp_setFrameTime
}.

(* ===================================================================== *)
(** * Concrete collaborators for running the model *)
(* ===================================================================== *)

(** A trigonometry-free interpretation of the math helpers.  The theorems
    hold for every interpretation; this one only serves to evaluate the
    editor on concrete inputs. *)
Definition plainMath : MathOps := {|
  radians v := v;
  degrees v := v;
  yawPitchRoll y p r := mkmat3 (vec3_of_Z 1 0 0) (vec3_of_Z 0 1 0) (mkvec3 y p F32.one);
  createMatrixFromLookAt pos tgt u :=
    let f := vsub tgt pos in
    mkmat4 (mkvec4 F32.zero F32.zero F32.zero F32.zero)
           (mkvec4 (vx u) (vy u) (vz u) F32.zero)
           (mkvec4 (vx f) (vy f) (vz f) F32.zero)
           (mkvec4 F32.zero F32.zero F32.zero F32.one);
  extractEulerAngleXYZ m := (wy (m4c2 m), wz (m4c2 m), wy (m4c1 m))
|}.

(** The frame in which the user touches nothing. *)
Definition idleGui : Gui := {|
  button _ := false;
  checkBox _ v := (false, v);
  floatVar _ v _ _ := (false, v);
  float3Var _ v _ _ := (false, v);
  intVar _ v _ _ := (false, v);
  textBox _ v := (false, v)
|}.

(** [g], with the button [label] pressed. *)
Definition pressing (label : string) (g : Gui) : Gui := {|
  button l := if String.eqb l label then true else button g l;
  checkBox := checkBox g;
  floatVar := floatVar g;
  float3Var := float3Var g;
  intVar := intVar g;
  textBox := textBox g
|}.

(** [g], with the vector field [label] edited to [v]. *)
Definition editing3 (label : string) (v : vec3) (g : Gui) : Gui := {|
  button := button g;
  checkBox := checkBox g;
  floatVar := floatVar g;
  float3Var l w lo hi := if String.eqb l label then (true, v) else float3Var g l w lo hi;
  intVar := intVar g;
  textBox := textBox g
|}.

(** [g], with the check box [label] toggled. *)
Definition toggling (label : string) (g : Gui) : Gui := {|
  button := button g;
  checkBox l v := if String.eqb l label then (true, negb v) else checkBox g l v;
  floatVar := floatVar g;
  float3Var := float3Var g;
  intVar := intVar g;
  textBox := textBox g
|}.

Definition originCamera : Camera :=
  mkCamera (vec3_of_Z 4 5 6) (vec3_of_Z 4 5 7) (vec3_of_Z 0 1 0).

(** The frame of the design document's scenario: at time 0, at the origin,
    looking down the z axis. *)
Definition frame0 : Frame :=
  mkFrame vec3_zero (vec3_of_Z 0 0 1) (vec3_of_Z 0 1 0) (F32.of_Z 0).

Definition frame1 : Frame :=
  mkFrame (vec3_of_Z 1 2 3) (vec3_of_Z 1 2 4) (vec3_of_Z 0 1 0) (F32.of_Z 2).

Definition frame2 : Frame :=
  mkFrame (vec3_of_Z 7 0 0) (vec3_of_Z 8 0 0) (vec3_of_Z 0 0 1) (F32.of_Z 9).

(** An editor on a list path with the given frames, all callbacks bound. *)
Definition editorOn (frames : list Frame) (active : Z) (frameTime : float)
  : PathEditor ListPath :=
  mkPathEditor (mkListPath "path" false frames) originCamera true true true
    false active frameTime vec3_zero.

(** The same, with "Preserve Rotation" checked. *)
Definition preservingEditorOn (frames : list Frame) (active : Z) (frameTime : float)
  : PathEditor ListPath :=
  mkPathEditor (mkListPath "path" false frames) originCamera true true true
    true active frameTime vec3_zero.

(** The same as [editorOn], created with an empty edit-complete callback. *)
Definition editorWithoutCompletion (frames : list Frame) (active : Z) (frameTime : float)
  : PathEditor ListPath :=
  mkPathEditor (mkListPath "path" false frames) originCamera true true false
    false active frameTime vec3_zero.

(** A position 2^24 units down the z axis, where consecutive floats are two
    apart. *)
Definition farPosition : vec3 := vec3_of_Z 0 0 16777216.

(** [g], with the frame selector answering "changed" with [v]. *)
Definition selecting (v : Z) (g : Gui) : Gui := {|
  button := button g;
  checkBox := checkBox g;
  floatVar := floatVar g;
  float3Var := float3Var g;
  intVar l w lo hi := if String.eqb l "Selected Frame" then (true, v) else intVar g l w lo hi;
  textBox := textBox g
|}.

(** [g], with the float field [label] edited to [t]. *)
Definition editing1 (label : string) (t : float) (g : Gui) : Gui := {|
  button := button g;
  checkBox := checkBox g;
  floatVar l w lo hi := if String.eqb l label then (true, t) else floatVar g l w lo hi;
  float3Var := float3Var g;
  intVar := intVar g;
  textBox := textBox g
|}.

(** [g], with the text box [label] edited to [s]. *)
Definition typing (label : string) (s : string) (g : Gui) : Gui := {|
  button := button g;
  checkBox := checkBox g;
  floatVar := floatVar g;
  float3Var := float3Var g;
  intVar := intVar g;
  textBox l w := if String.eqb l label then (true, s) else textBox g l w
|}.

(** Modelled from the spec: the default member initialisers of
    [PathEditor.h], which is missing from this translation unit.  The editor
    "initializes its active index to 0"; the other three members are given
    zeros here. *)
Definition zeroDefaults : MemberDefaults :=
  mkMemberDefaults false 0 F32.zero vec3_zero.

(** The same as [editorOn], created with an empty count-changed callback. *)
Definition editorWithoutCountCallback (frames : list Frame) (active : Z) (frameTime : float)
  : PathEditor ListPath :=
  mkPathEditor (mkListPath "path" false frames) originCamera true false true
    false active frameTime vec3_zero.


(** A position with a large integer, a fraction and a power of two among
    its components: (1000000, 0.75, 2^23). *)
Definition mixedPosition : vec3 :=
  mkvec3 (F32.of_Z 1000000) (binary_normalize F32.prec F32.emax 3 (-2) false)
    (F32.of_Z 8388608).


(* ===================================================================== *)
(** * Vocabulary of the statements *)
(* ===================================================================== *)

(** What [updateActiveFrameRotationAngles] stores for a frame: the value of
    the Euler-angle cache recomputed from that frame. *)
Definition eulerCache `{MathOps} (f : Frame) : vec3 :=
  let '(t1, t2, t3) :=
    extractEulerAngleXYZ (createMatrixFromLookAt (position f) (target f) (up f)) in
  degrees (mkvec3 t2 t1 t3).

(** The active index of [e] names a frame of its path.  It is an [int32_t],
    so it is below [2^31] too. *)
Definition activeValid {P : Type} `{ObjectPath P} (e : PathEditor P) : Prop :=
  0 <= mActiveFrame e < getKeyFrameCount (mpPath e) /\ mActiveFrame e < 2 ^ 31.

(** The frame the active index names. *)
Definition activeFrame {P : Type} `{ObjectPath P} (e : PathEditor P) : Frame :=
  getKeyFrame (mpPath e) (mActiveFrame e).

(** The frame "Add Frame" hands to the path: at the staged time; the default
    pose when the path is empty, the pose of the active frame otherwise. *)
Definition frameToAdd {P : Type} `{ObjectPath P} (e : PathEditor P) : Frame :=
  if getKeyFrameCount (mpPath e) =? 0
  then mkFrame vec3_zero (vec3_of_Z 0 0 1) (vec3_of_Z 0 1 0) (mFrameTime e)
  else with_time (mFrameTime e) (activeFrame e).

(** The labels of the vector fields a log shows, in order. *)
Definition float3_labels (log : list Event) : list string :=
  flat_map (fun ev => match ev with Float3Var l _ => [l] | _ => [] end) log.

(** Equality of floats as bit patterns (not the IEEE comparison). *)
Definition bits_eqb (a b : float) : bool :=
  match a, b with
  | S754_zero s, S754_zero s' => Bool.eqb s s'
  | S754_infinity s, S754_infinity s' => Bool.eqb s s'
  | S754_nan, S754_nan => true
  | S754_finite s m e, S754_finite s' m' e' =>
      Bool.eqb s s' && Pos.eqb m m' && Z.eqb e e'
  | _, _ => false
  end.

(** The integers from [-b] to [b]. *)
Definition ints (b : Z) : list Z :=
  map (fun k => Z.of_nat k - b) (seq 0 (Z.to_nat (2 * b + 1))).

(** A float that is an integer of magnitude at most 16, and a vector of
    such: a range in which single-precision sums and differences are
    exact. *)
Definition small_int (x : float) : Prop :=
  exists n : Z, - 16 <= n <= 16 /\ x = F32.of_Z n.

Definition small_vec (v : vec3) : Prop :=
  small_int (vx v) /\ small_int (vy v) /\ small_int (vz v).

(** One component of the look direction after a position edit that
    preserves rotation, against the component before: old position [p], old
    target [t], new position [p']. *)
Definition direction_kept (p t p' : float) : bool :=
  bits_eqb (F32.sub (F32.add p' (F32.sub t p)) p') (F32.sub t p).

Definition direction_kept_all (fs : list float) : bool :=
  forallb (fun p => forallb (fun t => forallb (direction_kept p t) fs) fs) fs.

(** An event that names no key frame by index. *)
Definition plain (ev : Event) : Prop :=
  match ev with
  | Path _ c => indexed c = None
  | _ => True
  end.

(** A discipline of access to the key frames, on the two numbers that
    matter: the count [n] of the path and the active index [a] of the editor.
    [Q] is what every logged event must satisfy and [C] the errors a run may
    end with.  [start n] holds of the counts at which [render] may begin,
    [inv n a] holds between the member functions from [addFrame] on, and
    [ok n a] holds whenever a key frame is about to be named by index.  The
    fields say that the guards of the code carry [inv] to [ok], and that the
    indices the editor stores (the answer of the selector, the index the path
    returns for a new or re-timed frame, the clamp after a removal) keep the
    discipline. *)
Record Discipline (Q : Event -> Prop) (C : Error -> Prop)
    (start : Z -> Prop) (inv ok : Z -> Z -> Prop) : Prop := {
  d_bad : C BadFunctionCall;
  d_plain : forall ev, plain ev -> Q ev;
  d_access : forall n a c, ok n a -> indexed c = Some (to_uint32 a) -> Q (Path n c);
  d_index : forall n a, ok n a -> 0 <= to_uint32 a < n \/ C InvalidIndex;
  d_start_inv : forall n a, start n -> inv n a;
  d_guard : forall n a, inv n a -> 0 < n -> ok n a;
  d_ok_inv : forall n a, ok n a -> inv n a;
  d_select : forall n a, start n -> 0 < n -> ok n (to_int32 a);
  d_add : forall n n' i, start n -> 0 <= i < n' -> n' <= n + 1 -> ok n' (to_int32 i);
  d_retime : forall n a n' i, ok n a -> 0 <= to_uint32 a < n ->
    0 <= i < n' -> n' <= n -> ok n' (to_int32 i);
  d_remove : forall n a, ok n a -> 0 <= to_uint32 a < n ->
    inv (n - 1) (to_int32 (Z.min (sub_u32 (n - 1) 1) (to_uint32 a)))
}.

(** The predicates of a discipline, on editor states. *)
Definition count_of {P : Type} `{ObjectPath P} (s : PathEditor P) : Z :=
  getKeyFrameCount (mpPath s).

Definition at_start {P : Type} `{ObjectPath P} (start : Z -> Prop)
  (s : PathEditor P) : Prop :=
  start (count_of s).

Definition within {P : Type} `{ObjectPath P} (inv : Z -> Z -> Prop)
  (s : PathEditor P) : Prop :=
  inv (count_of s) (mActiveFrame s).

Definition selected {P : Type} `{ObjectPath P} (ok : Z -> Z -> Prop) (n a : Z)
  (s : PathEditor P) : Prop :=
  count_of s = n /\ mActiveFrame s = a /\ ok n a.

(** What a frame logs in which the user touches nothing, on a path of [n]
    frames of which frame [a] is the active one. *)
Definition idleLog (n a : Z) : list Event :=
  [PushWindow "Path Editor" 350 400 440 400;
   Button "Close Editor" false; Separator;
   TextBox "Path Name" false; CheckBox "Loop Path" false;
   IntVar "Selected Frame" false; Button "Add Frame" false;
   Button "Remove Frame" false; Separator;
   FloatVar "Frame Time" false;
   Button "Update Current Frame Time" false; Separator;
   Path n (GetKeyFrame a); CheckBox "Preserve Rotation" false;
   Tooltip "If checked, the target will also be updated when position is changed.";
   Float3Var "Position" false; Float3Var "Target" false;
   Float3Var "Up" false; Float3Var "Rotation" false;
   Button "Move Frame to Camera" false; PopWindow].

(** [keeps Q C Pre m Post]: from a state in [Pre], every event [m] logs
    satisfies [Q]; if [m] returns, [Post] holds of the result and the final
    state, and if it ends abnormally the error satisfies [C]. *)
Definition keeps {S A : Type} (Q : Event -> Prop) (C : Error -> Prop)
  (Pre : S -> Prop) (m : M S A) (Post : A -> S -> Prop) : Prop :=
  forall s, Pre s ->
    match m s with
    | Done a s' l => Forall Q l /\ Post a s'
    | Crash e l => Forall Q l /\ C e
    end.

(** ** More vocabulary: frames, sessions and footprints *)

(** A frame in which the user does nothing: no button is pressed and every
    editing widget answers "unchanged" and leaves its variable alone. *)
Definition quiet (g : Gui) : Prop :=
  (forall l, button g l = false)
  /\ (forall l v, checkBox g l v = (false, v))
  /\ (forall l v lo hi, floatVar g l v lo hi = (false, v))
  /\ (forall l v lo hi, float3Var g l v lo hi = (false, v))
  /\ (forall l v lo hi, intVar g l v lo hi = (false, v))
  /\ (forall l v, textBox g l v = (false, v)).

(** The frame selector keeps to the range it is given: shown a value of the
    range, it leaves one. *)
Definition selector_in_range (g : Gui) : Prop :=
  forall v lo hi, lo <= v <= hi -> lo <= snd (intVar g "Selected Frame" v lo hi) <= hi.

(** Modelled from the spec: what the operations of a path do to its
    contents, for "an ordered sequence of Keyframes" with "a name, a loop
    flag": a re-timed frame is the old frame with the new time, found at the
    returned index; removing a frame moves the later ones down by one and
    leaves the earlier ones; the name and the loop flag are what was set. *)
Record PathContents {P : Type} `{ObjectPath P} : Prop := {
  setTime_frame : forall i t p, 0 <= i < getKeyFrameCount p ->
    getKeyFrame (fst (setFrameTime i t p)) (snd (setFrameTime i t p))
    = with_time t (getKeyFrame p i);
  remove_later : forall i j p, 0 <= i <= j -> j < getKeyFrameCount p - 1 ->
    getKeyFrame (removeKeyFrame i p) j = getKeyFrame p (j + 1);
  remove_earlier : forall i j p, 0 <= j < i -> i < getKeyFrameCount p ->
    getKeyFrame (removeKeyFrame i p) j = getKeyFrame p j;
  setName_name : forall s p, getName (setName s p) = s;
  setRepeat_flag : forall b p, isRepeatOn (setAnimationRepeat b p) = b
}.

Arguments PathContents P {_}.

(** [renders frames]: a session, [render] called once for each frame of
    [frames], in order, each with the answers of its GUI. *)
Fixpoint renders {P : Type} `{ObjectPath P} `{MathOps} (frames : list Gui) : Ed P unit :=
  match frames with
  | [] => ret tt
  | g :: rest => render g ;; renders rest
  end.

(** The editor's selection is sound: the path is empty, or the active index
    names one of its frames. *)
Definition selectionSound {P : Type} `{ObjectPath P} (e : PathEditor P) : Prop :=
  getKeyFrameCount (mpPath e) = 0 \/ activeValid e.

(** The numbers of a sound selection on a path of at most [b] frames. *)
Definition sound_upto (b n a : Z) : Prop := 0 <= n <= b /\ (n = 0 \/ 0 <= a < n).

(** [ready b s]: the editor can draw a frame: the two callbacks it calls
    without a test are not empty, the path has at most [b] key frames and
    the selection is sound. *)
Definition ready {P : Type} `{ObjectPath P} (b : Z) (s : PathEditor P) : Prop :=
  mFrameChangedCB s = true
  /\ mAddRemoveKeyframeCB s = true
  /\ sound_upto b (getKeyFrameCount (mpPath s)) (mActiveFrame s).

(** No error: for a run that must return. *)
Definition noError (err : Error) : Prop := False.

(** [sameSelection e s]: [s] has the count, the active index and the staged
    time of [e], and its active key frame has the time it has in [e]. *)
Definition sameSelection {P : Type} `{ObjectPath P} (e s : PathEditor P) : Prop :=
  getKeyFrameCount (mpPath s) = getKeyFrameCount (mpPath e)
  /\ mActiveFrame s = mActiveFrame e
  /\ mFrameTime s = mFrameTime e
  /\ time (getKeyFrame (mpPath s) (to_uint32 (mActiveFrame s)))
     = time (getKeyFrame (mpPath e) (to_uint32 (mActiveFrame e))).

(** [emits Q m]: whatever the state, every event [m] logs satisfies [Q]. *)
Definition emits {S A : Type} (Q : Event -> Prop) (m : M S A) : Prop :=
  forall s, Forall Q (log_of (m s)).

(** [never f ev]: the event is not of the kind [f]. *)
Definition never (f : Event -> bool) (ev : Event) : Prop := f ev = false.

Definition is_push (ev : Event) : bool :=
  match ev with PushWindow _ _ _ _ _ => true | _ => false end.

Definition is_pop (ev : Event) : bool :=
  match ev with PopWindow => true | _ => false end.

(** How many windows a log opens, and how many it closes. *)
Definition pushes (log : list Event) : nat := List.length (List.filter is_push log).

Definition pops (log : list Event) : nat := List.length (List.filter is_pop log).

(** [closes_window m]: a run of [m] that returns has closed one window, and
    a run that ends abnormally has closed none. *)
Definition closes_window {S A : Type} (m : M S A) : Prop :=
  forall s,
    match m s with
    | Done _ _ log => pops log = 1%nat
    | Crash _ log => pops log = 0%nat
    end.

(** Events that change the set of key frames or their order, and the
    callback that reports it. *)
Definition changes_count (ev : Event) : bool :=
  match ev with
  | Path _ (AddKeyFrame _) | Path _ (RemoveKeyFrame _) | Path _ (SetFrameTime _ _) => true
  | Invoke AddRemoveKeyframeCB => true
  | _ => false
  end.

(** Events of the two pose editors, the key-frame property editor and "Move
    Frame to Camera": widgets, reads of a key frame, the three pose setters
    and the frame-changed callback. *)
Definition pose_event (ev : Event) : Prop :=
  match ev with
  | Path _ (GetKeyFrame _) | Path _ (SetFramePosition _ _)
  | Path _ (SetFrameTarget _ _) | Path _ (SetFrameUp _ _) => True
  | Path _ _ => False
  | Invoke cb => cb = FrameChangedCB
  | PushWindow _ _ _ _ _ | PopWindow => False
  | _ => True
  end.

(** What a quiet frame logs on the empty path. *)
Definition emptyLog : list Event :=
  [PushWindow "Path Editor" 350 400 440 400;
   Button "Close Editor" false; Separator;
   TextBox "Path Name" false; CheckBox "Loop Path" false;
   Button "Add Frame" false; Separator;
   FloatVar "Frame Time" false; Separator; PopWindow].

(** ** The answers of the property editor's fields *)

(** The path once the Position, Target and Up fields of the key-frame
    property editor have been handled, in a frame drawn by [g]: each field
    is shown the value the active key frame had when the editor began, and
    what it answers "changed" is committed. *)
Definition posedPath {P : Type} `{ObjectPath P} (g : Gui) (e : PathEditor P) : P :=
  let a := mActiveFrame e in
  let kf := activeFrame e in
  let lo := F32.opp F32.FLT_MAX in
  let hi := F32.FLT_MAX in
  let preserve := snd (checkBox g "Preserve Rotation" (mPreserveRotation e)) in
  let pos := float3Var g "Position" (position kf) lo hi in
  let tgt := float3Var g "Target" (target kf) lo hi in
  let u := float3Var g "Up" (up kf) lo hi in
  let q1 := if fst pos
            then setFramePosition a (snd pos)
                   (if preserve
                    then setFrameTarget a
                           (vadd (snd pos) (vsub (target kf) (position kf))) (mpPath e)
                    else mpPath e)
            else mpPath e in
  let q2 := if fst tgt then setFrameTarget a (snd tgt) q1 else q1 in
  if fst u then setFrameUp a (snd u) q2 else q2.

(** The value the Rotation field is shown: the cache, recomputed from the
    key frame as edited if the orientation changed (a position edit that does
    not preserve rotation, a target edit or an up edit). *)
Definition rotationShown {P : Type} `{ObjectPath P} `{MathOps} (g : Gui) (e : PathEditor P)
  : vec3 :=
  let kf := activeFrame e in
  let lo := F32.opp F32.FLT_MAX in
  let hi := F32.FLT_MAX in
  let preserve := snd (checkBox g "Preserve Rotation" (mPreserveRotation e)) in
  let pos := float3Var g "Position" (position kf) lo hi in
  let tgt := float3Var g "Target" (target kf) lo hi in
  let u := float3Var g "Up" (up kf) lo hi in
  if (fst pos && negb preserve) || fst tgt || fst u
  then eulerCache (getKeyFrame (posedPath g e) (mActiveFrame e))
  else mActiveFrameRot e.

(** What the four value fields answer in a frame drawn by [g] for the
    editor [e]: for each label, whether the GUI reports a change. *)
Definition fieldAnswers {P : Type} `{ObjectPath P} `{MathOps} (g : Gui) (e : PathEditor P)
  : list (string * bool) :=
  let kf := activeFrame e in
  let lo := F32.opp F32.FLT_MAX in
  let hi := F32.FLT_MAX in
  [("Position", fst (float3Var g "Position" (position kf) lo hi));
   ("Target", fst (float3Var g "Target" (target kf) lo hi));
   ("Up", fst (float3Var g "Up" (up kf) lo hi));
   ("Rotation", fst (float3Var g "Rotation" (rotationShown g e)
                       (F32.of_Z (-360)) (F32.of_Z 360)))].

Definition anyFieldChanged {P : Type} `{ObjectPath P} `{MathOps} (g : Gui) (e : PathEditor P)
  : bool :=
  existsb snd (fieldAnswers g e).

(** The vector fields a log shows, with what each answered. *)
Definition float3_answers (log : list Event) : list (string * bool) :=
  flat_map (fun ev => match ev with Float3Var l c => [(l, c)] | _ => [] end) log.

(** ** Exact single-precision arithmetic *)

(** A float that is a number: a zero, or finite with the mantissa and
    exponent of the binary32 format. *)
Definition is_number (x : float) : bool :=
  match x with
  | S754_zero _ => true
  | S754_finite _ m e => bounded F32.prec F32.emax m e
  | _ => false
  end.

(** The value of a number is [mantissa * 2 ^ exponent]. *)
Definition mantissa (x : float) : Z :=
  match x with
  | S754_finite s m _ => cond_Zopp s (Zpos m)
  | _ => 0
  end.

Definition exponent (x : float) : Z :=
  match x with
  | S754_finite _ _ e => e
  | _ => 0
  end.

Definition is_finite (x : float) : bool :=
  match x with
  | S754_zero _ | S754_finite _ _ _ => true
  | _ => false
  end.

(** [m * 2 ^ e] as a multiple of [2 ^ k], for [k <= e]. *)
Definition aligned (m e k : Z) : Z := m * 2 ^ (e - k).

(** [m * 2 ^ e] and [m0 * 2 ^ e0] are the same number. *)
Definition same_value (m e m0 e0 : Z) : Prop :=
  aligned m e (Z.min e e0) = aligned m0 e0 (Z.min e e0).

(** The value of [z] is the sum of the values of [x] and [y]. *)
Definition is_sum (x y z : float) : bool :=
  let k := Z.min (exponent x) (Z.min (exponent y) (exponent z)) in
  aligned (mantissa x) (exponent x) k + aligned (mantissa y) (exponent y) k
  =? aligned (mantissa z) (exponent z) k.

(** The single-precision sum of [x] and [y] is exact: it is finite and its
    value is the sum of the values, nothing was rounded away. *)
Definition exact_add (x y : float) : bool :=
  is_finite (F32.add x y) && is_sum x y (F32.add x y).

(** A position [x] can be shifted by [d] exactly: both are numbers and the
    sum [x + d] is exact. *)
Definition exact_shift1 (x d : float) : bool :=
  is_number x && is_number d && exact_add x d.

Definition exact_shift (X D : vec3) : bool :=
  exact_shift1 (vx X) (vx D) && exact_shift1 (vy X) (vy D) && exact_shift1 (vz X) (vz D).

(** Equality of floats as numbers, the [==] of C++: [+0] and [-0] are the
    same number, a NaN is no number. *)
Definition same_number (a b : float) : Prop := SFeqb a b = true.

Definition same_numbers (u v : vec3) : Prop :=
  same_number (vx u) (vx v) /\ same_number (vy u) (vy v) /\ same_number (vz u) (vz v).

Definition is_negative_zero (x : float) : bool :=
  match x with
  | S754_zero true => true
  | _ => false
  end.

Definition no_negative_zero (v : vec3) : Prop :=
  is_negative_zero (vx v) = false
  /\ is_negative_zero (vy v) = false
  /\ is_negative_zero (vz v) = false.

(** ** The rotation round trip *)




(* ===================================================================== *)
(** * Machine integers: facts *)
(* ===================================================================== *)

Lemma to_uint32_small (n : Z) : 0 <= n < 2 ^ 32 -> to_uint32 n = n.
Proof. intros Hn. unfold to_uint32. apply Z.mod_small. exact Hn. Qed.

Lemma to_int32_small (n : Z) : - 2 ^ 31 <= n < 2 ^ 31 -> to_int32 n = n.
Proof.
  intros Hn. unfold to_int32.
  rewrite Z.mod_small; lia.
Qed.

Lemma to_int32_range (n : Z) : is_int32 (to_int32 n).
Proof.
  unfold is_int32, to_int32.
  pose proof (Z.mod_pos_bound (n + 2 ^ 31) (2 ^ 32) ltac:(lia)). lia.
Qed.

Lemma to_uint32_range (n : Z) : is_uint32 (to_uint32 n).
Proof. unfold is_uint32, to_uint32. apply Z.mod_pos_bound. lia. Qed.

(** Storing a [uint32_t] in an [int32_t] and reading it back as [uint32_t]
    gives the value back. *)
Lemma uint32_via_int32 (n : Z) : 0 <= n < 2 ^ 32 -> to_uint32 (to_int32 n) = n.
Proof.
  intros Hn. unfold to_uint32, to_int32.
  rewrite Zminus_mod_idemp_l.
  replace (n + 2 ^ 31 - 2 ^ 31) with n by lia.
  apply Z.mod_small. exact Hn.
Qed.

(** Reading an [int32_t] as [uint32_t] and storing it back gives the value
    back. *)
Lemma int32_via_uint32 (n : Z) : - 2 ^ 31 <= n < 2 ^ 31 -> to_int32 (to_uint32 n) = n.
Proof.
  intros Hn. unfold to_uint32, to_int32.
  rewrite Zplus_mod_idemp_l.
  rewrite Z.mod_small; lia.
Qed.

Lemma sub_u32_wraps : sub_u32 0 1 = 2 ^ 32 - 1.
Proof. reflexivity. Qed.

(* ===================================================================== *)
(** * Single precision: facts *)
(* ===================================================================== *)

Lemma bits_eqb_eq (a b : float) : bits_eqb a b = true -> a = b.
Proof.
  destruct a, b; cbn; try discriminate; intros Hab.
  - apply eqb_prop in Hab. congruence.
  - apply eqb_prop in Hab. congruence.
  - reflexivity.
  - apply andb_true_iff in Hab as [Hab He]. apply andb_true_iff in Hab as [Hs Hm].
    apply eqb_prop in Hs. apply Pos.eqb_eq in Hm. apply Z.eqb_eq in He. congruence.
Qed.

Lemma ints_In (b n : Z) : - b <= n <= b -> In n (ints b).
Proof.
  intros Hn. unfold ints. apply in_map_iff.
  exists (Z.to_nat (n + b)). split; [lia|].
  apply in_seq. lia.
Qed.

Lemma direction_kept_in (fs : list float) (p t p' : float) :
  direction_kept_all fs = true ->
  In p fs -> In t fs -> In p' fs ->
  direction_kept p t p' = true.
Proof.
  unfold direction_kept_all. intros Hall Hp Ht Hp'.
  rewrite forallb_forall in Hall. specialize (Hall p Hp).
  rewrite forallb_forall in Hall. specialize (Hall t Ht).
  rewrite forallb_forall in Hall. exact (Hall p' Hp').
Qed.

(** By evaluation on the 33^3 triples. *)
Lemma direction_kept_upto_16 : direction_kept_all (map F32.of_Z (ints 16)) = true.
Proof. vm_compute. reflexivity. Qed.

Lemma direction_kept_small (p t p' : float) :
  small_int p -> small_int t -> small_int p' ->
  F32.sub (F32.add p' (F32.sub t p)) p' = F32.sub t p.
Proof.
  intros [n1 [H1 ->]] [n2 [H2 ->]] [n3 [H3 ->]].
  apply bits_eqb_eq.
  apply (direction_kept_in (map F32.of_Z (ints 16))).
  - exact direction_kept_upto_16.
  - apply in_map, ints_In; exact H1.
  - apply in_map, ints_In; exact H2.
  - apply in_map, ints_In; exact H3.
Qed.

(** On small integer vectors the look direction survives the edit exactly. *)
Lemma look_direction_small (p t p' : vec3) :
  small_vec p -> small_vec t -> small_vec p' ->
  vsub (vadd p' (vsub t p)) p' = vsub t p.
Proof.
  intros [Hp1 [Hp2 Hp3]] [Ht1 [Ht2 Ht3]] [Hq1 [Hq2 Hq3]].
  unfold vsub, vadd. cbn [vx vy vz].
  rewrite !direction_kept_small by assumption. reflexivity.
Qed.

(** ** Sums without rounding *)

Lemma iter_pos_nat {A : Type} (f : A -> A) (p : positive) (x : A) :
  iter_pos f p x = Nat.iter (Pos.to_nat p) f x.
Proof.
  revert x. induction p as [p IH | p IH |]; intros x; cbn [iter_pos].
  - rewrite !IH. rewrite Pos2Nat.inj_xI.
    replace (S (2 * Pos.to_nat p))%nat with (Pos.to_nat p + (Pos.to_nat p + 1))%nat by lia.
    rewrite !Nat.iter_add. reflexivity.
  - rewrite !IH. rewrite Pos2Nat.inj_xO.
    replace (2 * Pos.to_nat p)%nat with (Pos.to_nat p + Pos.to_nat p)%nat by lia.
    rewrite Nat.iter_add. reflexivity.
  - reflexivity.
Qed.

Lemma shift_nat (m : positive) (d : positive) :
  Pos.iter xO m d = Nat.iter (Pos.to_nat d) xO m.
Proof. apply Pos2Nat.inj_iter. Qed.

Lemma shift_value_nat (m : positive) (n : nat) :
  Zpos (Nat.iter n xO m) = Zpos m * 2 ^ Z.of_nat n.
Proof.
  induction n as [| n IH].
  - cbn. lia.
  - rewrite Nat2Z.inj_succ, Z.pow_succ_r by lia.
    change (Nat.iter (S n) xO m) with (xO (Nat.iter n xO m)).
    rewrite Pos2Z.inj_xO, IH. lia.
Qed.

Lemma shift_digits_nat (m : positive) (n : nat) :
  Zpos (digits2_pos (Nat.iter n xO m)) = Zpos (digits2_pos m) + Z.of_nat n.
Proof.
  induction n as [| n IH].
  - cbn. lia.
  - rewrite Nat2Z.inj_succ.
    change (Nat.iter (S n) xO m) with (xO (Nat.iter n xO m)).
    cbn [digits2_pos]. rewrite Pos2Z.inj_succ, IH. lia.
Qed.

Lemma shr_shift_nat (m : positive) (n : nat) :
  Nat.iter n shr_1 (Build_shr_record (Zpos (Nat.iter n xO m)) false false)
  = Build_shr_record (Zpos m) false false.
Proof.
  induction n as [| n IH]; [reflexivity|].
  rewrite Nat.iter_succ_r.
  change (Nat.iter (S n) xO m) with (xO (Nat.iter n xO m)).
  cbn [shr_1 orb]. exact IH.
Qed.

Lemma fexp_canonical (m0 : positive) (e0 : Z) :
  bounded F32.prec F32.emax m0 e0 = true ->
  fexp F32.prec F32.emax (Zpos (digits2_pos m0) + e0) = e0 /\ e0 <= F32.emax - F32.prec.
Proof.
  unfold bounded, canonical_mantissa. intros H.
  apply andb_true_iff in H as [Hc Hb].
  apply Z.eqb_eq in Hc. apply Z.leb_le in Hb. split; assumption.
Qed.

(** Rounding a mantissa that is already canonical changes nothing. *)
Lemma shr_fexp_canonical (m0 : positive) (e0 : Z) :
  bounded F32.prec F32.emax m0 e0 = true ->
  shr_fexp F32.prec F32.emax (Zpos m0) e0 loc_Exact
  = (Build_shr_record (Zpos m0) false false, e0).
Proof.
  intros H. destruct (fexp_canonical m0 e0 H) as [Hc _].
  unfold shr_fexp. cbn [Zdigits2]. rewrite Hc, Z.sub_diag. reflexivity.
Qed.

Lemma shr_shift (m0 : positive) (d : positive) (e : Z) :
  shr (Build_shr_record (Zpos (Pos.iter xO m0 d)) false false) e (Zpos d)
  = (Build_shr_record (Zpos m0) false false, e + Zpos d).
Proof.
  unfold shr. rewrite iter_pos_nat, shift_nat, shr_shift_nat. reflexivity.
Qed.

Lemma binary_round_aux_canonical (s : bool) (m0 : positive) (e0 : Z) :
  bounded F32.prec F32.emax m0 e0 = true ->
  binary_round_aux F32.prec F32.emax s (Zpos m0) e0 loc_Exact = S754_finite s m0 e0.
Proof.
  intros H. destruct (fexp_canonical m0 e0 H) as [_ Hb].
  unfold binary_round_aux. rewrite (shr_fexp_canonical m0 e0 H).
  cbn [shr_m loc_of_shr_record round_nearest_even].
  rewrite (shr_fexp_canonical m0 e0 H). cbn [shr_m].
  apply Z.leb_le in Hb. rewrite Hb. reflexivity.
Qed.

Lemma Zpos_shift_eq (m m0 : positive) (k : Z) :
  0 <= k -> Zpos m0 = Zpos m * 2 ^ k ->
  m0 = Nat.iter (Z.to_nat k) xO m.
Proof.
  intros Hk H. apply Pos2Z.inj. rewrite shift_value_nat, Z2Nat.id by lia. exact H.
Qed.

(** Rounding [m * 2 ^ e] gives the number that has this value, if there is
    one. *)
Lemma binary_round_number (s : bool) (m : positive) (e : Z) (m0 : positive) (e0 : Z) :
  bounded F32.prec F32.emax m0 e0 = true ->
  same_value (Zpos m) e (Zpos m0) e0 ->
  binary_round F32.prec F32.emax s m e = S754_finite s m0 e0.
Proof.
  intros H Hv. destruct (fexp_canonical m0 e0 H) as [Hc Hb].
  unfold same_value, aligned in Hv.
  destruct (Z_le_gt_dec e0 e) as [Hle | Hgt].
  - rewrite Z.min_r, Z.sub_diag, Z.mul_1_r in Hv by lia.
    pose proof (Zpos_shift_eq m m0 (e - e0) ltac:(lia) (eq_sym Hv)) as Hm.
    assert (Hd : Zpos (digits2_pos m) + e = Zpos (digits2_pos m0) + e0).
    { rewrite Hm, shift_digits_nat, Z2Nat.id by lia. lia. }
    unfold binary_round. rewrite Hd, Hc. unfold shl_align.
    destruct (e0 - e) as [| d | d] eqn:Hde; try lia.
    + assert (e = e0) by lia. subst e. rewrite Z.sub_diag in Hm. cbn in Hm. subst m0.
      apply binary_round_aux_canonical. exact H.
    + rewrite shift_nat. replace (Pos.to_nat d) with (Z.to_nat (e - e0)) by lia.
      rewrite <- Hm. apply binary_round_aux_canonical. exact H.
  - rewrite Z.min_l, Z.sub_diag, Z.mul_1_r in Hv by lia.
    pose proof (Zpos_shift_eq m0 m (e0 - e) ltac:(lia) Hv) as Hm.
    assert (Hd : Zpos (digits2_pos m) + e = Zpos (digits2_pos m0) + e0).
    { rewrite Hm, shift_digits_nat, Z2Nat.id by lia. lia. }
    unfold binary_round. rewrite Hd, Hc. unfold shl_align.
    destruct (e0 - e) as [| d | d] eqn:Hde; try lia.
    unfold binary_round_aux, shr_fexp at 1. cbn [Zdigits2 shr_record_of_loc].
    rewrite Hd, Hc, Hde.
    assert (Hmd : m = Pos.iter xO m0 d).
    { rewrite shift_nat. rewrite Z2Nat.inj_pos in Hm. exact Hm. }
    rewrite Hmd, shr_shift.
    cbn [shr_m loc_of_shr_record round_nearest_even].
    replace (e + Zpos d) with e0 by lia.
    rewrite (shr_fexp_canonical m0 e0 H). cbn [shr_m].
    apply Z.leb_le in Hb. rewrite Hb. reflexivity.
Qed.

Lemma aligned_base (M e k k' : Z) :
  k <= k' <= e -> aligned M e k = aligned M e k' * 2 ^ (k' - k).
Proof.
  intros H. unfold aligned.
  replace (e - k) with ((e - k') + (k' - k)) by lia.
  rewrite Z.pow_add_r by lia. lia.
Qed.

Lemma aligned_self (M e : Z) : aligned M e e = M.
Proof. unfold aligned. rewrite Z.sub_diag. lia. Qed.

Lemma pow2_cancel (a b j : Z) : 0 <= j -> a * 2 ^ j = b * 2 ^ j -> a = b.
Proof.
  intros Hj H. apply Z.mul_cancel_r in H; [exact H|].
  pose proof (Z.pow_pos_nonneg 2 j ltac:(lia) Hj). lia.
Qed.

Lemma shl_align_value (m : positive) (e k : Z) :
  k <= e -> Zpos (fst (shl_align m e k)) = aligned (Zpos m) e k.
Proof.
  intros H. unfold shl_align, aligned.
  destruct (k - e) as [| d | d] eqn:Hd; cbn [fst]; try lia.
  - replace (e - k) with 0 by lia. lia.
  - rewrite shift_nat, shift_value_nat, positive_nat_Z.
    replace (e - k) with (Zpos d) by lia. reflexivity.
Qed.

Lemma cond_Zopp_mul (s : bool) (a b : Z) : cond_Zopp s a * b = cond_Zopp s (a * b).
Proof. destruct s; cbn; lia. Qed.

Lemma aligned_signed (s : bool) (m : positive) (e k : Z) :
  k <= e ->
  cond_Zopp s (Zpos (fst (shl_align m e k))) = aligned (cond_Zopp s (Zpos m)) e k.
Proof.
  intros H. rewrite shl_align_value by exact H. unfold aligned.
  rewrite cond_Zopp_mul. reflexivity.
Qed.

(** Normalising an integer multiple of [2 ^ k] whose value is that of the
    number [(s, m0, e0)] gives that number. *)
Lemma binary_normalize_number (N k : Z) (s : bool) (m0 : positive) (e0 : Z) :
  bounded F32.prec F32.emax m0 e0 = true ->
  aligned N k (Z.min k e0) = aligned (cond_Zopp s (Zpos m0)) e0 (Z.min k e0) ->
  binary_normalize F32.prec F32.emax N k false = S754_finite s m0 e0.
Proof.
  intros H Hv.
  assert (Hp1 : 0 < 2 ^ (k - Z.min k e0)) by (apply Z.pow_pos_nonneg; lia).
  assert (Hp2 : 0 < 2 ^ (e0 - Z.min k e0)) by (apply Z.pow_pos_nonneg; lia).
  unfold aligned in Hv.
  destruct N as [| n | n], s; cbn [cond_Zopp Z.opp] in Hv; try nia.
  - cbn [binary_normalize]. apply binary_round_number; [exact H|].
    unfold same_value, aligned. exact Hv.
  - cbn [binary_normalize]. apply binary_round_number; [exact H|].
    unfold same_value, aligned. nia.
Qed.

Lemma number_finite (s : bool) (m : positive) (e : Z) :
  is_number (S754_finite s m e) = true -> bounded F32.prec F32.emax m e = true.
Proof. intros H. exact H. Qed.

(** Two numbers of the same value are the same number. *)
Lemma number_unique (s : bool) (m1 m2 : positive) (e1 e2 : Z) :
  bounded F32.prec F32.emax m1 e1 = true ->
  bounded F32.prec F32.emax m2 e2 = true ->
  same_value (Zpos m1) e1 (Zpos m2) e2 ->
  m1 = m2 /\ e1 = e2.
Proof.
  intros H1 H2 Hv.
  pose proof (binary_round_number s m1 e1 m2 e2 H2 Hv) as Ha.
  assert (Hself : same_value (Zpos m1) e1 (Zpos m1) e1) by reflexivity.
  pose proof (binary_round_number s m1 e1 m1 e1 H1 Hself) as Hb.
  rewrite Ha in Hb. injection Hb as Hm He. auto.
Qed.

Lemma add_finite (sx : bool) (mx : positive) (ex : Z) (sy : bool) (my : positive) (ey : Z) :
  F32.add (S754_finite sx mx ex) (S754_finite sy my ey)
  = binary_normalize F32.prec F32.emax
      (aligned (cond_Zopp sx (Zpos mx)) ex (Z.min ex ey)
       + aligned (cond_Zopp sy (Zpos my)) ey (Z.min ex ey))
      (Z.min ex ey) false.
Proof.
  unfold F32.add, SFadd. cbv zeta.
  rewrite !aligned_signed by lia. reflexivity.
Qed.

Lemma sub_finite (sx : bool) (mx : positive) (ex : Z) (sy : bool) (my : positive) (ey : Z) :
  F32.sub (S754_finite sx mx ex) (S754_finite sy my ey)
  = binary_normalize F32.prec F32.emax
      (aligned (cond_Zopp sx (Zpos mx)) ex (Z.min ex ey)
       - aligned (cond_Zopp sy (Zpos my)) ey (Z.min ex ey))
      (Z.min ex ey) false.
Proof.
  unfold F32.sub, SFsub. cbv zeta.
  rewrite !aligned_signed by lia. reflexivity.
Qed.

(** Adding [d] to [x] and taking [x] away again gives [d] back, when [x]
    and [d] are numbers, the sum is exact and [d] is not the negative
    zero. *)
Lemma sub_add_exact (x d : float) :
  is_number x = true -> is_number d = true -> d <> S754_zero true ->
  exact_add x d = true ->
  F32.sub (F32.add x d) x = d.
Proof.
  intros Hx Hd Hnz Hex.
  destruct x as [sx | sx | | sx mx ex]; try discriminate Hx;
    destruct d as [sd | sd | | sd md ed]; try discriminate Hd.
  - destruct sd; [contradiction Hnz; reflexivity|]. destruct sx; reflexivity.
  - reflexivity.
  - destruct sd; [contradiction Hnz; reflexivity|].
    change (F32.add (S754_finite sx mx ex) (S754_zero false)) with (S754_finite sx mx ex).
    rewrite sub_finite, Z.sub_diag. reflexivity.
  - apply number_finite in Hx, Hd.
    unfold exact_add in Hex. apply andb_true_iff in Hex as [Hfin Hsum].
    destruct (F32.add (S754_finite sx mx ex) (S754_finite sd md ed))
      as [sz | sz | | sz mz ez] eqn:Hz; try discriminate Hfin.
    + (* the sum is zero: [d] is the opposite of [x] *)
      unfold is_sum in Hsum. cbn [mantissa exponent] in Hsum.
      apply Z.eqb_eq in Hsum.
      set (b := Z.min ex (Z.min ed 0)) in *.
      change (F32.sub (S754_zero sz) (S754_finite sx mx ex))
        with (S754_finite (negb sx) mx ex).
      unfold aligned in Hsum. cbn [Z.mul] in Hsum.
      assert (Hp1 : 0 < 2 ^ (ex - b)) by (apply Z.pow_pos_nonneg; lia).
      assert (Hp2 : 0 < 2 ^ (ed - b)) by (apply Z.pow_pos_nonneg; lia).
      assert (Hs : sd = negb sx).
      { destruct sx, sd; cbn [cond_Zopp Z.opp negb] in *; try reflexivity; nia. }
      assert (Hv : same_value (Zpos mx) ex (Zpos md) ed).
      { unfold same_value.
        apply (pow2_cancel _ _ (Z.min ex ed - b)); [lia|].
        rewrite <- !aligned_base by lia. unfold aligned.
        subst sd. destruct sx; cbn [cond_Zopp Z.opp negb] in Hsum; nia. }
      destruct (number_unique false mx md ex ed Hx Hd Hv) as [-> ->].
      rewrite Hs. reflexivity.
    + (* the sum is finite *)
      unfold is_sum in Hsum. cbn [mantissa exponent] in Hsum.
      apply Z.eqb_eq in Hsum.
      set (b := Z.min ex (Z.min ed ez)) in *.
      rewrite sub_finite.
      apply binary_normalize_number; [exact Hd|].
      set (k := Z.min ez ex). set (b1 := Z.min k ed).
      apply (pow2_cancel _ _ (b1 - b)); [lia|].
      rewrite <- !aligned_base by lia.
      unfold aligned at 1. rewrite Z.mul_sub_distr_r.
      fold (aligned (aligned (cond_Zopp sz (Zpos mz)) ez k) k b).
      fold (aligned (aligned (cond_Zopp sx (Zpos mx)) ex k) k b).
      unfold aligned at 1 3.
      rewrite <- !aligned_base by lia.
      lia.
Qed.

Lemma same_number_refl (x : float) : is_number x = true -> same_number x x.
Proof.
  unfold same_number, SFeqb. destruct x as [s | s | | s m e]; try discriminate; intros _.
  - reflexivity.
  - cbn [SFcompare]. rewrite Z.compare_refl, Pos.compare_cont_refl.
    destruct s; reflexivity.
Qed.

(** Taking [x] away from [x + (-0)] gives [+0]. *)
Lemma sub_add_negative_zero (x : float) :
  is_number x = true -> F32.sub (F32.add x (S754_zero true)) x = S754_zero false.
Proof.
  destruct x as [s | s | | s m e]; try discriminate; intros _.
  - destruct s; reflexivity.
  - change (F32.add (S754_finite s m e) (S754_zero true)) with (S754_finite s m e).
    rewrite sub_finite, Z.sub_diag. reflexivity.
Qed.

(** The look direction after an exact shift: the same number, and the same
    float unless it is the negative zero. *)
Lemma shift_back1 (x d : float) :
  exact_shift1 x d = true ->
  same_number (F32.sub (F32.add x d) x) d
  /\ (is_negative_zero d = false -> F32.sub (F32.add x d) x = d).
Proof.
  unfold exact_shift1. intros H.
  apply andb_true_iff in H as [H Hex]. apply andb_true_iff in H as [Hx Hd].
  destruct (is_negative_zero d) eqn:Hz.
  - destruct d as [[] | | |]; try discriminate Hz.
    rewrite sub_add_negative_zero by exact Hx. split; [reflexivity | discriminate].
  - assert (Hnz : d <> S754_zero true) by (intros ->; discriminate Hz).
    rewrite (sub_add_exact x d Hx Hd Hnz Hex).
    split; [apply same_number_refl; exact Hd | reflexivity].
Qed.

Lemma shift_back (X D : vec3) :
  exact_shift X D = true ->
  same_numbers (vsub (vadd X D) X) D
  /\ (no_negative_zero D -> vsub (vadd X D) X = D).
Proof.
  unfold exact_shift. intros H.
  apply andb_true_iff in H as [H Hz]. apply andb_true_iff in H as [Hx Hy].
  destruct (shift_back1 _ _ Hx) as [Hx1 Hx2].
  destruct (shift_back1 _ _ Hy) as [Hy1 Hy2].
  destruct (shift_back1 _ _ Hz) as [Hz1 Hz2].
  split.
  - unfold same_numbers, vsub, vadd. cbn [vx vy vz]. auto.
  - intros (Nx & Ny & Nz). destruct D as [dx dy dz]. unfold vsub, vadd. cbn [vx vy vz] in *.
    rewrite Hx2, Hy2, Hz2 by assumption. reflexivity.
Qed.

(* ===================================================================== *)
(** * The monad: facts *)
(* ===================================================================== *)

Lemma bind_done {S A B : Type} (m : M S A) (k : A -> M S B) s a s1 l1 b s2 l2 :
  m s = Done a s1 l1 ->
  k a s1 = Done b s2 l2 ->
  bind m k s = Done b s2 (l1 ++ l2).
Proof. intros Hm Hk. unfold bind. rewrite Hm, Hk. reflexivity. Qed.

Lemma bind_crash_left {S A B : Type} (m : M S A) (k : A -> M S B) s e l :
  m s = Crash e l -> bind m k s = Crash e l.
Proof. intros Hm. unfold bind. rewrite Hm. reflexivity. Qed.

Lemma bind_unfold {S A B : Type} (m : M S A) (k : A -> M S B) (s : S) :
  bind m k s
  = match m s with
    | Done a s1 l1 => prepend l1 (k a s1)
    | Crash e l1 => Crash e l1
    end.
Proof. reflexivity. Qed.

Lemma gets_run {S A : Type} (f : S -> A) (s : S) : gets f s = Done (f s) s [].
Proof. reflexivity. Qed.

Lemma modify_run {S : Type} (f : S -> S) (s : S) : modify f s = Done tt (f s) [].
Proof. reflexivity. Qed.

Lemma emit_run {S : Type} (ev : Event) (s : S) : emit ev s = Done tt s [ev].
Proof. reflexivity. Qed.

Lemma ret_run {S A : Type} (a : A) (s : S) : ret a s = Done a s [].
Proof. reflexivity. Qed.

Lemma invocations_app (cb : Callback) (l1 l2 : list Event) :
  invocations cb (l1 ++ l2) = (invocations cb l1 + invocations cb l2)%nat.
Proof. unfold invocations. rewrite filter_app, length_app. reflexivity. Qed.

(** ** Rules for [keeps] *)

Section Keeps.
Context {S : Type} (Q : Event -> Prop) (C : Error -> Prop).

Lemma keeps_ret {A : Type} (Pre : S -> Prop) (a : A) :
  keeps Q C Pre (ret a) (fun b s => b = a /\ Pre s).
Proof. intros s Hs. cbn. auto. Qed.

Lemma keeps_weaken {A : Type} (Pre Pre' : S -> Prop) (Post Post' : A -> S -> Prop)
    (m : M S A) :
  keeps Q C Pre m Post ->
  (forall s, Pre' s -> Pre s) ->
  (forall a s, Post a s -> Post' a s) ->
  keeps Q C Pre' m Post'.
Proof.
  intros Hm Hpre Hpost s Hs. specialize (Hm s (Hpre s Hs)).
  destruct (m s); intuition auto.
Qed.

Lemma keeps_bind {A B : Type} (Pre : S -> Prop) (Mid : A -> S -> Prop)
    (Post : B -> S -> Prop) (m : M S A) (k : A -> M S B) :
  keeps Q C Pre m Mid ->
  (forall a, keeps Q C (Mid a) (k a) Post) ->
  keeps Q C Pre (bind m k) Post.
Proof.
  intros Hm Hk s Hs. specialize (Hm s Hs). unfold bind.
  destruct (m s) as [a s1 l1 | err l1]; [|exact Hm].
  destruct Hm as [Hl1 Hmid]. specialize (Hk a s1 Hmid).
  destruct (k a s1) as [b s2 l2 | err l2]; cbn [prepend];
    destruct Hk as [Hl2 Hrest]; (split; [apply Forall_app; split; assumption | exact Hrest]).
Qed.

Lemma keeps_gets {A : Type} (Pre : S -> Prop) (f : S -> A) :
  keeps Q C Pre (gets f) (fun a s => Pre s /\ f s = a).
Proof. intros s Hs. cbn. auto. Qed.

Lemma keeps_modify (Post : S -> Prop) (f : S -> S) :
  keeps Q C (fun s => Post (f s)) (modify f) (fun _ s => Post s).
Proof. intros s Hs. cbn. auto. Qed.

Lemma keeps_emit (Pre : S -> Prop) (ev : Event) :
  Q ev -> keeps Q C Pre (emit ev) (fun _ s => Pre s).
Proof. intros Hq s Hs. cbn. auto. Qed.

Lemma keeps_crash {A : Type} (Pre : S -> Prop) (Post : A -> S -> Prop) (e : Error) :
  C e -> keeps Q C Pre (crash e) Post.
Proof. intros Hc s Hs. cbn. auto. Qed.

(** Reading the state, when the value read is known. *)
Lemma keeps_bind_gets_eq {A B : Type} (f : S -> A) (x : A) (k : A -> M S B)
    (Pre : S -> Prop) (Post : B -> S -> Prop) :
  (forall s, Pre s -> f s = x) ->
  keeps Q C Pre (k x) Post ->
  keeps Q C Pre (bind (gets f) k) Post.
Proof.
  intros Hf Hk s Hs. unfold bind, gets. rewrite (Hf s Hs).
  specialize (Hk s Hs). destruct (k x s); cbn [prepend app]; exact Hk.
Qed.

(** Reading the state, whatever the value read. *)
Lemma keeps_bind_gets {A B : Type} (f : S -> A) (k : A -> M S B)
    (Pre : S -> Prop) (Post : B -> S -> Prop) :
  (forall x, keeps Q C (fun s => Pre s /\ f s = x) (k x) Post) ->
  keeps Q C Pre (bind (gets f) k) Post.
Proof.
  intros Hk. eapply keeps_bind; [apply keeps_gets|]. exact Hk.
Qed.

Lemma keeps_bind_modify {B : Type} (f : S -> S) (k : unit -> M S B)
    (Pre Mid : S -> Prop) (Post : B -> S -> Prop) :
  (forall s, Pre s -> Mid (f s)) ->
  keeps Q C Mid (k tt) Post ->
  keeps Q C Pre (bind (modify f) k) Post.
Proof.
  intros Hf Hk. eapply keeps_bind.
  - eapply keeps_weaken; [apply (keeps_modify Mid f) | exact Hf | intros a s Hs; exact Hs].
  - intros []. exact Hk.
Qed.

(** A step that keeps the precondition, then the rest. *)
Lemma keeps_seq {A B : Type} (m : M S A) (k : A -> M S B)
    (Pre : S -> Prop) (Post : B -> S -> Prop) :
  keeps Q C Pre m (fun _ s => Pre s) ->
  (forall a, keeps Q C Pre (k a) Post) ->
  keeps Q C Pre (bind m k) Post.
Proof. intros Hm Hk. eapply keeps_bind; [exact Hm | exact Hk]. Qed.

Lemma keeps_pre {A : Type} (Pre Pre' : S -> Prop) (Post : A -> S -> Prop) (m : M S A) :
  (forall s, Pre' s -> Pre s) ->
  keeps Q C Pre m Post ->
  keeps Q C Pre' m Post.
Proof. intros Hpre Hm. eapply keeps_weaken; [exact Hm | exact Hpre | auto]. Qed.

Lemma keeps_post {A : Type} (Pre : S -> Prop) (Post Post' : A -> S -> Prop) (m : M S A) :
  (forall a s, Post a s -> Post' a s) ->
  keeps Q C Pre m Post ->
  keeps Q C Pre m Post'.
Proof. intros Hpost Hm. eapply keeps_weaken; [exact Hm | auto | exact Hpost]. Qed.

Lemma keeps_skip {A : Type} (Pre : S -> Prop) (Post : A -> S -> Prop) (a : A) :
  (forall s, Pre s -> Post a s) ->
  keeps Q C Pre (ret a) Post.
Proof. intros Hp s Hs. cbn. auto. Qed.

(** A fact that follows from the precondition may be assumed. *)
Lemma keeps_assume {A : Type} (F : Prop) (Pre : S -> Prop) (m : M S A)
    (Post : A -> S -> Prop) :
  (forall s, Pre s -> F) ->
  (F -> keeps Q C Pre m Post) ->
  keeps Q C Pre m Post.
Proof. intros HF Hm s Hs. exact (Hm (HF s Hs) s Hs). Qed.

End Keeps.

Section EditorFacts.

Context {P : Type} {OP : ObjectPath P} {MO : MathOps}.

Lemma set_mpPath_same (e : PathEditor P) : set_mpPath (mpPath e) e = e.
Proof. destruct e. reflexivity. Qed.

(** An indexed call in range goes through. *)
Lemma path_call_in_range {A : Type} (c : PathCall) (run : P -> P * A)
    (e : PathEditor P) (i : Z) :
  indexed c = Some i ->
  0 <= i < getKeyFrameCount (mpPath e) ->
  path_call c run e
  = Done (snd (run (mpPath e))) (set_mpPath (fst (run (mpPath e))) e)
      [Path (getKeyFrameCount (mpPath e)) c].
Proof.
  intros Hc Hi. unfold path_call. rewrite Hc.
  replace ((0 <=? i) && (i <? getKeyFrameCount (mpPath e))) with true.
  - destruct (run (mpPath e)); reflexivity.
  - symmetry. apply andb_true_iff. split; [apply Z.leb_le | apply Z.ltb_lt]; lia.
Qed.

Lemma path_getKeyFrame_in_range (e : PathEditor P) (i : Z) :
  0 <= i < getKeyFrameCount (mpPath e) ->
  path_getKeyFrame i e
  = Done (getKeyFrame (mpPath e) i) e [Path (getKeyFrameCount (mpPath e)) (GetKeyFrame i)].
Proof.
  intros Hi. unfold path_getKeyFrame.
  rewrite (path_call_in_range (GetKeyFrame i) _ e i eq_refl Hi). cbn [fst snd].
  rewrite set_mpPath_same. reflexivity.
Qed.

(** Recomputing the cache reads the active frame once and touches nothing
    but the cache. *)
Lemma updateActiveFrameRotationAngles_run (e : PathEditor P) :
  0 <= to_uint32 (mActiveFrame e) < getKeyFrameCount (mpPath e) ->
  updateActiveFrameRotationAngles e
  = Done tt
      (set_mActiveFrameRot (eulerCache (getKeyFrame (mpPath e) (to_uint32 (mActiveFrame e)))) e)
      [Path (getKeyFrameCount (mpPath e)) (GetKeyFrame (to_uint32 (mActiveFrame e)))].
Proof.
  intros Hi. unfold updateActiveFrameRotationAngles, eulerCache.
  unfold bind at 1. cbn [gets].
  unfold bind. rewrite (path_getKeyFrame_in_range e _ Hi).
  destruct (extractEulerAngleXYZ _) as [[t1 t2] t3]. reflexivity.
Qed.

Lemma invoke_present (cb : Callback) (e : PathEditor P) :
  callback cb e = true -> invoke cb e = Done tt e [Invoke cb].
Proof. intros Hcb. unfold invoke, bind, gets. rewrite Hcb. reflexivity. Qed.

Lemma invoke_empty (cb : Callback) (e : PathEditor P) :
  callback cb e = false -> invoke cb e = Crash BadFunctionCall [].
Proof. intros Hcb. unfold invoke, bind, gets. rewrite Hcb. reflexivity. Qed.

(** [setActiveFrame] at an index in range: the outcome in full. *)
Lemma setActiveFrame_run (e : PathEditor P) (i : Z) :
  0 <= i < getKeyFrameCount (mpPath e) ->
  i < 2 ^ 32 ->
  mFrameChangedCB e = true ->
  setActiveFrame i e
  = Done tt
      (set_mActiveFrameRot (eulerCache (getKeyFrame (mpPath e) i))
         (set_mFrameTime (time (getKeyFrame (mpPath e) i))
            (set_mActiveFrame (to_int32 i) e)))
      [Path (getKeyFrameCount (mpPath e)) (GetKeyFrame i);
       Path (getKeyFrameCount (mpPath e)) (GetKeyFrame i);
       Invoke FrameChangedCB].
Proof.
  intros Hi Hu Hcb.
  assert (Hrt : to_uint32 (to_int32 i) = i) by (apply uint32_via_int32; lia).
  unfold setActiveFrame.
  eapply eq_trans.
  - eapply bind_done; [reflexivity|].
    eapply bind_done; [reflexivity|].
    eapply bind_done.
    { apply path_getKeyFrame_in_range. cbn. rewrite Hrt. exact Hi. }
    eapply bind_done; [reflexivity|].
    eapply bind_done.
    { apply updateActiveFrameRotationAngles_run. cbn. rewrite Hrt. exact Hi. }
    apply invoke_present. exact Hcb.
  - cbn. rewrite Hrt. reflexivity.
Qed.

Lemma addButton_run (g : Gui) (label : string) (sameLine : bool) (e : PathEditor P) :
  addButton g label sameLine e = Done (button g label) e [Button label (button g label)].
Proof. reflexivity. Qed.

Lemma path_addKeyFrame_run (t : float) (a b c : vec3) (e : PathEditor P) :
  path_addKeyFrame t a b c e
  = Done (snd (addKeyFrame t a b c (mpPath e)))
      (set_mpPath (fst (addKeyFrame t a b c (mpPath e))) e)
      [Path (getKeyFrameCount (mpPath e)) (AddKeyFrame (mkFrame a b c t))].
Proof.
  unfold path_addKeyFrame, path_call. cbn [indexed].
  destruct (addKeyFrame t a b c (mpPath e)); reflexivity.
Qed.

Lemma path_removeKeyFrame_in_range (e : PathEditor P) (i : Z) :
  0 <= i < getKeyFrameCount (mpPath e) ->
  path_removeKeyFrame i e
  = Done tt (set_mpPath (removeKeyFrame i (mpPath e)) e)
      [Path (getKeyFrameCount (mpPath e)) (RemoveKeyFrame i)].
Proof.
  intros Hi. unfold path_removeKeyFrame.
  rewrite (path_call_in_range (RemoveKeyFrame i) _ e i eq_refl Hi). reflexivity.
Qed.

Lemma path_setFramePosition_in_range (e : PathEditor P) (i : Z) (v : vec3) :
  0 <= i < getKeyFrameCount (mpPath e) ->
  path_setFramePosition i v e
  = Done tt (set_mpPath (setFramePosition i v (mpPath e)) e)
      [Path (getKeyFrameCount (mpPath e)) (SetFramePosition i v)].
Proof.
  intros Hi. unfold path_setFramePosition.
  rewrite (path_call_in_range (SetFramePosition i v) _ e i eq_refl Hi). reflexivity.
Qed.

Lemma path_setFrameTarget_in_range (e : PathEditor P) (i : Z) (v : vec3) :
  0 <= i < getKeyFrameCount (mpPath e) ->
  path_setFrameTarget i v e
  = Done tt (set_mpPath (setFrameTarget i v (mpPath e)) e)
      [Path (getKeyFrameCount (mpPath e)) (SetFrameTarget i v)].
Proof.
  intros Hi. unfold path_setFrameTarget.
  rewrite (path_call_in_range (SetFrameTarget i v) _ e i eq_refl Hi). reflexivity.
Qed.

Lemma path_setFrameUp_in_range (e : PathEditor P) (i : Z) (v : vec3) :
  0 <= i < getKeyFrameCount (mpPath e) ->
  path_setFrameUp i v e
  = Done tt (set_mpPath (setFrameUp i v (mpPath e)) e)
      [Path (getKeyFrameCount (mpPath e)) (SetFrameUp i v)].
Proof.
  intros Hi. unfold path_setFrameUp.
  rewrite (path_call_in_range (SetFrameUp i v) _ e i eq_refl Hi). reflexivity.
Qed.

(** One step of a run: the first computation returns, the rest follows. *)
Ltac step_with tac :=
  eapply bind_done; [ tac | cbv beta ].

Ltac step := step_with reflexivity.

(** C1.  At an index [i] of the path, [setActiveFrame i] sets the active
    index to [i], then the staged frame time to the time of key frame [i],
    then the Euler-angle cache to what that key frame gives, and last invokes
    the frame-changed callback.  It reads key frame [i] twice (once for the
    time, once for the cache) and does nothing else: the path and the other
    members are as before.  (The member is an [int32_t]: it holds [i] itself
    when [i < 2^31], and in any case reads back as [i] where the code uses it
    as an index.) *)
Theorem setActiveFrame_effects (e : PathEditor P) (i : Z) :
  0 <= i < getKeyFrameCount (mpPath e) ->
  getKeyFrameCount (mpPath e) <= 2 ^ 32 ->
  mFrameChangedCB e = true ->
  let kf := getKeyFrame (mpPath e) i in
  let n := getKeyFrameCount (mpPath e) in
  exists e',
    setActiveFrame i e
    = Done tt e' [Path n (GetKeyFrame i); Path n (GetKeyFrame i); Invoke FrameChangedCB]
    /\ e' = set_mActiveFrameRot (eulerCache kf)
              (set_mFrameTime (time kf) (set_mActiveFrame (to_int32 i) e))
    /\ to_uint32 (mActiveFrame e') = i
    /\ (i < 2 ^ 31 -> mActiveFrame e' = i)
    /\ mFrameTime e' = time kf
    /\ mActiveFrameRot e' = eulerCache kf
    /\ mpPath e' = mpPath e.
Proof.
  intros Hi H32 Hcb kf n.
  eexists. split.
  - apply setActiveFrame_run; [exact Hi | lia | exact Hcb].
  - cbn [mActiveFrame mFrameTime mActiveFrameRot mpPath set_mActiveFrameRot
           set_mFrameTime set_mActiveFrame].
    repeat split.
    + apply uint32_via_int32. lia.
    + intros H31. apply to_int32_small. lia.
Qed.

(** C2.  Pressing "Add Frame" hands the path a frame at the staged time
    that has the default pose (0,0,0)/(0,0,1)/(0,1,0) when the path is empty
    and the pose of the active frame otherwise, then invokes the
    count-changed callback, then calls [setActiveFrame] on the index the
    path returned (the rest of the run is the run of that call): the new
    frame is the active one. *)
Theorem addFrame_adds_and_selects (g : Gui) (e : PathEditor P) :
  PathLaws P ->
  button g "Add Frame" = true ->
  getKeyFrameCount (mpPath e) = 0 \/ activeValid e ->
  getKeyFrameCount (mpPath e) < 2 ^ 31 ->
  mAddRemoveKeyframeCB e = true ->
  mFrameChangedCB e = true ->
  let n := getKeyFrameCount (mpPath e) in
  let new := frameToAdd e in
  let r := addKeyFrame (time new) (position new) (target new) (up new) (mpPath e) in
  let n' := getKeyFrameCount (fst r) in
  exists e',
    addFrame g e
    = Done tt e'
        (Button "Add Frame" true
         :: (if n =? 0 then [] else [Path n (GetKeyFrame (mActiveFrame e))])
         ++ [Path n (AddKeyFrame new);
             Invoke AddRemoveKeyframeCB;
             Path n' (GetKeyFrame (snd r));
             Path n' (GetKeyFrame (snd r));
             Invoke FrameChangedCB])
    /\ (n = 0 -> new = mkFrame vec3_zero (vec3_of_Z 0 0 1) (vec3_of_Z 0 1 0) (mFrameTime e))
    /\ (0 < n -> new = mkFrame (position (activeFrame e)) (target (activeFrame e))
                         (up (activeFrame e)) (mFrameTime e))
    /\ mpPath e' = fst r
    /\ mActiveFrame e' = snd r
    /\ activeFrame e' = new
    /\ mFrameTime e' = mFrameTime e
    /\ mActiveFrameRot e' = eulerCache new
    /\ setActiveFrame (snd r) (set_mActiveFrame (snd r) (set_mpPath (fst r) e))
       = Done tt e'
           [Path n' (GetKeyFrame (snd r)); Path n' (GetKeyFrame (snd r));
            Invoke FrameChangedCB].
Proof.
  intros L Hp Hsel Hn Hcb1 Hcb2 n new r n'.
  pose proof (count_nonneg L (mpPath e)) as Hn0.
  pose proof (add_index L (time new) (position new) (target new) (up new) (mpPath e)) as Hid.
  pose proof (add_frame L (time new) (position new) (target new) (up new) (mpPath e)) as Hfr.
  pose proof (add_count_le L (time new) (position new) (target new) (up new) (mpPath e)) as Hle.
  fold r in Hid, Hfr, Hle. fold n' in Hid. fold n in Hn, Hn0, Hle.
  assert (Hnew : mkFrame (position new) (target new) (up new) (time new) = new)
    by (destruct new; reflexivity).
  rewrite Hnew in Hfr.
  assert (Hrt : to_uint32 (to_int32 (snd r)) = snd r) by (apply uint32_via_int32; lia).
  assert (Hti : to_int32 (snd r) = snd r) by (apply to_int32_small; lia).
  assert (Htime : time new = mFrameTime e).
  { unfold new, frameToAdd. destruct (_ =? _); reflexivity. }
  assert (Htail :
    setActiveFrame (snd r) (set_mActiveFrame (snd r) (set_mpPath (fst r) e))
    = Done tt
        (set_mActiveFrameRot (eulerCache new)
           (set_mFrameTime (time new)
              (set_mActiveFrame (snd r) (set_mpPath (fst r) e))))
        [Path n' (GetKeyFrame (snd r)); Path n' (GetKeyFrame (snd r));
         Invoke FrameChangedCB]).
  { rewrite setActiveFrame_run;
      cbn [mpPath set_mActiveFrame set_mpPath mFrameChangedCB]; fold n';
      [| exact Hid | lia | exact Hcb2].
    rewrite Hfr, Hti. reflexivity. }
  destruct Hsel as [Hz | [Hv H31]].
  - (* empty path: the default pose *)
    assert (Hnd : new = mkFrame vec3_zero (vec3_of_Z 0 0 1) (vec3_of_Z 0 1 0) (mFrameTime e)).
    { unfold new, frameToAdd. rewrite Hz. reflexivity. }
    eexists. split.
    + unfold addFrame. eapply eq_trans.
      * step_with ltac:(apply addButton_run). rewrite Hp.
        step. step.
        rewrite Hz. cbn [Z.ltb Z.compare].
        step_with ltac:(apply path_addKeyFrame_run).
        step.
        step_with ltac:(apply invoke_present; exact Hcb1).
        step.
        cbn [mActiveFrame set_mActiveFrame].
        replace (addKeyFrame (mFrameTime e) vec3_zero (vec3_of_Z 0 0 1) (vec3_of_Z 0 1 0) (mpPath e))
          with r by (unfold r; rewrite Hnd; reflexivity).
        rewrite Hrt.
        apply setActiveFrame_run; cbn [mpPath set_mActiveFrame set_mpPath mFrameChangedCB];
          [exact Hid | lia | exact Hcb2].
      * cbn [app mpPath set_mActiveFrame set_mpPath].
        unfold n. rewrite Hz, Hp. cbn [Z.eqb app].
        rewrite <- Hnd. reflexivity.
    + cbn [mpPath set_mActiveFrame set_mpPath set_mFrameTime set_mActiveFrameRot
             mActiveFrame mFrameTime mActiveFrameRot activeFrame].
      unfold activeFrame.
      cbn [mpPath set_mActiveFrame set_mpPath set_mFrameTime set_mActiveFrameRot
             mActiveFrame mFrameTime mActiveFrameRot].
      rewrite Hti, Hfr.
      split; [exact (fun _ => Hnd)|].
      split; [intros Hpos; unfold n in Hpos; lia|].
      rewrite Htail, Htime. repeat split.
  - (* the pose of the active frame *)
    assert (Hne : (n =? 0) = false) by (apply Z.eqb_neq; unfold n; lia).
    assert (Hnd : new = with_time (mFrameTime e) (activeFrame e)).
    { unfold new, frameToAdd. fold n. rewrite Hne. reflexivity. }
    eexists. split.
    + unfold addFrame. eapply eq_trans.
      * step_with ltac:(apply addButton_run). rewrite Hp.
        step. step.
        replace (0 <? getKeyFrameCount (mpPath e)) with true by (symmetry; apply Z.ltb_lt; lia).
        step_with ltac:(eapply bind_done; [reflexivity | cbv beta;
          eapply bind_done; [apply path_getKeyFrame_in_range; rewrite to_uint32_small by lia; exact Hv
                            | cbv beta; apply path_addKeyFrame_run]]).
        step.
        step_with ltac:(apply invoke_present; exact Hcb1).
        step.
        cbn [mActiveFrame set_mActiveFrame].
        rewrite (to_uint32_small (mActiveFrame e)) by lia.
        replace (addKeyFrame (mFrameTime e) _ _ _ (mpPath e))
          with r by (unfold r; rewrite Hnd; reflexivity).
        rewrite Hrt.
        apply setActiveFrame_run; cbn [mpPath set_mActiveFrame set_mpPath mFrameChangedCB];
          [exact Hid | lia | exact Hcb2].
      * cbn [app mpPath set_mActiveFrame set_mpPath].
        fold n n'. rewrite Hne, Hp.
        rewrite (to_uint32_small (mActiveFrame e)) by lia.
        replace (mkFrame _ _ _ (mFrameTime e)) with new by (rewrite Hnd; reflexivity).
        reflexivity.
    + unfold activeFrame.
      cbn [mpPath set_mActiveFrame set_mpPath set_mFrameTime set_mActiveFrameRot
             mActiveFrame mFrameTime mActiveFrameRot].
      rewrite Hti, Hfr.
      split; [intros Hz; unfold n in Hz; lia|].
      split; [intros _; rewrite Hnd; reflexivity|].
      rewrite Htail, Htime. repeat split.
Qed.

(** The clamp of [deleteFrame] when no frame is left: [count - 1] is
    computed on [uint32_t] and wraps to [2^32 - 1], so the minimum is the
    active index itself, whatever it was. *)
Lemma clamp_on_empty (a : Z) :
  is_int32 a -> to_int32 (Z.min (sub_u32 0 1) (to_uint32 a)) = a.
Proof.
  intros Ha. rewrite sub_u32_wraps.
  pose proof (to_uint32_range a) as Hr. unfold is_uint32 in Hr.
  rewrite Z.min_r by lia.
  apply int32_via_uint32. exact Ha.
Qed.

(** The clamp of [deleteFrame] when frames are left. *)
Lemma clamp_on_nonempty (n a : Z) :
  0 < n < 2 ^ 32 -> 0 <= a < 2 ^ 31 ->
  to_int32 (Z.min (sub_u32 n 1) (to_uint32 a)) = Z.min (n - 1) a.
Proof.
  intros Hn Ha. unfold sub_u32.
  rewrite !to_uint32_small by lia.
  apply to_int32_small. lia.
Qed.

(** "Remove Frame" on a valid selection: the run up to the clamp. *)
Lemma deleteFrame_prefix (g : Gui) (e : PathEditor P) :
  button g "Remove Frame" = true ->
  activeValid e ->
  mAddRemoveKeyframeCB e = true ->
  let p' := removeKeyFrame (mActiveFrame e) (mpPath e) in
  let c := to_int32 (Z.min (sub_u32 (getKeyFrameCount p') 1) (to_uint32 (mActiveFrame e))) in
  deleteFrame g e
  = match (if 0 <? getKeyFrameCount p'
           then setActiveFrame (to_uint32 c)
           else ret tt) (set_mActiveFrame c (set_mpPath p' e)) with
    | Done b s l =>
        Done b s ([Button "Remove Frame" true;
                   Path (getKeyFrameCount (mpPath e)) (RemoveKeyFrame (mActiveFrame e));
                   Invoke AddRemoveKeyframeCB] ++ l)
    | Crash err l =>
        Crash err ([Button "Remove Frame" true;
                    Path (getKeyFrameCount (mpPath e)) (RemoveKeyFrame (mActiveFrame e));
                    Invoke AddRemoveKeyframeCB] ++ l)
    end.
Proof.
  intros Hp [Hv H31] Hcb p' c.
  assert (Hu : to_uint32 (mActiveFrame e) = mActiveFrame e) by (apply to_uint32_small; lia).
  unfold deleteFrame.
  unfold bind at 1. cbn [keyFrameCount gets].
  replace (0 <? getKeyFrameCount (mpPath e)) with true by (symmetry; apply Z.ltb_lt; lia).
  unfold bind at 1. rewrite addButton_run, Hp.
  unfold bind at 1. cbn [gets].
  unfold bind at 1. rewrite Hu.
  rewrite (path_removeKeyFrame_in_range e _ Hv).
  unfold bind at 1. rewrite invoke_present by exact Hcb.
  unfold bind at 1. cbn [keyFrameCount gets].
  unfold bind at 1. cbn [gets].
  unfold bind at 1. cbn [modify].
  unfold bind at 1. cbn [keyFrameCount gets mpPath set_mActiveFrame set_mpPath mActiveFrame].
  unfold c, p'. rewrite !Hu.
  destruct (0 <? getKeyFrameCount _).
  - unfold bind at 1. cbn [gets mActiveFrame set_mActiveFrame].
    destruct (setActiveFrame _ _); reflexivity.
  - reflexivity.
Qed.

(** C4.  Pressing "Remove Frame" on a valid selection removes the active
    key frame, invokes the count-changed callback and sets the active index
    to the minimum of the new count minus one and the old index, computed on
    [uint32_t]; when frames remain that is the plain minimum and
    [setActiveFrame] is called with it.  Removing the last of at least two
    frames leaves the active index at [N - 2]. *)
Theorem deleteFrame_clamps (g : Gui) (e : PathEditor P) :
  PathLaws P ->
  button g "Remove Frame" = true ->
  activeValid e ->
  getKeyFrameCount (mpPath e) < 2 ^ 32 ->
  mAddRemoveKeyframeCB e = true ->
  mFrameChangedCB e = true ->
  let N := getKeyFrameCount (mpPath e) in
  let a := mActiveFrame e in
  let p' := removeKeyFrame a (mpPath e) in
  let n' := getKeyFrameCount p' in
  let c := to_int32 (Z.min (sub_u32 n' 1) (to_uint32 a)) in
  exists e',
    deleteFrame g e
    = Done tt e'
        ([Button "Remove Frame" true; Path N (RemoveKeyFrame a); Invoke AddRemoveKeyframeCB]
         ++ (if 0 <? n'
             then [Path n' (GetKeyFrame c); Path n' (GetKeyFrame c); Invoke FrameChangedCB]
             else []))
    /\ mpPath e' = p'
    /\ n' = N - 1
    /\ mActiveFrame e' = c
    /\ (0 < n' ->
        c = Z.min (n' - 1) a
        /\ mFrameTime e' = time (getKeyFrame p' c)
        /\ mActiveFrameRot e' = eulerCache (getKeyFrame p' c)
        /\ setActiveFrame c (set_mActiveFrame c (set_mpPath p' e))
           = Done tt e'
               [Path n' (GetKeyFrame c); Path n' (GetKeyFrame c); Invoke FrameChangedCB])
    /\ (a = N - 1 -> 2 <= N -> mActiveFrame e' = N - 2).
Proof.
  intros L Hp Hv H32 Hcb1 Hcb2 N a p' n' c.
  pose proof Hv as [Hva H31]. fold a N in Hva, H31.
  assert (Hn' : n' = N - 1) by (apply (remove_count L); exact Hva).
  rewrite (deleteFrame_prefix g e Hp Hv Hcb1).
  fold a N p' n' c.
  destruct (Z.ltb_spec 0 n') as [Hpos | Hzero].
  - assert (Hc : c = Z.min (n' - 1) a) by (apply clamp_on_nonempty; lia).
    assert (Hcr : 0 <= c < n') by lia.
    rewrite (to_uint32_small c) by lia.
    rewrite setActiveFrame_run;
      cbn [mpPath set_mActiveFrame set_mpPath mFrameChangedCB]; fold n'; try lia; try assumption.
    eexists. split; [reflexivity|].
    cbn [mpPath set_mActiveFrame set_mpPath set_mFrameTime set_mActiveFrameRot
           mActiveFrame mFrameTime mActiveFrameRot].
    rewrite (to_int32_small c) by lia.
    repeat split; try assumption; try reflexivity; try lia.
  - eexists. split; [reflexivity|].
    cbn [mpPath set_mActiveFrame set_mpPath mActiveFrame].
    repeat split; try assumption; try lia.
Qed.

(** C9.  Removing the only key frame: the count becomes 0, [count - 1] wraps
    to [2^32 - 1] so the clamp leaves the active index as it was (as it would
    any index), [setActiveFrame] is skipped, the count-changed callback is
    the only one invoked, and the staged frame time and the Euler-angle cache
    keep the values they had for the removed frame. *)
Theorem deleteFrame_only_frame (g : Gui) (e : PathEditor P) :
  PathLaws P ->
  button g "Remove Frame" = true ->
  getKeyFrameCount (mpPath e) = 1 ->
  activeValid e ->
  mAddRemoveKeyframeCB e = true ->
  let p' := removeKeyFrame (mActiveFrame e) (mpPath e) in
  let log := [Button "Remove Frame" true; Path 1 (RemoveKeyFrame 0); Invoke AddRemoveKeyframeCB] in
  getKeyFrameCount p' = 0
  /\ sub_u32 (getKeyFrameCount p') 1 = 2 ^ 32 - 1
  /\ (forall a, is_int32 a ->
        to_int32 (Z.min (sub_u32 (getKeyFrameCount p') 1) (to_uint32 a)) = a)
  /\ deleteFrame g e = Done tt (set_mpPath p' e) log
  /\ mActiveFrame (set_mpPath p' e) = mActiveFrame e
  /\ mFrameTime (set_mpPath p' e) = mFrameTime e
  /\ mActiveFrameRot (set_mpPath p' e) = mActiveFrameRot e
  /\ invocations AddRemoveKeyframeCB log = 1%nat
  /\ invocations FrameChangedCB log = 0%nat.
Proof.
  intros L Hp H1 Hv Hcb p' log.
  pose proof Hv as [Hva H31]. rewrite H1 in Hva.
  assert (Ha : mActiveFrame e = 0) by lia.
  assert (Hn' : getKeyFrameCount p' = 0).
  { unfold p'. rewrite (remove_count L) by lia. lia. }
  rewrite Hn'.
  split; [reflexivity|]. split; [reflexivity|].
  split; [intros a Hi; apply clamp_on_empty; exact Hi|].
  split; [|repeat split].
  rewrite (deleteFrame_prefix g e Hp Hv Hcb).
  fold p'. rewrite Hn'. cbn [Z.ltb Z.compare ret app].
  rewrite clamp_on_empty by (unfold is_int32; lia).
  rewrite H1, Ha. unfold log.
  f_equal. destruct e; cbn in *. subst. reflexivity.
Qed.

(** The run of [render] when "Close Editor" is pressed. *)
Lemma render_closing (g : Gui) (e : PathEditor P) :
  button g "Close Editor" = true ->
  render g e
  = Done tt e
      ([PushWindow "Path Editor" 350 400 440 400; Button "Close Editor" true; PopWindow]
       ++ (if mEditCompleteCB e then [Invoke EditCompleteCB] else [])).
Proof.
  intros Hp. unfold render, closeEditor, pushWindow, popWindow.
  unfold bind at 1. cbn [emit].
  unfold bind at 1. unfold bind at 1. rewrite addButton_run, Hp.
  unfold bind at 1. cbn [emit].
  unfold bind at 1. cbn [gets].
  destruct (mEditCompleteCB e) eqn:Hcb.
  - unfold bind at 1. rewrite invoke_present by exact Hcb. reflexivity.
  - reflexivity.
Qed.

(** C7, as the code has it.  When "Close Editor" is pressed, [render] closes
    the window and returns at once: the log is the window being opened, the
    button, the window being closed and then the edit-complete callback,
    which is invoked once if the editor was given one and not at all if its
    callback is empty.  No other widget is drawn, the path is never called
    and no member changes. *)
Theorem render_close (g : Gui) (e : PathEditor P) :
  button g "Close Editor" = true ->
  exists log,
    render g e = Done tt e log
    /\ log = [PushWindow "Path Editor" 350 400 440 400; Button "Close Editor" true; PopWindow]
             ++ (if mEditCompleteCB e then [Invoke EditCompleteCB] else [])
    /\ invocations EditCompleteCB log = (if mEditCompleteCB e then 1 else 0)%nat
    /\ filter is_widget log = [Button "Close Editor" true]
    /\ filter is_path_call log = []
    /\ invocations FrameChangedCB log = 0%nat
    /\ invocations AddRemoveKeyframeCB log = 0%nat.
Proof.
  intros Hp. eexists. split; [apply render_closing; exact Hp|].
  destruct (mEditCompleteCB e); repeat split.
Qed.

Lemma keyFrameCount_run (e : PathEditor P) :
  keyFrameCount e = Done (getKeyFrameCount (mpPath e)) e [].
Proof. reflexivity. Qed.

Lemma addCheckBox_run (g : Gui) (l : string) (v : bool) (e : PathEditor P) :
  addCheckBox g l v e = Done (checkBox g l v) e [CheckBox l (fst (checkBox g l v))].
Proof. reflexivity. Qed.

Lemma addFloat3Var_run (g : Gui) (l : string) (v : vec3) (lo hi : float) (e : PathEditor P) :
  addFloat3Var g l v lo hi e
  = Done (float3Var g l v lo hi) e [Float3Var l (fst (float3Var g l v lo hi))].
Proof. reflexivity. Qed.

Lemma addTooltip_run (t : string) (b : bool) (e : PathEditor P) :
  addTooltip t b e = Done tt e [Tooltip t].
Proof. reflexivity. Qed.

(** Symbolic execution of a run: unfold the next bind, replace the
    computation at its head by its outcome, reduce.  [side] proves that an
    index is in range or that a callback is bound. *)
Ltac exec side :=
  repeat first
    [ rewrite bind_unfold
    | rewrite gets_run | rewrite modify_run | rewrite emit_run | rewrite ret_run
    | rewrite keyFrameCount_run | rewrite addButton_run | rewrite addCheckBox_run
    | rewrite addFloat3Var_run | rewrite addTooltip_run
    | rewrite path_getKeyFrame_in_range by side
    | rewrite path_setFramePosition_in_range by side
    | rewrite path_setFrameTarget_in_range by side
    | rewrite path_setFrameUp_in_range by side
    | rewrite updateActiveFrameRotationAngles_run by side
    | rewrite invoke_present by side
    | progress cbv beta iota
    | progress cbn [prepend fst snd mpPath mActiveFrame mFrameChangedCB mPreserveRotation
                    mActiveFrameRot mFrameTime callback
                    set_mpPath set_mActiveFrame set_mPreserveRotation set_mFrameTime
                    set_mActiveFrameRot orb] ].

(** The setters keep the count, so an index in range stays in range. *)
Ltac same_count L :=
  repeat first [ rewrite (setUp_count L) | rewrite (setTarget_count L)
               | rewrite (setPosition_count L) ].

Ltac in_range L Hv Hcb :=
  cbn [mpPath mActiveFrame mFrameChangedCB callback set_mpPath set_mActiveFrame
       set_mPreserveRotation set_mFrameTime set_mActiveFrameRot];
  repeat first [ rewrite (setUp_count L) | rewrite (setTarget_count L)
               | rewrite (setPosition_count L)
               | rewrite (to_uint32_small (mActiveFrame _)) by lia ];
  first [exact Hv | exact Hcb].

(** One step of the property editor's run: execute, then bring what the
    fields are shown to the form the vocabulary gives it. *)
Ltac fields L Hv Hcb Hu :=
  exec ltac:(in_range L Hv Hcb);
  cbn [andb negb orb fst snd]; cbv beta iota; rewrite ?Hu.

(** C6.  One rendering of the key-frame property editor on a valid
    selection draws the four vector fields Position, Target, Up and Rotation,
    each once and in this order.  What the log shows each field to have
    answered is what the GUI answers for it: Position, Target and Up are
    shown the values the key frame had when the editor began, Rotation is
    shown the cache, recomputed if the orientation changed.  The
    frame-changed callback is invoked once if at least one of these four
    answers is "changed" and not at all otherwise; the answer of the
    "Preserve Rotation" check box plays no part. *)
Theorem editKeyframeProperties_notifies_once (g : Gui) (e : PathEditor P) :
  PathLaws P ->
  activeValid e ->
  mFrameChangedCB e = true ->
  exists e' log,
    editKeyframeProperties g e = Done tt e' log
    /\ float3_labels log = ["Position"; "Target"; "Up"; "Rotation"]
    /\ float3_answers log = fieldAnswers g e
    /\ invocations FrameChangedCB log = (if anyFieldChanged g e then 1 else 0)%nat
    /\ invocations FrameChangedCB log
       = (if existsb field_changed log then 1 else 0)%nat
    /\ ((forall l c, In (Float3Var l c) log -> c = false) ->
        invocations FrameChangedCB log = 0%nat).
Proof.
  intros L [Hv H31] Hcb.
  assert (Hu : to_uint32 (mActiveFrame e) = mActiveFrame e) by (apply to_uint32_small; lia).
  assert (Hpos : (0 <? getKeyFrameCount (mpPath e)) = true) by (apply Z.ltb_lt; lia).
  unfold anyFieldChanged, fieldAnswers, rotationShown, posedPath, activeFrame.
  unfold editKeyframeProperties, commitPosition, commitRotation.
  rewrite bind_unfold, keyFrameCount_run. cbv beta iota zeta. rewrite Hpos. cbn [prepend].
  fields L Hv Hcb Hu.
  destruct (checkBox g "Preserve Rotation" (mPreserveRotation e)) as [cc pr].
  fields L Hv Hcb Hu.
  destruct (float3Var g "Position" _ _ _) as [c1 p1].
  destruct c1, pr; fields L Hv Hcb Hu.
  all: destruct (float3Var g "Target" _ _ _) as [c2 t2];
    destruct c2; fields L Hv Hcb Hu.
  all: destruct (float3Var g "Up" _ _ _) as [c3 u3];
    destruct c3; fields L Hv Hcb Hu.
  all: destruct (float3Var g "Rotation" _ _ _) as [c4 r4];
    destruct c4; fields L Hv Hcb Hu.
  all: do 2 eexists; split; [reflexivity|].
  all: split; [reflexivity|]; split; [reflexivity|]; split; [reflexivity|];
    split; [reflexivity|].
  all: try (intros _; reflexivity).
  all: intros Hall;
    assert (Habs : true = false)
      by (first
            [ apply (Hall "Position");
              solve [cbn [app In]; repeat (first [left; reflexivity | right])]
            | apply (Hall "Target");
              solve [cbn [app In]; repeat (first [left; reflexivity | right])]
            | apply (Hall "Up");
              solve [cbn [app In]; repeat (first [left; reflexivity | right])]
            | apply (Hall "Rotation");
              solve [cbn [app In]; repeat (first [left; reflexivity | right])] ]);
    discriminate Habs.
Qed.

(** C3, as the code has it.  With "Preserve Rotation" set, an edit of the
    position field to [P'] makes the editor commit, right after the field, the
    target [P' + (T - P)] and then the position [P'], where [P] and [T] are
    the position and target the frame had and sum and difference are those of
    single-precision vectors.  If no other field is edited in that frame the
    key frame ends up with exactly that position and target, its up vector and
    time untouched.  The new look direction [(P' + (T - P)) - P'] is the old
    one [T - P] on integer components of magnitude at most 16, and in general
    whenever [P'] and the old direction are numbers and the sum of the two is
    exact, component by component: then the two directions are the same
    numbers, and the same floats unless the old direction has a negative
    zero among its components (which comes back as [+0]). *)
Theorem position_edit_preserving_rotation (g : Gui) (e : PathEditor P) (P' : vec3) :
  PathLaws P ->
  activeValid e ->
  mFrameChangedCB e = true ->
  let kf := activeFrame e in
  let a := mActiveFrame e in
  let n := getKeyFrameCount (mpPath e) in
  let lo := F32.opp F32.FLT_MAX in
  let hi := F32.FLT_MAX in
  let T' := vadd P' (vsub (target kf) (position kf)) in
  snd (checkBox g "Preserve Rotation" (mPreserveRotation e)) = true ->
  float3Var g "Position" (position kf) lo hi = (true, P') ->
  (exists e' l1 l2,
     editKeyframeProperties g e
     = Done tt e'
         (l1 ++ [Float3Var "Position" true;
                 Path n (SetFrameTarget a T');
                 Path n (SetFramePosition a P')] ++ l2)
     /\ l1 = [Path n (GetKeyFrame a);
             CheckBox "Preserve Rotation"
               (fst (checkBox g "Preserve Rotation" (mPreserveRotation e)));
             Tooltip "If checked, the target will also be updated when position is changed."]
     /\ (fst (float3Var g "Target" (target kf) lo hi) = false ->
         fst (float3Var g "Up" (up kf) lo hi) = false ->
         fst (float3Var g "Rotation" (mActiveFrameRot e) (F32.of_Z (-360)) (F32.of_Z 360))
         = false ->
         activeFrame e' = mkFrame P' T' (up kf) (time kf)
         /\ l2 = [Float3Var "Target" false; Float3Var "Up" false;
                 Float3Var "Rotation" false; Invoke FrameChangedCB]))
  /\ (small_vec (position kf) -> small_vec (target kf) -> small_vec P' ->
      vsub T' P' = vsub (target kf) (position kf))
  /\ (exact_shift P' (vsub (target kf) (position kf)) = true ->
      same_numbers (vsub T' P') (vsub (target kf) (position kf))
      /\ (no_negative_zero (vsub (target kf) (position kf)) ->
          vsub T' P' = vsub (target kf) (position kf))).
Proof.
  intros L [Hv H31] Hcb kf a n lo hi T' Hpr HP.
  split; [|split; [apply look_direction_small | apply shift_back]].
  assert (Hu : to_uint32 (mActiveFrame e) = mActiveFrame e) by (apply to_uint32_small; lia).
  assert (Hpos : (0 <? getKeyFrameCount (mpPath e)) = true) by (apply Z.ltb_lt; lia).
  unfold editKeyframeProperties, commitPosition, commitRotation.
  rewrite bind_unfold, keyFrameCount_run. cbv beta iota. rewrite Hpos. cbn [prepend].
  unfold T', kf, a, n, lo, hi, activeFrame in *. clear T' kf a n lo hi.
  exec ltac:(in_range L Hv Hcb).
  destruct (checkBox g "Preserve Rotation" (mPreserveRotation e)) as [cc pr].
  cbn [snd] in Hpr. subst pr.
  exec ltac:(in_range L Hv Hcb).
  rewrite !Hu, HP.
  exec ltac:(in_range L Hv Hcb).
  destruct (float3Var g "Target" _ _ _) as [c2 t2];
    destruct c2; exec ltac:(in_range L Hv Hcb).
  all: destruct (float3Var g "Up" _ _ _) as [c3 u3];
    destruct c3; exec ltac:(in_range L Hv Hcb).
  all: try (destruct (extractEulerAngleXYZ _) as [[? ?] ?]).
  all: exec ltac:(in_range L Hv Hcb).
  all: destruct (float3Var g "Rotation" _ _ _) as [c4 r4] eqn:Hrot;
    destruct c4; exec ltac:(in_range L Hv Hcb).
  all: cbn [app]; rewrite !Hu; same_count L.
  all: eexists;
    exists [Path (getKeyFrameCount (mpPath e)) (GetKeyFrame (mActiveFrame e));
            CheckBox "Preserve Rotation" cc;
            Tooltip "If checked, the target will also be updated when position is changed."];
    eexists; split; [cbn [app]; reflexivity|]; split; [reflexivity|].
  all: cbn [fst]; intros Ht Hup Hr; try discriminate.
  split; [|reflexivity].
  unfold activeFrame.
  cbn [mpPath mActiveFrame set_mActiveFrameRot set_mpPath set_mPreserveRotation].
  rewrite (setPosition_frame L) by (same_count L; exact Hv).
  rewrite (setTarget_frame L) by exact Hv.
  reflexivity.
Qed.




End EditorFacts.

(* ===================================================================== *)
(** * No access to a key frame of an empty path *)
(* ===================================================================== *)

Section Safety.

Context {P : Type} {OP : ObjectPath P} {MO : MathOps}.
Context (Q : Event -> Prop) (C : Error -> Prop).
Context (start : Z -> Prop) (inv ok : Z -> Z -> Prop).
Context (D : Discipline Q C start inv ok) (L : PathLaws P).

Lemma keeps_path_indexed {A : Type} (c : PathCall) (run : P -> P * A) (n a : Z)
    (Post : A -> PathEditor P -> Prop) :
  indexed c = Some (to_uint32 a) ->
  (forall s, selected ok n a s -> 0 <= to_uint32 a < n ->
             Post (snd (run (mpPath s))) (set_mpPath (fst (run (mpPath s))) s)) ->
  keeps Q C (selected ok n a) (path_call c run) Post.
Proof.
  intros Hc Hpost s [Hn [Ha Hok]]. unfold path_call. rewrite Hc.
  fold (count_of s). rewrite Hn.
  assert (Hq : Forall Q [Path n c]).
  { constructor; [|constructor]. eapply (d_access _ _ _ _ _ D); eassumption. }
  destruct ((0 <=? to_uint32 a) && (to_uint32 a <? n)) eqn:Hr.
  - apply andb_true_iff in Hr as [Hlo Hhi]. apply Z.leb_le in Hlo. apply Z.ltb_lt in Hhi.
    specialize (Hpost s (conj Hn (conj Ha Hok)) (conj Hlo Hhi)).
    destruct (run (mpPath s)). split; assumption.
  - split; [exact Hq|].
    destruct (d_index _ _ _ _ _ D n a Hok) as [[Hlo Hhi] | Hc']; [|exact Hc'].
    exfalso. apply andb_false_iff in Hr as [Hr | Hr];
      [apply Z.leb_gt in Hr | apply Z.ltb_ge in Hr]; lia.
Qed.

Lemma keeps_path_plain {A : Type} (c : PathCall) (run : P -> P * A)
    (Pre : PathEditor P -> Prop) (Post : A -> PathEditor P -> Prop) :
  indexed c = None ->
  (forall s, Pre s -> Post (snd (run (mpPath s))) (set_mpPath (fst (run (mpPath s))) s)) ->
  keeps Q C Pre (path_call c run) Post.
Proof.
  intros Hc Hpost s Hs. unfold path_call. rewrite Hc.
  specialize (Hpost s Hs). destruct (run (mpPath s)).
  split; [|assumption].
  constructor; [|constructor]. apply (d_plain _ _ _ _ _ D). exact Hc.
Qed.

Lemma keeps_getKeyFrame (n a : Z) :
  keeps Q C (selected ok n a) (path_getKeyFrame (to_uint32 a)) (fun _ s => selected ok n a s).
Proof.
  apply keeps_path_indexed; [reflexivity|].
  intros s Hs _. cbn [fst snd]. rewrite set_mpPath_same. exact Hs.
Qed.

Lemma keeps_setFramePosition (n a : Z) (v : vec3) :
  keeps Q C (selected ok n a) (path_setFramePosition (to_uint32 a) v) (fun _ s => selected ok n a s).
Proof.
  apply keeps_path_indexed; [reflexivity|].
  intros s [Hn [Ha Hok]] _. unfold selected, count_of. cbn [fst snd mpPath set_mpPath mActiveFrame].
  rewrite (setPosition_count L). auto.
Qed.

Lemma keeps_setFrameTarget (n a : Z) (v : vec3) :
  keeps Q C (selected ok n a) (path_setFrameTarget (to_uint32 a) v) (fun _ s => selected ok n a s).
Proof.
  apply keeps_path_indexed; [reflexivity|].
  intros s [Hn [Ha Hok]] _. unfold selected, count_of. cbn [fst snd mpPath set_mpPath mActiveFrame].
  rewrite (setTarget_count L). auto.
Qed.

Lemma keeps_setFrameUp (n a : Z) (v : vec3) :
  keeps Q C (selected ok n a) (path_setFrameUp (to_uint32 a) v) (fun _ s => selected ok n a s).
Proof.
  apply keeps_path_indexed; [reflexivity|].
  intros s [Hn [Ha Hok]] _. unfold selected, count_of. cbn [fst snd mpPath set_mpPath mActiveFrame].
  rewrite (setUp_count L). auto.
Qed.

Lemma keeps_invoke (cb : Callback) (Pre : PathEditor P -> Prop) :
  keeps Q C Pre (invoke cb) (fun _ s => Pre s).
Proof.
  intros s Hs. unfold invoke, bind, gets.
  destruct (callback cb s); cbn.
  - split; [|exact Hs]. constructor; [|constructor]. apply (d_plain _ _ _ _ _ D). exact I.
  - split; [constructor | apply (d_bad _ _ _ _ _ D)].
Qed.

(** Drawing a widget logs one plain event and leaves the state alone. *)
Lemma keeps_widget {A : Type} (Pre : PathEditor P -> Prop) (ev : Event) (a : A) :
  plain ev ->
  keeps Q C Pre (emit ev ;; ret a) (fun b s => b = a /\ Pre s).
Proof.
  intros Hev s Hs. cbn. split; [|auto].
  constructor; [|constructor]. apply (d_plain _ _ _ _ _ D). exact Hev.
Qed.

Lemma keeps_button (g : Gui) (l : string) (b : bool) (Pre : PathEditor P -> Prop) :
  keeps Q C Pre (addButton g l b) (fun _ s => Pre s).
Proof.
  eapply keeps_post; [|apply (keeps_widget Pre _ (button g l)); exact I].
  intros a s [_ Hs]. exact Hs.
Qed.

Lemma keeps_checkBox (g : Gui) (l : string) (v : bool) (Pre : PathEditor P -> Prop) :
  keeps Q C Pre (addCheckBox g l v) (fun _ s => Pre s).
Proof.
  eapply keeps_post; [|apply (keeps_widget Pre _ (checkBox g l v)); exact I].
  intros a s [_ Hs]. exact Hs.
Qed.

Lemma keeps_floatVar (g : Gui) (l : string) (v lo hi : float) (Pre : PathEditor P -> Prop) :
  keeps Q C Pre (addFloatVar g l v lo hi) (fun _ s => Pre s).
Proof.
  eapply keeps_post; [|apply (keeps_widget Pre _ (floatVar g l v lo hi)); exact I].
  intros a s [_ Hs]. exact Hs.
Qed.

Lemma keeps_float3Var (g : Gui) (l : string) (v : vec3) (lo hi : float)
    (Pre : PathEditor P -> Prop) :
  keeps Q C Pre (addFloat3Var g l v lo hi) (fun _ s => Pre s).
Proof.
  eapply keeps_post; [|apply (keeps_widget Pre _ (float3Var g l v lo hi)); exact I].
  intros a s [_ Hs]. exact Hs.
Qed.

Lemma keeps_intVar (g : Gui) (l : string) (v lo hi : Z) (Pre : PathEditor P -> Prop) :
  keeps Q C Pre (addIntVar g l v lo hi) (fun _ s => Pre s).
Proof.
  eapply keeps_post; [|apply (keeps_widget Pre _ (intVar g l v lo hi)); exact I].
  intros a s [_ Hs]. exact Hs.
Qed.

Lemma keeps_textBox (g : Gui) (l : string) (v : string) (Pre : PathEditor P -> Prop) :
  keeps Q C Pre (addTextBox g l v) (fun _ s => Pre s).
Proof.
  eapply keeps_post; [|apply (keeps_widget Pre _ (textBox g l v)); exact I].
  intros a s [_ Hs]. exact Hs.
Qed.

Lemma keeps_plain_event (ev : Event) (Pre : PathEditor P -> Prop) :
  plain ev -> keeps Q C Pre (emit ev) (fun _ s => Pre s).
Proof. intros Hev. apply keeps_emit. apply (d_plain _ _ _ _ _ D). exact Hev. Qed.

(** Reading the count_of and the active index under [selected ok]. *)
Lemma keeps_bind_count {B : Type} (n a : Z) (k : Z -> Ed P B)
    (Post : B -> PathEditor P -> Prop) :
  keeps Q C (selected ok n a) (k n) Post ->
  keeps Q C (selected ok n a) (bind keyFrameCount k) Post.
Proof. apply keeps_bind_gets_eq. intros s [Hn _]. exact Hn. Qed.

Lemma keeps_bind_active {B : Type} (n a : Z) (k : Z -> Ed P B)
    (Post : B -> PathEditor P -> Prop) :
  keeps Q C (selected ok n a) (k a) Post ->
  keeps Q C (selected ok n a) (bind (gets mActiveFrame) k) Post.
Proof. apply keeps_bind_gets_eq. intros s [_ [Ha _]]. exact Ha. Qed.

Lemma keeps_updateActiveFrameRotationAngles (n a : Z) :
  keeps Q C (selected ok n a) updateActiveFrameRotationAngles (fun _ s => selected ok n a s).
Proof.
  unfold updateActiveFrameRotationAngles.
  apply keeps_bind_active.
  apply keeps_seq; [apply keeps_getKeyFrame|].
  intros keyframe. destruct (extractEulerAngleXYZ _) as [[t1 t2] t3].
  eapply keeps_pre; [|apply (keeps_modify)]. 
  intros s Hs. exact Hs.
Qed.

Lemma keeps_setActiveFrame (n a : Z) :
  is_int32 a -> ok n a ->
  keeps Q C (fun s => count_of s = n) (setActiveFrame (to_uint32 a)) (fun _ s => selected ok n a s).
Proof.
  intros Ha Hok. unfold setActiveFrame.
  apply (keeps_bind_modify _ _ _ _ _ (selected ok n a)).
  { intros s Hn. unfold selected, count_of in *. cbn [mpPath mActiveFrame set_mActiveFrame].
    rewrite int32_via_uint32 by exact Ha. auto. }
  apply keeps_bind_active.
  apply keeps_seq; [apply keeps_getKeyFrame|]. intros keyframe.
  apply (keeps_bind_modify _ _ _ _ _ (selected ok n a)); [intros s Hs; exact Hs|].
  apply keeps_seq; [apply keeps_updateActiveFrameRotationAngles|]. intros _.
  apply keeps_invoke.
Qed.

(** [setActiveFrame(mActiveFrame)], as every caller writes it. *)
Lemma keeps_reselect (n a : Z) :
  is_int32 a -> ok n a ->
  keeps Q C (fun s => count_of s = n /\ mActiveFrame s = a)
    (a <- gets mActiveFrame ;; setActiveFrame (to_uint32 a))
    (fun _ s => selected ok n a s).
Proof.
  intros Ha Hok.
  apply (keeps_bind_gets_eq _ _ _ a); [intros s [_ Hs]; exact Hs|].
  eapply keeps_pre; [|apply keeps_setActiveFrame; assumption].
  intros s [Hn _]. exact Hn.
Qed.

(** Fixing the count_of and the active index of the state at hand. *)
Lemma keeps_fix {A : Type} (Pre : PathEditor P -> Prop) (m : Ed P A)
    (Post : A -> PathEditor P -> Prop) :
  (forall n a, keeps Q C (fun s => Pre s /\ count_of s = n /\ mActiveFrame s = a) m Post) ->
  keeps Q C Pre m Post.
Proof.
  intros Hm s Hs. apply (Hm (count_of s) (mActiveFrame s) s). auto.
Qed.

Lemma J_inv (n a : Z) (s : PathEditor P) : selected ok n a s -> within inv s.
Proof.
  intros [Hn [Ha Hok]]. unfold within. rewrite Hn, Ha.
  apply (d_ok_inv _ _ _ _ _ D). exact Hok.
Qed.

Lemma keeps_commitPosition (n a : Z) (keyframe : Frame) (p : vec3) :
  keeps Q C (selected ok n a) (commitPosition keyframe p) (fun _ s => selected ok n a s).
Proof.
  unfold commitPosition.
  apply keeps_bind_active.
  apply keeps_bind_gets. intros preserve.
  eapply keeps_pre; [intros s [Hs _]; exact Hs|].
  eapply keeps_bind with (Mid := fun _ s => selected ok n a s).
  - destruct preserve.
    + apply keeps_seq; [apply keeps_setFrameTarget|]. intros _.
      apply keeps_skip. auto.
    + apply keeps_skip. auto.
  - intros rotationChanged.
    apply keeps_seq; [apply keeps_setFramePosition|]. intros _.
    apply keeps_skip. auto.
Qed.

Lemma keeps_commitRotation (n a : Z) (p : vec3) :
  keeps Q C (selected ok n a) (commitRotation p) (fun _ s => selected ok n a s).
Proof.
  unfold commitRotation.
  apply keeps_bind_active.
  apply keeps_bind_gets. intros rot.
  eapply keeps_pre; [intros s [Hs _]; exact Hs|].
  apply keeps_seq; [apply keeps_setFrameUp|]. intros _.
  apply keeps_setFrameTarget.
Qed.

(** The body of the property editor, once the count_of is known positive. *)
Lemma keeps_editKeyframeProperties (g : Gui) :
  keeps Q C (within inv) (editKeyframeProperties g) (fun _ s => within inv s).
Proof.
  unfold editKeyframeProperties.
  apply keeps_fix. intros n a.
  apply (keeps_bind_gets_eq _ _ _ n); [intros s [_ [Hn _]]; exact Hn|].
  destruct (Z.ltb_spec 0 n) as [Hpos | Hzero].
  2:{ apply keeps_skip. intros s [Hs _]. exact Hs. }
  apply (keeps_pre _ _ (selected ok n a)).
  { intros s [Hs [Hn Ha]]. unfold selected. repeat split; try assumption.
    apply (d_guard _ _ _ _ _ D); [|exact Hpos].
    unfold within in Hs. rewrite Hn, Ha in Hs. exact Hs. }
  apply keeps_bind_active.
  apply keeps_seq; [apply keeps_getKeyFrame|]. intros keyframe.
  apply keeps_bind_gets. intros preserve.
  eapply keeps_pre; [intros s [Hs _]; exact Hs|].
  apply keeps_seq; [apply keeps_checkBox|]. intros [cc preserve'].
  apply (keeps_bind_modify _ _ _ _ _ (selected ok n a)); [intros s Hs; exact Hs|].
  apply keeps_seq; [apply keeps_plain_event; exact I|]. intros _.
  apply keeps_seq; [apply keeps_float3Var|]. intros [posChanged p].
  eapply keeps_bind with (Mid := fun _ s => selected ok n a s).
  { destruct posChanged; [apply keeps_commitPosition | apply keeps_skip; auto]. }
  intros rotationChanged1.
  apply keeps_seq; [apply keeps_float3Var|]. intros [tgtChanged t].
  apply keeps_seq.
  { destruct tgtChanged; [apply keeps_setFrameTarget | apply keeps_skip; auto]. }
  intros _.
  apply keeps_seq; [apply keeps_float3Var|]. intros [upChanged u].
  apply keeps_seq.
  { destruct upChanged; [apply keeps_setFrameUp | apply keeps_skip; auto]. }
  intros _.
  apply keeps_seq.
  { destruct (rotationChanged1 || tgtChanged || upChanged);
      [apply keeps_updateActiveFrameRotationAngles | apply keeps_skip; auto]. }
  intros _.
  apply keeps_bind_gets. intros rot.
  eapply keeps_pre; [intros s [Hs _]; exact Hs|].
  apply keeps_seq; [apply keeps_float3Var|]. intros [rotChanged rot'].
  apply (keeps_bind_modify _ _ _ _ _ (selected ok n a)); [intros s Hs; exact Hs|].
  apply keeps_seq.
  { destruct rotChanged; [apply keeps_commitRotation | apply keeps_skip; auto]. }
  intros _.
  eapply keeps_post; [intros x s Hs; exact (J_inv n a s Hs)|].
  destruct (posChanged || tgtChanged || upChanged || rotChanged);
    [apply keeps_invoke | apply keeps_skip; auto].
Qed.

Lemma keeps_moveToCamera (g : Gui) :
  keeps Q C (within inv) (moveToCamera g) (fun _ s => within inv s).
Proof.
  unfold moveToCamera.
  apply keeps_fix. intros n a.
  apply (keeps_bind_gets_eq _ _ _ n); [intros s [_ [Hn _]]; exact Hn|].
  destruct (Z.ltb_spec 0 n) as [Hpos | Hzero].
  2:{ apply keeps_skip. intros s [Hs _]. exact Hs. }
  apply (keeps_pre _ _ (selected ok n a)).
  { intros s [Hs [Hn Ha]]. unfold selected. repeat split; try assumption.
    apply (d_guard _ _ _ _ _ D); [|exact Hpos].
    unfold within in Hs. rewrite Hn, Ha in Hs. exact Hs. }
  eapply keeps_post; [intros x s Hs; exact (J_inv n a s Hs)|].
  apply keeps_seq; [apply keeps_button|]. intros pressed.
  destruct pressed; [|apply keeps_skip; auto].
  apply keeps_bind_active.
  apply keeps_bind_gets. intros cam.
  eapply keeps_pre; [intros s [Hs _]; exact Hs|].
  apply keeps_seq; [apply keeps_setFramePosition|]. intros _.
  apply keeps_seq; [apply keeps_setFrameTarget|]. intros _.
  apply keeps_seq; [apply keeps_setFrameUp|]. intros _.
  apply keeps_invoke.
Qed.

Lemma keeps_editFrameTime (g : Gui) :
  keeps Q C (within inv) (editFrameTime g) (fun _ s => within inv s).
Proof.
  unfold editFrameTime.
  apply keeps_bind_gets. intros t.
  eapply keeps_pre; [intros s [Hs _]; exact Hs|].
  apply keeps_seq; [apply keeps_floatVar|]. intros [c t'].
  eapply keeps_pre; [|apply keeps_modify]. intros s Hs. exact Hs.
Qed.

Lemma keeps_editActiveFrameID (g : Gui) :
  keeps Q C (at_start start) (editActiveFrameID g) (fun _ s => at_start start s).
Proof.
  unfold editActiveFrameID.
  apply keeps_fix. intros n a.
  apply (keeps_bind_gets_eq _ _ _ n); [intros s [_ [Hn _]]; exact Hn|].
  destruct (Z.ltb_spec 0 n) as [Hpos | Hzero].
  2:{ apply keeps_skip. intros s [Hs _]. exact Hs. }
  apply keeps_bind_gets. intros a0.
  apply keeps_seq; [apply keeps_intVar|]. intros [changed a'].
  apply (keeps_bind_modify _ _ _ _ _
           (fun s => start n /\ count_of s = n /\ mActiveFrame s = to_int32 a')).
  { intros s [[Hs [Hn _]] _]. unfold at_start in Hs. rewrite Hn in Hs. auto. }
  destruct changed.
  - apply (keeps_weaken _ _ (fun s => start n /\ count_of s = n /\ mActiveFrame s = to_int32 a')
             (fun s => start n /\ count_of s = n /\ mActiveFrame s = to_int32 a')
             (fun _ s => start n /\ selected ok n (to_int32 a') s) (fun _ s => at_start start s)).
    + intros s [Hst Hs]. specialize (Hst).
      pose proof (keeps_reselect n (to_int32 a') (to_int32_range a')
                    (d_select _ _ _ _ _ D n a' Hst Hpos) s Hs) as Hk.
      destruct (bind _ _ s); intuition auto.
    + auto.
    + intros x s [Hst [Hn _]]. unfold at_start. rewrite Hn. exact Hst.
  - apply keeps_skip. intros s [Hst [Hn _]]. unfold at_start. rewrite Hn. exact Hst.
Qed.

Lemma keeps_addKeyFrame (n : Z) (t : float) (a b c : vec3) (Pre : PathEditor P -> Prop) :
  (forall s, Pre s -> count_of s = n) ->
  keeps Q C Pre (path_addKeyFrame t a b c)
    (fun id s => 0 <= id < count_of s /\ count_of s <= n + 1).
Proof.
  intros Hn. apply keeps_path_plain; [reflexivity|].
  intros s Hs. unfold count_of in *. cbn [mpPath set_mpPath].
  pose proof (add_index L t a b c (mpPath s)).
  pose proof (add_count_le L t a b c (mpPath s)).
  rewrite (Hn s Hs) in *. auto.
Qed.

Lemma keeps_addFrame (g : Gui) :
  keeps Q C (at_start start) (addFrame g) (fun _ s => within inv s).
Proof.
  unfold addFrame.
  apply keeps_seq; [apply keeps_button|]. intros pressed.
  destruct pressed.
  2:{ apply keeps_skip. intros s Hs. apply (d_start_inv _ _ _ _ _ D). exact Hs. }
  apply keeps_fix. intros n a.
  apply (keeps_assume _ _ (start n)).
  { intros s [Hs [Hn _]]. unfold at_start in Hs. rewrite Hn in Hs. exact Hs. }
  intros Hstart.
  apply (keeps_bind_gets_eq _ _ _ n); [intros s [_ [Hn _]]; exact Hn|].
  apply keeps_bind_gets. intros t.
  eapply keeps_bind with (Mid := fun id s => 0 <= id < count_of s /\ count_of s <= n + 1).
  { destruct (Z.ltb_spec 0 n) as [Hpos | Hzero].
    - apply (keeps_pre _ _ (selected ok n a)).
      { intros s [[_ [Hn Ha]] _]. unfold selected. repeat split; try assumption.
        apply (d_guard _ _ _ _ _ D); [|exact Hpos].
        apply (d_start_inv _ _ _ _ _ D). exact Hstart. }
      apply keeps_bind_active.
      apply keeps_seq; [apply keeps_getKeyFrame|]. intros currFrame.
      apply keeps_addKeyFrame. intros s [Hn _]. exact Hn.
    - apply keeps_addKeyFrame. intros s [[_ [Hn _]] _]. exact Hn. }
  intros id.
  apply (keeps_bind_modify _ _ _ _ _
           (fun s => (0 <= id < count_of s /\ count_of s <= n + 1)
                     /\ mActiveFrame s = to_int32 id)).
  { intros s Hs. split; [exact Hs | reflexivity]. }
  apply keeps_seq; [apply keeps_invoke|]. intros _.
  apply keeps_fix. intros n' a'.
  apply (keeps_assume _ _ (0 <= id < n' /\ n' <= n + 1 /\ a' = to_int32 id)).
  { intros s [[Hid Ha] [Hn Ha']]. rewrite Hn in Hid. rewrite <- Ha', Ha. tauto. }
  intros [Hid [Hle ->]].
  eapply keeps_weaken.
  - apply (keeps_reselect n' (to_int32 id) (to_int32_range id)).
    apply (d_add _ _ _ _ _ D n n' id Hstart Hid Hle).
  - intros s [_ Hs]. exact Hs.
  - intros x s Hs. exact (J_inv n' (to_int32 id) s Hs).
Qed.

Lemma inv_J (n a : Z) (s : PathEditor P) :
  0 < n -> within inv s -> count_of s = n -> mActiveFrame s = a -> selected ok n a s.
Proof.
  intros Hpos Hs Hn Ha. unfold selected. repeat split; try assumption.
  apply (d_guard _ _ _ _ _ D); [|exact Hpos].
  unfold within in Hs. rewrite Hn, Ha in Hs. exact Hs.
Qed.

Lemma keeps_deleteFrame (g : Gui) :
  keeps Q C (within inv) (deleteFrame g) (fun _ s => within inv s).
Proof.
  unfold deleteFrame.
  apply keeps_fix. intros n a.
  apply (keeps_bind_gets_eq _ _ _ n); [intros s [_ [Hn _]]; exact Hn|].
  destruct (Z.ltb_spec 0 n) as [Hpos | Hzero].
  2:{ apply keeps_skip. intros s [Hs _]. exact Hs. }
  apply (keeps_pre _ _ (selected ok n a)).
  { intros s [Hs [Hn Ha]]. apply inv_J; assumption. }
  apply keeps_seq; [apply keeps_button|]. intros pressed.
  destruct pressed; [|apply keeps_skip; intros s Hs; exact (J_inv n a s Hs)].
  apply keeps_bind_active.
  set (c := to_int32 (Z.min (sub_u32 (n - 1) 1) (to_uint32 a))).
  eapply keeps_bind with
    (Mid := fun _ s => (count_of s = n - 1 /\ mActiveFrame s = a)
                       /\ ok n a /\ 0 <= to_uint32 a < n).
  { apply keeps_path_indexed; [reflexivity|].
    intros s [Hn [Ha Hok]] Hr. unfold count_of in *. cbn [fst snd mpPath set_mpPath mActiveFrame].
    rewrite (remove_count L) by (rewrite Hn; exact Hr). rewrite Hn. auto. }
  intros _.
  apply (keeps_assume _ _ (ok n a /\ 0 <= to_uint32 a < n)); [intros s [_ Hs]; exact Hs|].
  intros [Hok Hr].
  apply (keeps_pre _ _ (fun s => count_of s = n - 1 /\ mActiveFrame s = a));
    [intros s [Hs _]; exact Hs|].
  apply keeps_seq; [apply keeps_invoke|]. intros _.
  apply (keeps_bind_gets_eq _ _ _ (n - 1)); [intros s [Hn _]; exact Hn|].
  apply (keeps_bind_gets_eq _ _ _ a); [intros s [_ Ha]; exact Ha|].
  apply (keeps_bind_modify _ _ _ _ _ (fun s => count_of s = n - 1 /\ mActiveFrame s = c)).
  { intros s [Hn _]. split; [exact Hn | reflexivity]. }
  apply (keeps_bind_gets_eq _ _ _ (n - 1)); [intros s [Hn _]; exact Hn|].
  pose proof (d_remove _ _ _ _ _ D n a Hok Hr) as Hinv. fold c in Hinv.
  destruct (Z.ltb_spec 0 (n - 1)) as [Hpos' | Hzero'].
  - eapply keeps_post; [intros x s Hs; exact (J_inv (n - 1) c s Hs)|].
    apply keeps_reselect; [apply to_int32_range|].
    apply (d_guard _ _ _ _ _ D); assumption.
  - apply keeps_skip. intros s [Hn Ha]. unfold within. rewrite Hn, Ha. exact Hinv.
Qed.

Lemma keeps_updateFrameTime (g : Gui) :
  keeps Q C (within inv) (updateFrameTime g) (fun _ s => within inv s).
Proof.
  unfold updateFrameTime.
  apply keeps_fix. intros n a.
  apply (keeps_assume _ _ (0 <= n)).
  { intros s [_ [Hn _]]. rewrite <- Hn. apply (count_nonneg L). }
  intros Hn0.
  apply (keeps_bind_gets_eq _ _ _ n); [intros s [_ [Hn _]]; exact Hn|].
  destruct (Z.eqb_spec n 0) as [Hz | Hnz]; cbn [negb].
  { apply keeps_skip. intros s [Hs _]. exact Hs. }
  apply (keeps_pre _ _ (selected ok n a)).
  { intros s [Hs [Hn Ha]]. apply inv_J; [lia | assumption..]. }
  apply keeps_seq; [apply keeps_button|]. intros pressed.
  destruct pressed; [|apply keeps_skip; intros s Hs; exact (J_inv n a s Hs)].
  apply keeps_bind_active.
  apply keeps_bind_gets. intros t.
  eapply keeps_bind with
    (Mid := fun id s => (0 <= id < count_of s /\ count_of s <= n)
                        /\ ok n a /\ 0 <= to_uint32 a < n).
  { apply (keeps_pre _ _ (selected ok n a)); [intros s [Hs _]; exact Hs|].
    apply keeps_path_indexed; [reflexivity|].
    intros s [Hn [Ha Hok]] Hr. unfold count_of in *. cbn [fst snd mpPath set_mpPath mActiveFrame].
    pose proof (setTime_index L (to_uint32 a) t (mpPath s)) as Hi.
    pose proof (setTime_count_le L (to_uint32 a) t (mpPath s)) as Hle.
    rewrite Hn in Hi, Hle. auto. }
  intros id.
  apply (keeps_assume _ _ (ok n a /\ 0 <= to_uint32 a < n)); [intros s [_ Hs]; exact Hs|].
  intros [Hok Hr].
  apply (keeps_bind_modify _ _ _ _ _
           (fun s => (0 <= id < count_of s /\ count_of s <= n)
                     /\ mActiveFrame s = to_int32 id)).
  { intros s [Hs _]. split; [exact Hs | reflexivity]. }
  apply keeps_seq; [apply keeps_invoke|]. intros _.
  apply keeps_fix. intros n' a'.
  apply (keeps_assume _ _ (0 <= id < n' /\ n' <= n /\ a' = to_int32 id)).
  { intros s [[Hid Ha] [Hn Ha']]. rewrite Hn in Hid. rewrite <- Ha', Ha. tauto. }
  intros [Hid [Hle ->]].
  eapply keeps_weaken.
  - apply (keeps_reselect n' (to_int32 id) (to_int32_range id)).
    apply (d_retime _ _ _ _ _ D n a n' id Hok Hr Hid Hle).
  - intros s [_ Hs]. exact Hs.
  - intros x s Hs. exact (J_inv n' (to_int32 id) s Hs).
Qed.

Lemma keeps_closeEditor (g : Gui) (Pre : PathEditor P -> Prop) :
  keeps Q C Pre (closeEditor g) (fun _ s => Pre s).
Proof.
  unfold closeEditor.
  apply keeps_seq; [apply keeps_button|]. intros pressed.
  destruct pressed; [|apply keeps_skip; auto].
  apply keeps_seq; [apply keeps_plain_event; exact I|]. intros _.
  apply keeps_bind_gets. intros present.
  eapply keeps_pre; [intros s [Hs _]; exact Hs|].
  apply keeps_seq.
  { destruct present; [apply keeps_invoke | apply keeps_skip; auto]. }
  intros _. apply keeps_skip. auto.
Qed.

Lemma keeps_editPathName (g : Gui) :
  keeps Q C (at_start start) (editPathName g) (fun _ s => at_start start s).
Proof.
  unfold editPathName.
  apply keeps_bind_gets. intros name.
  eapply keeps_pre; [intros s [Hs _]; exact Hs|].
  apply keeps_seq; [apply keeps_textBox|]. intros [changed buffer].
  destruct changed; [|apply keeps_skip; auto].
  apply keeps_path_plain; [reflexivity|].
  intros s Hs. unfold at_start, count_of in *. cbn [fst snd mpPath set_mpPath].
  rewrite (setName_count L). exact Hs.
Qed.

Lemma keeps_editPathLoop (g : Gui) :
  keeps Q C (at_start start) (editPathLoop g) (fun _ s => at_start start s).
Proof.
  unfold editPathLoop.
  apply keeps_bind_gets. intros loop.
  eapply keeps_pre; [intros s [Hs _]; exact Hs|].
  apply keeps_seq; [apply keeps_checkBox|]. intros [changed loop'].
  destruct changed; [|apply keeps_skip; auto].
  apply keeps_path_plain; [reflexivity|].
  intros s Hs. unfold at_start, count_of in *. cbn [fst snd mpPath set_mpPath].
  rewrite (setRepeat_count L). exact Hs.
Qed.

(** Every event of a whole [render] is within the discipline. *)
Lemma keeps_render (g : Gui) :
  keeps Q C (at_start start) (render g) (fun _ _ => True).
Proof.
  unfold render, pushWindow, popWindow, addSeparator.
  apply keeps_seq; [apply keeps_plain_event; exact I|]. intros _.
  apply keeps_seq; [apply keeps_closeEditor|]. intros closed.
  destruct closed; [apply keeps_skip; auto|].
  apply keeps_seq; [apply keeps_plain_event; exact I|]. intros _.
  apply keeps_seq; [apply keeps_editPathName|]. intros _.
  apply keeps_seq; [apply keeps_editPathLoop|]. intros _.
  apply keeps_seq; [apply keeps_editActiveFrameID|]. intros _.
  eapply keeps_bind; [apply keeps_addFrame|]. intros x. cbv beta. clear x.
  apply keeps_seq; [apply keeps_deleteFrame|]. intros _.
  apply keeps_seq; [apply keeps_plain_event; exact I|]. intros _.
  apply keeps_seq; [apply keeps_editFrameTime|]. intros _.
  apply keeps_seq; [apply keeps_updateFrameTime|]. intros _.
  apply keeps_seq; [apply keeps_plain_event; exact I|]. intros _.
  apply keeps_seq; [apply keeps_editKeyframeProperties|]. intros _.
  apply keeps_seq; [apply keeps_moveToCamera|]. intros _.
  eapply keeps_post; [|apply keeps_plain_event; exact I]. auto.
Qed.

End Safety.

Section RenderSafety.

Context {P : Type} {OP : ObjectPath P} {MO : MathOps}.

(** The discipline of the guards: an indexed call needs a path that is not
    empty; nothing is required of the index, and any error may end the
    run. *)
Lemma guard_discipline :
  Discipline guarded (fun _ => True) (fun _ => True) (fun _ _ => True) (fun n _ => 0 < n).
Proof.
  constructor.
  - exact I.
  - intros [] Hp; cbn in *; try exact I. rewrite Hp. exact I.
  - intros n a c Hn Hc. cbn. rewrite Hc. exact Hn.
  - intros n a _. right. exact I.
  - intros n a _. exact I.
  - intros n a _ Hn. exact Hn.
  - intros n a _. exact I.
  - intros n a _ Hn. exact Hn.
  - intros n n' i _ Hi _. lia.
  - intros n a n' i _ _ Hi _. lia.
  - intros n a _ _. exact I.
Qed.

(** The discipline of a run that starts on the empty path: the path never
    holds more than one frame, the active index is 0 when it holds one, and
    no index is ever out of range. *)
Lemma empty_start_discipline :
  Discipline in_range (fun e => e = BadFunctionCall) (fun n => n = 0)
    (fun n a => n = 0 \/ (n = 1 /\ a = 0)) (fun n a => n = 1 /\ a = 0).
Proof.
  constructor.
  - reflexivity.
  - intros [] Hp; cbn in *; try exact I. rewrite Hp. exact I.
  - intros n a c [-> ->] Hc. cbn. rewrite Hc. cbn. lia.
  - intros n a [-> ->]. left. cbn. lia.
  - intros n a ->. left. reflexivity.
  - intros n a [Hz | Hok] Hn; [lia | exact Hok].
  - intros n a Hok. right. exact Hok.
  - intros n a -> Hn. lia.
  - intros n n' i -> Hi Hle. assert (i = 0) by lia. subst i. split; [lia | reflexivity].
  - intros n a n' i [-> ->] _ Hi Hle. assert (i = 0) by lia. subst i. split; [lia | reflexivity].
  - intros n a [-> ->] _. left. reflexivity.
Qed.

(** C5.  A [render] never calls the path with a key-frame index while the
    path is empty.  On an empty path the frame selector, "Remove Frame",
    "Update Current Frame Time", the key-frame property editor and "Move Frame
    to Camera" draw nothing and do nothing.  In every run of [render], from
    any state and whatever the user does, each call that names a key frame by
    index ([getKeyFrame], [removeKeyFrame], [setFramePosition/Target/Up],
    [setFrameTime]) is made when the count is positive.  And a [render] that
    starts on the empty path makes no call with an index out of range, so it
    does not end in an invalid access. *)
Theorem render_guards_frame_access (g : Gui) (e : PathEditor P) :
  PathLaws P ->
  (getKeyFrameCount (mpPath e) = 0 ->
     editActiveFrameID g e = Done tt e []
     /\ deleteFrame g e = Done tt e []
     /\ updateFrameTime g e = Done tt e []
     /\ editKeyframeProperties g e = Done tt e []
     /\ moveToCamera g e = Done tt e [])
  /\ Forall guarded (log_of (render g e))
  /\ (getKeyFrameCount (mpPath e) = 0 ->
      Forall in_range (log_of (render g e))
      /\ ~ crashed_with InvalidIndex (render g e)).
Proof.
  intros L. split; [|split].
  - intros Hz.
    unfold editActiveFrameID, deleteFrame, updateFrameTime, editKeyframeProperties,
      moveToCamera.
    rewrite !bind_unfold, !keyFrameCount_run, Hz. cbn. repeat split.
  - pose proof (keeps_render _ _ _ _ _ guard_discipline L g e I) as Hk.
    destruct (render g e); cbn in *; tauto.
  - intros Hz.
    pose proof (keeps_render _ _ _ _ _ empty_start_discipline L g e Hz) as Hk.
    destruct (render g e) as [a s l | err l]; cbn in *; [tauto|].
    destruct Hk as [Hl ->]. split; [exact Hl | discriminate].
Qed.

End RenderSafety.

(* ===================================================================== *)
(** * More of the editor: facts *)
(* ===================================================================== *)

Section Primitives.

Context {P : Type} {OP : ObjectPath P} {MO : MathOps}.

Lemma addIntVar_run (g : Gui) (l : string) (v lo hi : Z) (e : PathEditor P) :
  addIntVar g l v lo hi e
  = Done (intVar g l v lo hi) e [IntVar l (fst (intVar g l v lo hi))].
Proof. reflexivity. Qed.

Lemma addFloatVar_run (g : Gui) (l : string) (v lo hi : float) (e : PathEditor P) :
  addFloatVar g l v lo hi e
  = Done (floatVar g l v lo hi) e [FloatVar l (fst (floatVar g l v lo hi))].
Proof. reflexivity. Qed.

Lemma addTextBox_run (g : Gui) (l : string) (v : string) (e : PathEditor P) :
  addTextBox g l v e = Done (textBox g l v) e [TextBox l (fst (textBox g l v))].
Proof. reflexivity. Qed.

Lemma path_setName_run (s : string) (e : PathEditor P) :
  path_setName s e
  = Done tt (set_mpPath (setName s (mpPath e)) e)
      [Path (getKeyFrameCount (mpPath e)) (SetName s)].
Proof. reflexivity. Qed.

Lemma path_setAnimationRepeat_run (b : bool) (e : PathEditor P) :
  path_setAnimationRepeat b e
  = Done tt (set_mpPath (setAnimationRepeat b (mpPath e)) e)
      [Path (getKeyFrameCount (mpPath e)) (SetAnimationRepeat b)].
Proof. reflexivity. Qed.

Lemma path_setFrameTime_in_range (e : PathEditor P) (i : Z) (t : float) :
  0 <= i < getKeyFrameCount (mpPath e) ->
  path_setFrameTime i t e
  = Done (snd (setFrameTime i t (mpPath e)))
      (set_mpPath (fst (setFrameTime i t (mpPath e))) e)
      [Path (getKeyFrameCount (mpPath e)) (SetFrameTime i t)].
Proof.
  intros Hi. unfold path_setFrameTime.
  rewrite (path_call_in_range (SetFrameTime i t) _ e i eq_refl Hi). reflexivity.
Qed.

(** An indexed call out of range ends the run, the call being logged. *)
Lemma path_call_out_of_range {A : Type} (c : PathCall) (run : P -> P * A)
    (e : PathEditor P) (i : Z) :
  indexed c = Some i ->
  ~ 0 <= i < getKeyFrameCount (mpPath e) ->
  path_call c run e = Crash InvalidIndex [Path (getKeyFrameCount (mpPath e)) c].
Proof.
  intros Hc Hi. unfold path_call. rewrite Hc.
  replace ((0 <=? i) && (i <? getKeyFrameCount (mpPath e))) with false; [reflexivity|].
  symmetry. apply andb_false_iff.
  destruct (Z.leb_spec 0 i); [right; apply Z.ltb_ge; lia | left; reflexivity].
Qed.

End Primitives.

(** Symbolic execution, for all the primitives of the editor. *)
Ltac run side :=
  repeat first
    [ rewrite bind_unfold
    | rewrite gets_run | rewrite modify_run | rewrite emit_run | rewrite ret_run
    | rewrite keyFrameCount_run | rewrite addButton_run | rewrite addCheckBox_run
    | rewrite addFloat3Var_run | rewrite addTooltip_run
    | rewrite addIntVar_run | rewrite addFloatVar_run | rewrite addTextBox_run
    | rewrite path_setName_run | rewrite path_setAnimationRepeat_run
    | rewrite path_addKeyFrame_run
    | rewrite path_getKeyFrame_in_range by side
    | rewrite path_setFramePosition_in_range by side
    | rewrite path_setFrameTarget_in_range by side
    | rewrite path_setFrameUp_in_range by side
    | rewrite path_setFrameTime_in_range by side
    | rewrite path_removeKeyFrame_in_range by side
    | rewrite updateActiveFrameRotationAngles_run by side
    | rewrite invoke_present by side
    | progress cbv beta iota
    | progress cbn [prepend fst snd mpPath mActiveFrame mFrameChangedCB mAddRemoveKeyframeCB
                    mEditCompleteCB mPreserveRotation mpCamera
                    mActiveFrameRot mFrameTime callback
                    set_mpPath set_mActiveFrame set_mPreserveRotation set_mFrameTime
                    set_mActiveFrameRot orb negb] ].

Ltac unchanged_count L :=
  repeat first [ rewrite (setUp_count L) | rewrite (setTarget_count L)
               | rewrite (setPosition_count L) | rewrite (setName_count L)
               | rewrite (setRepeat_count L) ].

Section Members.

Context {P : Type} {OP : ObjectPath P} {MO : MathOps}.

(** X1.  [setActiveFrame] does not check its argument.  Called with an
    index that is not below the count (any index, on the empty path), the
    first thing it does to its collaborators is to read the key frame at that
    index: an access out of range, which in C++ is undefined behaviour.  The
    model stops at such an access; nothing is said here of what the program
    does after it. *)
Theorem setActiveFrame_out_of_range (e : PathEditor P) (i : Z) :
  getKeyFrameCount (mpPath e) <= i < 2 ^ 32 ->
  0 <= i ->
  let read := Path (getKeyFrameCount (mpPath e)) (GetKeyFrame i) in
  hd_error (log_of (setActiveFrame i e)) = Some read
  /\ ~ in_range read
  /\ crashed_with InvalidIndex (setActiveFrame i e).
Proof.
  intros Hi H0 read.
  assert (Hrun : setActiveFrame i e = Crash InvalidIndex [read]).
  { unfold setActiveFrame.
    rewrite bind_unfold, modify_run. cbv beta iota.
    rewrite bind_unfold, gets_run. cbv beta iota.
    cbn [mActiveFrame set_mActiveFrame].
    rewrite uint32_via_int32 by lia.
    rewrite bind_unfold. unfold path_getKeyFrame.
    rewrite (path_call_out_of_range (GetKeyFrame i) _ _ i eq_refl)
      by (cbn [mpPath set_mActiveFrame]; lia).
    reflexivity. }
  rewrite Hrun. split; [reflexivity|]. split; [|reflexivity].
  unfold read. cbn [in_range indexed]. lia.
Qed.

(** X2.  Creating an editor never fails and invokes no callback.  It reads
    key frame 0 when the path has one, to stage its time; on the empty path
    it reads nothing and the staged time is the default.  It does not compute
    the Euler-angle cache.  When the default active index is 0, as the design
    document says, the new editor's selection is sound. *)
Theorem create_stages_first_frame (d : MemberDefaults) (p : P) (cam : Camera)
    (f a c : PathEditorCallback) :
  PathLaws P ->
  let n := getKeyFrameCount p in
  exists e0,
    create d p cam f a c
    = Done tt e0 (if 0 <? n then [Path n (GetKeyFrame 0)] else [])
    /\ e0 = mkPathEditor p cam f a c (defaultPreserveRotation d) (defaultActiveFrame d)
              (if 0 <? n then time (getKeyFrame p 0) else defaultFrameTime d)
              (defaultActiveFrameRot d)
    /\ (defaultActiveFrame d = 0 -> selectionSound e0).
Proof.
  intros L n. pose proof (count_nonneg L p) as Hn. fold n in Hn.
  eexists. split; [|split; [reflexivity|]].
  - unfold create.
    rewrite bind_unfold, keyFrameCount_run. cbv beta iota. cbn [mpPath]. fold n.
    destruct (Z.ltb_spec 0 n) as [Hpos | Hzero].
    + rewrite bind_unfold, path_getKeyFrame_in_range by (cbn [mpPath]; fold n; lia).
      cbv beta iota. rewrite modify_run. reflexivity.
    + reflexivity.
  - intros Hd. unfold selectionSound, activeValid. cbn [mpPath mActiveFrame]. fold n.
    rewrite Hd. lia.
Qed.

(** X3.  "Update Current Frame Time" on a valid selection hands the staged
    time to the path for the active key frame, invokes the count-changed
    callback and then [setActiveFrame] on the index the path returns.  The
    selection follows the key frame to its new place: the active frame
    afterwards is the old one with the staged time, same pose, and the staged
    time stays what it was. *)
Theorem updateFrameTime_follows_frame (g : Gui) (e : PathEditor P) :
  PathLaws P ->
  PathContents P ->
  button g "Update Current Frame Time" = true ->
  activeValid e ->
  getKeyFrameCount (mpPath e) <= 2 ^ 31 ->
  mAddRemoveKeyframeCB e = true ->
  mFrameChangedCB e = true ->
  let n := getKeyFrameCount (mpPath e) in
  let a := mActiveFrame e in
  let r := setFrameTime a (mFrameTime e) (mpPath e) in
  let n' := getKeyFrameCount (fst r) in
  exists e',
    updateFrameTime g e
    = Done tt e'
        [Button "Update Current Frame Time" true;
         Path n (SetFrameTime a (mFrameTime e));
         Invoke AddRemoveKeyframeCB;
         Path n' (GetKeyFrame (snd r)); Path n' (GetKeyFrame (snd r));
         Invoke FrameChangedCB]
    /\ mpPath e' = fst r
    /\ mActiveFrame e' = snd r
    /\ activeFrame e' = with_time (mFrameTime e) (activeFrame e)
    /\ mFrameTime e' = mFrameTime e
    /\ mActiveFrameRot e' = eulerCache (activeFrame e)
    /\ activeValid e'.
Proof.
  intros L K Hp [Hv H31] Hn Hcb1 Hcb2 n a r n'.
  fold a n in Hv, H31, Hn.
  pose proof (setTime_index L a (mFrameTime e) (mpPath e) Hv) as Hj.
  pose proof (setTime_count_le L a (mFrameTime e) (mpPath e) Hv) as Hle.
  pose proof (setTime_frame K a (mFrameTime e) (mpPath e) Hv) as Hfr.
  fold r in Hj, Hle, Hfr. fold n' in Hj, Hle. fold n in Hle.
  assert (Hu : to_uint32 a = a) by (apply to_uint32_small; lia).
  assert (Hti : to_int32 (snd r) = snd r) by (apply to_int32_small; lia).
  assert (Hrt : to_uint32 (snd r) = snd r) by (apply to_uint32_small; lia).
  assert (Hnz : (n =? 0) = false) by (apply Z.eqb_neq; lia).
  unfold updateFrameTime.
  rewrite bind_unfold, keyFrameCount_run. cbv beta iota. fold n. rewrite Hnz.
  cbn [negb prepend].
  rewrite bind_unfold, addButton_run, Hp. cbv beta iota.
  run ltac:(fold a n; rewrite ?Hu; first [exact Hv | exact Hcb1]).
  fold a. rewrite Hu. fold r. rewrite Hti, Hrt.
  rewrite setActiveFrame_run;
    cbn [mpPath set_mActiveFrame set_mpPath mFrameChangedCB]; fold n';
    [| exact Hj | lia | exact Hcb2].
  cbn [prepend app]. rewrite Hti, Hfr.
  eexists. split; [fold n; reflexivity|].
  unfold activeFrame, activeValid.
  cbn [mpPath mActiveFrame mFrameTime mActiveFrameRot set_mActiveFrameRot set_mFrameTime
         set_mActiveFrame set_mpPath].
  rewrite Hfr. fold a n'.
  repeat split; try reflexivity; lia.
Qed.

(** X4.  The frame selector is offered the range from 0 to count - 1.  When
    it answers "changed" with a value [v] of that range, the editor runs
    [setActiveFrame v]: frame [v] becomes the active one, its time is staged,
    the cache is recomputed from it and the frame-changed callback is invoked
    once. *)
Theorem editActiveFrameID_selects (g : Gui) (e : PathEditor P) (v : Z) :
  let n := getKeyFrameCount (mpPath e) in
  0 < n <= 2 ^ 31 ->
  intVar g "Selected Frame" (mActiveFrame e) 0 (n - 1) = (true, v) ->
  0 <= v <= n - 1 ->
  mFrameChangedCB e = true ->
  exists e',
    editActiveFrameID g e
    = Done tt e'
        [IntVar "Selected Frame" true;
         Path n (GetKeyFrame v); Path n (GetKeyFrame v); Invoke FrameChangedCB]
    /\ mActiveFrame e' = v
    /\ mFrameTime e' = time (getKeyFrame (mpPath e) v)
    /\ mActiveFrameRot e' = eulerCache (getKeyFrame (mpPath e) v)
    /\ mpPath e' = mpPath e.
Proof.
  intros n Hn Hsel Hv Hcb.
  assert (Hhi : to_int32 (sub_u32 n 1) = n - 1).
  { unfold sub_u32. rewrite to_uint32_small by lia. apply to_int32_small. lia. }
  assert (Hti : to_int32 v = v) by (apply to_int32_small; lia).
  assert (Htu : to_uint32 v = v) by (apply to_uint32_small; lia).
  assert (Hpos : (0 <? n) = true) by (apply Z.ltb_lt; lia).
  unfold editActiveFrameID.
  rewrite bind_unfold, keyFrameCount_run. cbv beta iota. fold n. rewrite Hpos.
  run idtac. rewrite Hhi, Hsel. run idtac.
  rewrite Hti, Htu.
  rewrite setActiveFrame_run;
    cbn [mpPath set_mActiveFrame set_mpPath mFrameChangedCB]; fold n;
    [| lia | lia | exact Hcb].
  cbn [prepend app]. rewrite Hti.
  eexists. split; [reflexivity|]. repeat split.
Qed.

(** X5.  The frame-time field only stages: editing it changes the staged
    time and nothing else, the path is not called.  But the field comes
    before "Update Current Frame Time" in a frame, so a time typed and
    committed in the same frame is the time the path gets. *)
Theorem staged_time_is_committed (g : Gui) (e : PathEditor P) (t : float) :
  snd (floatVar g "Frame Time" (mFrameTime e) (F32.of_Z 0) F32.FLT_MAX) = t ->
  (editFrameTime g e
   = Done tt (set_mFrameTime t e)
       [FloatVar "Frame Time" (fst (floatVar g "Frame Time" (mFrameTime e) (F32.of_Z 0) F32.FLT_MAX))])
  /\ (button g "Update Current Frame Time" = true ->
      activeValid e ->
      mAddRemoveKeyframeCB e = true ->
      exists rest,
        log_of ((editFrameTime g ;; updateFrameTime g) e)
        = [FloatVar "Frame Time"
             (fst (floatVar g "Frame Time" (mFrameTime e) (F32.of_Z 0) F32.FLT_MAX));
           Button "Update Current Frame Time" true;
           Path (getKeyFrameCount (mpPath e)) (SetFrameTime (mActiveFrame e) t);
           Invoke AddRemoveKeyframeCB] ++ rest).
Proof.
  intros Ht.
  assert (Hrun : editFrameTime g e
    = Done tt (set_mFrameTime t e)
       [FloatVar "Frame Time" (fst (floatVar g "Frame Time" (mFrameTime e) (F32.of_Z 0) F32.FLT_MAX))]).
  { unfold editFrameTime. run idtac.
    destruct (floatVar g "Frame Time" _ _ _) as [c t'] eqn:Hf. cbn [snd] in Ht. subst t'.
    run idtac. reflexivity. }
  split; [exact Hrun|].
  intros Hp [Hv H31] Hcb.
  assert (Hu : to_uint32 (mActiveFrame e) = mActiveFrame e) by (apply to_uint32_small; lia).
  assert (Hnz : (getKeyFrameCount (mpPath e) =? 0) = false) by (apply Z.eqb_neq; lia).
  rewrite bind_unfold, Hrun. cbv beta iota.
  unfold updateFrameTime.
  rewrite bind_unfold, keyFrameCount_run. cbv beta iota.
  cbn [mpPath set_mFrameTime]. rewrite Hnz. cbn [negb].
  rewrite bind_unfold, addButton_run, Hp. cbv beta iota.
  run ltac:(cbn [mpPath mActiveFrame set_mFrameTime mAddRemoveKeyframeCB callback];
            rewrite ?Hu; first [exact Hv | exact Hcb]).
  rewrite Hu.
  destruct (setActiveFrame _ _) as [x s l | err l]; cbn [prepend log_of app];
    eexists; reflexivity.
Qed.

(** The side conditions of a run of the property editor on a valid
    selection: the setters keep the count. *)
Ltac editor_side L Hv Hcb :=
  cbn [mpPath mActiveFrame mFrameChangedCB callback set_mpPath set_mActiveFrame
       set_mPreserveRotation set_mFrameTime set_mActiveFrameRot];
  repeat first [ rewrite (setUp_count L) | rewrite (setTarget_count L)
               | rewrite (setPosition_count L)
               | rewrite (to_uint32_small (mActiveFrame _)) by lia ];
  first [exact Hv | exact Hcb].

(** X6.  With "Preserve Rotation" off, an edit of the position field to [P']
    commits the position alone: the target stays where it was, so the look
    direction turns.  The editor then recomputes the Euler-angle cache from
    the moved frame before it draws the rotation field, and notifies once. *)
Theorem position_edit_turns_the_view (g : Gui) (e : PathEditor P) (P' : vec3) :
  PathLaws P ->
  activeValid e ->
  mFrameChangedCB e = true ->
  let kf := activeFrame e in
  let a := mActiveFrame e in
  let n := getKeyFrameCount (mpPath e) in
  let lo := F32.opp F32.FLT_MAX in
  let hi := F32.FLT_MAX in
  let moved := with_position P' kf in
  let shown := float3Var g "Rotation" (eulerCache moved) (F32.of_Z (-360)) (F32.of_Z 360) in
  snd (checkBox g "Preserve Rotation" (mPreserveRotation e)) = false ->
  float3Var g "Position" (position kf) lo hi = (true, P') ->
  fst (float3Var g "Target" (target kf) lo hi) = false ->
  fst (float3Var g "Up" (up kf) lo hi) = false ->
  fst shown = false ->
  exists e',
    editKeyframeProperties g e
    = Done tt e'
        [Path n (GetKeyFrame a);
         CheckBox "Preserve Rotation"
           (fst (checkBox g "Preserve Rotation" (mPreserveRotation e)));
         Tooltip "If checked, the target will also be updated when position is changed.";
         Float3Var "Position" true; Path n (SetFramePosition a P');
         Float3Var "Target" false; Float3Var "Up" false;
         Path n (GetKeyFrame a);
         Float3Var "Rotation" false; Invoke FrameChangedCB]
    /\ activeFrame e' = moved
    /\ target (activeFrame e') = target kf
    /\ mActiveFrameRot e' = snd shown.
Proof.
  intros L [Hv H31] Hcb kf a n lo hi moved shown Hpr HP HT HU HR.
  assert (Hu : to_uint32 (mActiveFrame e) = mActiveFrame e) by (apply to_uint32_small; lia).
  assert (Hpos : (0 <? getKeyFrameCount (mpPath e)) = true) by (apply Z.ltb_lt; lia).
  unfold editKeyframeProperties, commitPosition, commitRotation.
  rewrite bind_unfold, keyFrameCount_run. cbv beta iota. rewrite Hpos. cbn [prepend].
  unfold shown, moved, kf, a, n, lo, hi, activeFrame in *. clear shown moved kf a n lo hi.
  run ltac:(editor_side L Hv Hcb).
  destruct (checkBox g "Preserve Rotation" (mPreserveRotation e)) as [cc pr].
  cbn [snd] in Hpr. subst pr.
  run ltac:(editor_side L Hv Hcb).
  rewrite !Hu, HP.
  run ltac:(editor_side L Hv Hcb).
  destruct (float3Var g "Target" _ _ _) as [c2 t2]. cbn [fst] in HT. subst c2.
  run ltac:(editor_side L Hv Hcb).
  destruct (float3Var g "Up" _ _ _) as [c3 u3]. cbn [fst] in HU. subst c3.
  run ltac:(editor_side L Hv Hcb).
  rewrite !Hu.
  rewrite (setPosition_frame L) by exact Hv.
  destruct (float3Var g "Rotation" _ _ _) as [c4 r4]. cbn [fst] in HR. subst c4.
  run ltac:(editor_side L Hv Hcb).
  cbn [app]. unchanged_count L.
  eexists. split; [reflexivity|].
  unfold activeFrame.
  cbn [mpPath mActiveFrame mActiveFrameRot set_mActiveFrameRot set_mpPath
         set_mPreserveRotation snd].
  rewrite (setPosition_frame L) by exact Hv.
  repeat split.
Qed.

(** X7.  An edit of the target field, or of the up field, is committed to the
    active key frame alone in its field, and the Euler-angle cache is
    recomputed from the frame as edited before the rotation field is
    drawn. *)
Theorem orientation_edit_recomputes_cache (g : Gui) (e : PathEditor P) (V : vec3) :
  PathLaws P ->
  activeValid e ->
  mFrameChangedCB e = true ->
  let kf := activeFrame e in
  let lo := F32.opp F32.FLT_MAX in
  let hi := F32.FLT_MAX in
  let rotation f := float3Var g "Rotation" (eulerCache f) (F32.of_Z (-360)) (F32.of_Z 360) in
  fst (float3Var g "Position" (position kf) lo hi) = false ->
  (float3Var g "Target" (target kf) lo hi = (true, V) ->
   fst (float3Var g "Up" (up kf) lo hi) = false ->
   fst (rotation (with_target V kf)) = false ->
   exists e' log,
     editKeyframeProperties g e = Done tt e' log
     /\ activeFrame e' = with_target V kf
     /\ mActiveFrameRot e' = snd (rotation (with_target V kf))
     /\ invocations FrameChangedCB log = 1%nat)
  /\ (fst (float3Var g "Target" (target kf) lo hi) = false ->
      float3Var g "Up" (up kf) lo hi = (true, V) ->
      fst (rotation (with_up V kf)) = false ->
      exists e' log,
        editKeyframeProperties g e = Done tt e' log
        /\ activeFrame e' = with_up V kf
        /\ mActiveFrameRot e' = snd (rotation (with_up V kf))
        /\ invocations FrameChangedCB log = 1%nat).
Proof.
  intros L [Hv H31] Hcb kf lo hi rotation HP.
  assert (Hu : to_uint32 (mActiveFrame e) = mActiveFrame e) by (apply to_uint32_small; lia).
  assert (Hpos : (0 <? getKeyFrameCount (mpPath e)) = true) by (apply Z.ltb_lt; lia).
  unfold rotation, kf, lo, hi, activeFrame in *. clear rotation kf lo hi.
  split.
  - intros HT HU HR.
    unfold editKeyframeProperties, commitPosition, commitRotation.
    rewrite bind_unfold, keyFrameCount_run. cbv beta iota. rewrite Hpos. cbn [prepend].
    run ltac:(editor_side L Hv Hcb).
    destruct (checkBox g "Preserve Rotation" (mPreserveRotation e)) as [cc pr].
    run ltac:(editor_side L Hv Hcb).
    rewrite !Hu.
    destruct (float3Var g "Position" _ _ _) as [c1 p1]. cbn [fst] in HP. subst c1.
    run ltac:(editor_side L Hv Hcb).
    rewrite HT.
    run ltac:(editor_side L Hv Hcb).
    destruct (float3Var g "Up" _ _ _) as [c3 u3]. cbn [fst] in HU. subst c3.
    run ltac:(editor_side L Hv Hcb).
    rewrite !Hu.
    rewrite (setTarget_frame L) by exact Hv.
    destruct (float3Var g "Rotation" _ _ _) as [c4 r4]. cbn [fst] in HR. subst c4.
    run ltac:(editor_side L Hv Hcb).
    do 2 eexists. split; [reflexivity|].
    unfold activeFrame.
    cbn [mpPath mActiveFrame mActiveFrameRot set_mActiveFrameRot set_mpPath
           set_mPreserveRotation snd].
    rewrite (setTarget_frame L) by exact Hv.
    repeat split.
  - intros HT HU HR.
    unfold editKeyframeProperties, commitPosition, commitRotation.
    rewrite bind_unfold, keyFrameCount_run. cbv beta iota. rewrite Hpos. cbn [prepend].
    run ltac:(editor_side L Hv Hcb).
    destruct (checkBox g "Preserve Rotation" (mPreserveRotation e)) as [cc pr].
    run ltac:(editor_side L Hv Hcb).
    rewrite !Hu.
    destruct (float3Var g "Position" _ _ _) as [c1 p1]. cbn [fst] in HP. subst c1.
    run ltac:(editor_side L Hv Hcb).
    destruct (float3Var g "Target" _ _ _) as [c2 t2]. cbn [fst] in HT. subst c2.
    run ltac:(editor_side L Hv Hcb).
    rewrite HU.
    run ltac:(editor_side L Hv Hcb).
    rewrite !Hu.
    rewrite (setUp_frame L) by exact Hv.
    destruct (float3Var g "Rotation" _ _ _) as [c4 r4]. cbn [fst] in HR. subst c4.
    run ltac:(editor_side L Hv Hcb).
    do 2 eexists. split; [reflexivity|].
    unfold activeFrame.
    cbn [mpPath mActiveFrame mActiveFrameRot set_mActiveFrameRot set_mpPath
           set_mPreserveRotation snd].
    rewrite (setUp_frame L) by exact Hv.
    repeat split.
Qed.

(** X8.  An edit of the rotation field to [R] commits an up vector and a
    target, in this order: the second column of the yaw-pitch-roll matrix of
    [R] in radians, and the value of the position field plus the third
    column.  The position of the key frame is not written and the cache is
    not recomputed: it keeps [R] as typed. *)
Theorem rotation_edit_commits (g : Gui) (e : PathEditor P) (R : vec3) :
  PathLaws P ->
  activeValid e ->
  mFrameChangedCB e = true ->
  let kf := activeFrame e in
  let a := mActiveFrame e in
  let n := getKeyFrameCount (mpPath e) in
  let lo := F32.opp F32.FLT_MAX in
  let hi := F32.FLT_MAX in
  let p := snd (float3Var g "Position" (position kf) lo hi) in
  let m := yawPitchRoll (vx (radians R)) (vy (radians R)) (vz (radians R)) in
  fst (float3Var g "Position" (position kf) lo hi) = false ->
  fst (float3Var g "Target" (target kf) lo hi) = false ->
  fst (float3Var g "Up" (up kf) lo hi) = false ->
  float3Var g "Rotation" (mActiveFrameRot e) (F32.of_Z (-360)) (F32.of_Z 360) = (true, R) ->
  exists e',
    editKeyframeProperties g e
    = Done tt e'
        [Path n (GetKeyFrame a);
         CheckBox "Preserve Rotation"
           (fst (checkBox g "Preserve Rotation" (mPreserveRotation e)));
         Tooltip "If checked, the target will also be updated when position is changed.";
         Float3Var "Position" false; Float3Var "Target" false; Float3Var "Up" false;
         Float3Var "Rotation" true;
         Path n (SetFrameUp a (m3c1 m)); Path n (SetFrameTarget a (vadd p (m3c2 m)));
         Invoke FrameChangedCB]
    /\ activeFrame e' = mkFrame (position kf) (vadd p (m3c2 m)) (m3c1 m) (time kf)
    /\ mActiveFrameRot e' = R.
Proof.
  intros L [Hv H31] Hcb kf a n lo hi p m HP HT HU HR.
  assert (Hu : to_uint32 (mActiveFrame e) = mActiveFrame e) by (apply to_uint32_small; lia).
  assert (Hpos : (0 <? getKeyFrameCount (mpPath e)) = true) by (apply Z.ltb_lt; lia).
  unfold editKeyframeProperties, commitPosition, commitRotation.
  rewrite bind_unfold, keyFrameCount_run. cbv beta iota. rewrite Hpos. cbn [prepend].
  unfold m, p, kf, a, n, lo, hi, activeFrame in *. clear m p kf a n lo hi.
  run ltac:(editor_side L Hv Hcb).
  destruct (checkBox g "Preserve Rotation" (mPreserveRotation e)) as [cc pr].
  run ltac:(editor_side L Hv Hcb).
  rewrite !Hu.
  destruct (float3Var g "Position" _ _ _) as [c1 p1]. cbn [fst] in HP. subst c1.
  run ltac:(editor_side L Hv Hcb).
  destruct (float3Var g "Target" _ _ _) as [c2 t2]. cbn [fst] in HT. subst c2.
  run ltac:(editor_side L Hv Hcb).
  destruct (float3Var g "Up" _ _ _) as [c3 u3]. cbn [fst] in HU. subst c3.
  run ltac:(editor_side L Hv Hcb).
  rewrite HR.
  run ltac:(editor_side L Hv Hcb).
  cbn [app]. rewrite !Hu. unchanged_count L.
  eexists. split; [reflexivity|].
  unfold activeFrame.
  cbn [mpPath mActiveFrame mActiveFrameRot set_mActiveFrameRot set_mpPath
         set_mPreserveRotation snd].
  rewrite (setTarget_frame L) by (unchanged_count L; exact Hv).
  rewrite (setUp_frame L) by exact Hv.
  repeat split.
Qed.


End Members.

Section Frames.

Context {P : Type} {OP : ObjectPath P} {MO : MathOps}.

Lemma substring_length_le (n : nat) (s : string) :
  (String.length (String.substring 0 n s) <= n)%nat.
Proof.
  revert s. induction n as [| n IH]; intros [| c s]; cbn; try lia.
  specialize (IH s). lia.
Qed.

(** X9.  The name box is shown the name of the path, cut to the 1023
    characters that fit the buffer.  When the box answers "changed" the text
    it holds becomes the name of the path; otherwise the path is not called,
    so a name longer than the buffer stays whole.  The key frames and the
    selection are no concern of the box. *)
Theorem editPathName_commits (g : Gui) (e : PathEditor P) :
  PathLaws P -> PathContents P ->
  let shown := copyStringToBuffer 1024 (getName (mpPath e)) in
  let answer := textBox g "Path Name" shown in
  (String.length shown <= 1023)%nat
  /\ exists e',
      editPathName g e
      = Done tt e'
          (TextBox "Path Name" (fst answer)
           :: (if fst answer
               then [Path (getKeyFrameCount (mpPath e)) (SetName (snd answer))]
               else []))
      /\ getName (mpPath e') = (if fst answer then snd answer else getName (mpPath e))
      /\ getKeyFrameCount (mpPath e') = getKeyFrameCount (mpPath e)
      /\ mActiveFrame e' = mActiveFrame e
      /\ (fst answer = false -> e' = e).
Proof.
  intros L K shown answer. split.
  { unfold shown, copyStringToBuffer. apply substring_length_le. }
  unfold editPathName. run idtac. fold shown. fold answer.
  destruct answer as [[] s]; run idtac; cbn [app fst snd]; eexists; (split; [reflexivity|]).
  - cbn [mpPath set_mpPath mActiveFrame]. rewrite (setName_name K), (setName_count L).
    repeat split. discriminate.
  - repeat split.
Qed.

(** X10.  The loop box is shown the loop flag of the path.  When it answers
    "changed" the value it holds becomes the flag; otherwise the path is not
    called and the flag stays, whatever value the box holds. *)
Theorem editPathLoop_commits (g : Gui) (e : PathEditor P) :
  PathLaws P -> PathContents P ->
  let answer := checkBox g "Loop Path" (isRepeatOn (mpPath e)) in
  exists e',
    editPathLoop g e
    = Done tt e'
        (CheckBox "Loop Path" (fst answer)
         :: (if fst answer
             then [Path (getKeyFrameCount (mpPath e)) (SetAnimationRepeat (snd answer))]
             else []))
    /\ isRepeatOn (mpPath e') = (if fst answer then snd answer else isRepeatOn (mpPath e))
    /\ getKeyFrameCount (mpPath e') = getKeyFrameCount (mpPath e)
    /\ mActiveFrame e' = mActiveFrame e
    /\ (fst answer = false -> e' = e).
Proof.
  intros L K answer.
  unfold editPathLoop. run idtac. fold answer.
  destruct answer as [[] s]; run idtac; cbn [app fst snd]; eexists; (split; [reflexivity|]).
  - cbn [mpPath set_mpPath mActiveFrame]. rewrite (setRepeat_flag K), (setRepeat_count L).
    repeat split. discriminate.
  - repeat split.
Qed.

(** X11.  A frame in which the user does nothing changes no member of the
    editor, writes nothing to the path and invokes no callback, be the
    callbacks empty or not: on the empty path only the name box, the loop
    box, "Add Frame" and the time field are drawn; on a valid selection the
    active key frame is read once, for the property editor. *)
Theorem quiet_render_changes_nothing (g : Gui) (e : PathEditor P) :
  quiet g ->
  selectionSound e ->
  render g e
  = Done tt e
      (if getKeyFrameCount (mpPath e) =? 0 then emptyLog
       else idleLog (getKeyFrameCount (mpPath e)) (mActiveFrame e)).
Proof.
  intros (Hb & Hc & Hf & Hf3 & Hi & Ht) [Hz | [Hv H31]].
  - unfold render, closeEditor, editPathName, editPathLoop, editActiveFrameID, addFrame,
      deleteFrame, editFrameTime, updateFrameTime, editKeyframeProperties, moveToCamera,
      pushWindow, popWindow, addSeparator.
    repeat (progress (run idtac; rewrite ?Hb, ?Hc, ?Hf, ?Hf3, ?Hi, ?Ht, ?Hz;
                      change (0 <? 0) with false; change (0 =? 0) with true)).
    cbn. destruct e; reflexivity.
  - assert (Hu : to_uint32 (mActiveFrame e) = mActiveFrame e) by (apply to_uint32_small; lia).
    assert (Hs : to_int32 (mActiveFrame e) = mActiveFrame e) by (apply to_int32_small; lia).
    assert (Hpos : (0 <? getKeyFrameCount (mpPath e)) = true) by (apply Z.ltb_lt; lia).
    assert (Hne : (getKeyFrameCount (mpPath e) =? 0) = false) by (apply Z.eqb_neq; lia).
    unfold render, closeEditor, editPathName, editPathLoop, editActiveFrameID, addFrame,
      deleteFrame, editFrameTime, updateFrameTime, editKeyframeProperties, moveToCamera,
      pushWindow, popWindow, addSeparator.
    repeat (progress (run ltac:(rewrite ?Hs, ?Hu; exact Hv);
                      rewrite ?Hb, ?Hc, ?Hf, ?Hf3, ?Hi, ?Ht, ?Hpos, ?Hne, ?Hs, ?Hu)).
    cbn. destruct e; reflexivity.
Qed.

(** X12.  Which frame "Remove Frame" leaves selected.  When the removed frame
    was not the last one the active index stays, and now names the frame that
    followed the removed one; when it was the last one the index steps back
    to the frame before it.  In both cases the staged time and the
    Euler-angle cache are those of the newly selected frame. *)
Theorem deleteFrame_selects_neighbour (g : Gui) (e : PathEditor P) :
  PathLaws P -> PathContents P ->
  button g "Remove Frame" = true ->
  activeValid e ->
  2 <= getKeyFrameCount (mpPath e) < 2 ^ 32 ->
  mAddRemoveKeyframeCB e = true ->
  mFrameChangedCB e = true ->
  let N := getKeyFrameCount (mpPath e) in
  let a := mActiveFrame e in
  exists e' log,
    deleteFrame g e = Done tt e' log
    /\ (a < N - 1 ->
        mActiveFrame e' = a /\ activeFrame e' = getKeyFrame (mpPath e) (a + 1))
    /\ (a = N - 1 ->
        mActiveFrame e' = N - 2 /\ activeFrame e' = getKeyFrame (mpPath e) (N - 2))
    /\ mFrameTime e' = time (activeFrame e')
    /\ mActiveFrameRot e' = eulerCache (activeFrame e').
Proof.
  intros L K Hp [Hv H31] HN Hcb1 Hcb2 N a.
  pose proof (deleteFrame_prefix g e Hp (conj Hv H31) Hcb1) as Hrun.
  cbv zeta in Hrun.
  pose proof (remove_count L (mActiveFrame e) (mpPath e) Hv) as Hcount.
  fold N a in Hcount, Hrun.
  set (p' := removeKeyFrame a (mpPath e)) in *.
  assert (Hc : to_int32 (Z.min (sub_u32 (getKeyFrameCount p') 1) (to_uint32 a))
               = Z.min (N - 2) a).
  { rewrite Hcount. unfold a. rewrite clamp_on_nonempty by (fold N; lia).
    fold N. f_equal. lia. }
  rewrite Hc in Hrun.
  assert (Hpos : (0 <? getKeyFrameCount p') = true) by (apply Z.ltb_lt; lia).
  rewrite Hpos in Hrun.
  assert (Hm : 0 <= Z.min (N - 2) a < N - 1) by (unfold a, N in *; lia).
  rewrite (to_uint32_small (Z.min (N - 2) a)) in Hrun by lia.
  rewrite setActiveFrame_run in Hrun;
    [ | cbn [mpPath set_mpPath set_mActiveFrame]; lia | lia | exact Hcb2 ].
  do 2 eexists. split; [exact Hrun|].
  unfold activeFrame.
  cbn [mpPath mActiveFrame mFrameTime mActiveFrameRot set_mpPath set_mActiveFrame
         set_mFrameTime set_mActiveFrameRot].
  rewrite (to_int32_small (Z.min (N - 2) a)) by lia.
  repeat split.
  - lia.
  - rewrite Z.min_r by lia. unfold p'. apply (remove_later K); unfold a, N in *; lia.
  - lia.
  - rewrite Z.min_l by lia. unfold p'. apply (remove_earlier K); unfold a, N in *; lia.
Qed.

(** X13.  Each of the three buttons that change the set of key frames calls
    the path first and the count-changed callback after.  An editor that was
    given an empty count-changed callback therefore ends the frame in a bad
    function call with the path already changed, and selects nothing: the
    frame-changed callback is not reached. *)
Theorem count_callback_is_required (g : Gui) (e : PathEditor P) :
  selectionSound e ->
  mAddRemoveKeyframeCB e = false ->
  let n := getKeyFrameCount (mpPath e) in
  let a := mActiveFrame e in
  (button g "Add Frame" = true ->
   addFrame g e
   = Crash BadFunctionCall
       (Button "Add Frame" true
        :: (if n =? 0 then [] else [Path n (GetKeyFrame a)])
        ++ [Path n (AddKeyFrame (frameToAdd e))]))
  /\ (button g "Remove Frame" = true -> 0 < n ->
      deleteFrame g e
      = Crash BadFunctionCall [Button "Remove Frame" true; Path n (RemoveKeyFrame a)])
  /\ (button g "Update Current Frame Time" = true -> 0 < n ->
      updateFrameTime g e
      = Crash BadFunctionCall
          [Button "Update Current Frame Time" true; Path n (SetFrameTime a (mFrameTime e))]).
Proof.
  intros Hs Hcb n a.
  assert (Hinv : forall s : PathEditor P,
             mAddRemoveKeyframeCB s = false ->
             invoke AddRemoveKeyframeCB s = Crash BadFunctionCall []).
  { intros s Hs'. apply invoke_empty. exact Hs'. }
  unfold n, a. clear n a.
  split; [|split].
  - intros Hp. unfold addFrame, frameToAdd, activeFrame.
    destruct Hs as [Hz | [Hv H31]].
    + repeat (progress (run idtac; rewrite ?Hp, ?Hz;
                        change (0 <? 0) with false; change (0 =? 0) with true)).
      rewrite Hinv by exact Hcb. reflexivity.
    + assert (Hu : to_uint32 (mActiveFrame e) = mActiveFrame e)
        by (apply to_uint32_small; lia).
      assert (Hpos : (0 <? getKeyFrameCount (mpPath e)) = true) by (apply Z.ltb_lt; lia).
      assert (Hne : (getKeyFrameCount (mpPath e) =? 0) = false) by (apply Z.eqb_neq; lia).
      repeat (progress (run ltac:(rewrite ?Hu; exact Hv); rewrite ?Hp, ?Hpos, ?Hne, ?Hu)).
      rewrite Hinv by exact Hcb. reflexivity.
  - intros Hp Hn. destruct Hs as [Hz | [Hv H31]]; [lia|].
    assert (Hu : to_uint32 (mActiveFrame e) = mActiveFrame e)
      by (apply to_uint32_small; lia).
    assert (Hpos : (0 <? getKeyFrameCount (mpPath e)) = true) by (apply Z.ltb_lt; lia).
    unfold deleteFrame.
    repeat (progress (run ltac:(rewrite ?Hu; exact Hv); rewrite ?Hp, ?Hpos, ?Hu)).
    rewrite Hinv by exact Hcb. reflexivity.
  - intros Hp Hn. destruct Hs as [Hz | [Hv H31]]; [lia|].
    assert (Hu : to_uint32 (mActiveFrame e) = mActiveFrame e)
      by (apply to_uint32_small; lia).
    assert (Hne : (getKeyFrameCount (mpPath e) =? 0) = false) by (apply Z.eqb_neq; lia).
    unfold updateFrameTime.
    repeat (progress (run ltac:(rewrite ?Hu; exact Hv); rewrite ?Hp, ?Hne, ?Hu)).
    rewrite Hinv by exact Hcb. reflexivity.
Qed.

End Frames.

(* ===================================================================== *)
(** * What a run logs, whatever the state *)
(* ===================================================================== *)

Lemma log_of_prepend {S A : Type} (l : list Event) (o : Outcome S A) :
  log_of (prepend l o) = l ++ log_of o.
Proof. destruct o; reflexivity. Qed.

Lemma log_of_bind {S A B : Type} (m : M S A) (k : A -> M S B) (s : S) :
  log_of (bind m k s)
  = log_of (m s) ++ match m s with
                    | Done a s' _ => log_of (k a s')
                    | Crash _ _ => []
                    end.
Proof.
  unfold bind. destruct (m s) as [a s' l | err l]; cbn [log_of].
  - apply log_of_prepend.
  - symmetry. apply app_nil_r.
Qed.

Section Emits.
Context {S : Type} (Q : Event -> Prop).

Lemma emits_bind {A B : Type} (m : M S A) (k : A -> M S B) :
  emits Q m -> (forall a, emits Q (k a)) -> emits Q (bind m k).
Proof.
  intros Hm Hk s. rewrite log_of_bind. apply Forall_app. split; [apply Hm|].
  destruct (m s); [apply Hk | constructor].
Qed.

Lemma emits_ret {A : Type} (a : A) : emits Q (ret a : M S A).
Proof. intros s. constructor. Qed.

Lemma emits_gets {A : Type} (f : S -> A) : emits Q (gets f).
Proof. intros s. constructor. Qed.

Lemma emits_modify (f : S -> S) : emits Q (modify f).
Proof. intros s. constructor. Qed.

Lemma emits_crash {A : Type} (e : Error) : emits Q (crash e : M S A).
Proof. intros s. constructor. Qed.

Lemma emits_emit (ev : Event) : Q ev -> emits Q (emit ev : M S unit).
Proof. intros Hq s. constructor; [exact Hq | constructor]. Qed.

(** A widget, then what is done with its answer. *)
Lemma emits_answer {A B : Type} (ev : Event) (r : A) (k : A -> M S B) :
  Q ev -> emits Q (k r) -> emits Q (bind (bind (emit ev) (fun _ => ret r)) k).
Proof.
  intros Hq Hk s. unfold bind, emit, ret. cbn [prepend].
  rewrite log_of_prepend. constructor; [exact Hq|]. apply Hk.
Qed.

End Emits.

Lemma emits_path_call {P : Type} {OP : ObjectPath P} {A : Type} (Q : Event -> Prop)
    (c : PathCall) (run : P -> P * A) :
  (forall n, Q (Path n c)) -> emits Q (path_call c run).
Proof.
  intros Hq s. unfold path_call.
  destruct (match indexed c with Some i => _ | None => true end).
  - destruct (run (mpPath s)). constructor; [apply Hq | constructor].
  - constructor; [apply Hq | constructor].
Qed.

Lemma never_count (f : Event -> bool) (l : list Event) :
  Forall (never f) l -> List.length (List.filter f l) = 0%nat.
Proof.
  induction 1 as [| ev l Hev _ IH]; [reflexivity|].
  cbn [filter]. unfold never in Hev. rewrite Hev. exact IH.
Qed.

Lemma filter_length_app (f : Event -> bool) (l1 l2 : list Event) :
  List.length (List.filter f (l1 ++ l2))
  = (List.length (List.filter f l1) + List.length (List.filter f l2))%nat.
Proof. rewrite filter_app, length_app. reflexivity. Qed.

(** The footprint of a computation, by its structure: every event it can
    log is one the goal allows. *)
Ltac footprint :=
  repeat first
    [ apply emits_ret | apply emits_gets | apply emits_modify | apply emits_crash
    | apply emits_emit; reflexivity
    | apply emits_path_call; intros ?; reflexivity
    | apply emits_bind; [| intros ?; cbv beta]
    | match goal with
      | |- emits _ (if ?b then _ else _) => destruct b
      | |- emits _ (let (_, _) := ?x in _) => destruct x
      | |- emits _ (match ?x with _ => _ end) => destruct x
      end ].

Ltac unfold_editor :=
  unfold closeEditor, editPathName, editPathLoop, editActiveFrameID, addFrame, deleteFrame,
    editFrameTime, updateFrameTime, editKeyframeProperties, moveToCamera,
    commitPosition, commitRotation, setActiveFrame, updateActiveFrameRotationAngles, invoke,
    keyFrameCount, path_getKeyFrame, path_addKeyFrame, path_removeKeyFrame,
    path_setFramePosition, path_setFrameTarget, path_setFrameUp, path_setFrameTime,
    path_setName, path_setAnimationRepeat,
    pushWindow, popWindow, addSeparator, addTooltip, addButton, addCheckBox, addFloatVar,
    addFloat3Var, addIntVar, addTextBox.

Section Footprints.

Context {P : Type} {OP : ObjectPath P} {MO : MathOps}.

Lemma closes_bind {S A B : Type} (m : M S A) (k : A -> M S B) :
  emits (never is_pop) m -> (forall a, closes_window (k a)) -> closes_window (bind m k).
Proof.
  intros Hm Hk s. specialize (Hm s). apply never_count in Hm.
  unfold bind. destruct (m s) as [a s' l | err l]; cbn [log_of] in Hm.
  - specialize (Hk a s'). destruct (k a s') as [b s2 l2 | err l2]; cbn [prepend];
      unfold pops in *; rewrite filter_length_app, Hm; exact Hk.
  - exact Hm.
Qed.

Lemma closes_popWindow : closes_window (popWindow : Ed P unit).
Proof. intros s. reflexivity. Qed.

Lemma closeEditor_run (g : Gui) (e : PathEditor P) :
  closeEditor g e
  = Done (button g "Close Editor") e
      (Button "Close Editor" (button g "Close Editor")
       :: (if button g "Close Editor"
           then PopWindow :: (if mEditCompleteCB e then [Invoke EditCompleteCB] else [])
           else [])).
Proof.
  unfold closeEditor, popWindow. run idtac.
  destruct (button g "Close Editor"); [|reflexivity].
  run idtac. destruct (mEditCompleteCB e) eqn:Hcb.
  - run ltac:(exact Hcb). reflexivity.
  - run idtac. reflexivity.
Qed.

(** X14.  Every [render] opens the editor's window once, as the first thing
    it does.  A [render] that returns has closed it once, be it by "Close
    Editor" or at the end of the frame; a [render] that ends abnormally has
    not closed it.  This holds from every state and whatever the user
    does. *)
Theorem render_window_balance (g : Gui) (e : PathEditor P) :
  hd_error (log_of (render g e)) = Some (PushWindow "Path Editor" 350 400 440 400)
  /\ pushes (log_of (render g e)) = 1%nat
  /\ match render g e with
     | Done _ _ log => pops log = 1%nat
     | Crash _ log => pops log = 0%nat
     end.
Proof.
  split; [|split].
  - unfold render, pushWindow. rewrite log_of_bind. reflexivity.
  - unfold render at 1, pushWindow. rewrite log_of_bind. cbn [emit log_of].
    unfold pushes. rewrite filter_length_app.
    rewrite (never_count is_push (log_of _)); [reflexivity|].
    match goal with |- Forall _ (log_of (?m e)) => assert (Hm : emits (never is_push) m) end.
    { unfold_editor. footprint. }
    apply Hm.
  - unfold render, pushWindow. rewrite bind_unfold, emit_run. cbv beta iota.
    rewrite bind_unfold, closeEditor_run. cbv beta iota.
    destruct (button g "Close Editor").
    + destruct (mEditCompleteCB e); reflexivity.
    + match goal with
      | |- match prepend _ (prepend _ (?m e)) with _ => _ end =>
          assert (Hm : closes_window m)
      end.
      { unfold addSeparator.
        repeat (apply closes_bind; [unfold_editor; footprint | intros ?]).
        apply closes_popWindow. }
      specialize (Hm e).
      match goal with
      | |- match prepend _ (prepend _ ?o) with _ => _ end => destruct o
      end; exact Hm.
Qed.

(** X15.  The edit-complete callback is invoked by "Close Editor" and by
    nothing else: a [render] invokes it once when the button is pressed and
    the callback is not empty, and never otherwise, from every state and
    whatever else the user does. *)
Theorem completion_only_on_close (g : Gui) (e : PathEditor P) :
  invocations EditCompleteCB (log_of (render g e))
  = (if button g "Close Editor" && mEditCompleteCB e then 1 else 0)%nat.
Proof.
  destruct (button g "Close Editor") eqn:Hp.
  - rewrite (render_closing g e Hp). destruct (mEditCompleteCB e); reflexivity.
  - cbn [andb]. unfold render, pushWindow. rewrite bind_unfold, emit_run. cbv beta iota.
    rewrite bind_unfold, closeEditor_run, Hp. cbv beta iota.
    rewrite !log_of_prepend. unfold invocations. cbn [app filter is_invoke].
    apply never_count.
    match goal with |- Forall _ (log_of (?m e)) =>
      assert (Hm : emits (never (is_invoke EditCompleteCB)) m) end.
    { unfold_editor. footprint. }
    apply Hm.
Qed.

(** X16.  The set of key frames changes only at the press of a button.  In
    a frame in which none of "Add Frame", "Remove Frame" and "Update Current
    Frame Time" is pressed, the editor adds no key frame, removes none and
    re-times none, and it does not invoke the count-changed callback, from
    every state and whatever else the user does. *)
Theorem count_changes_need_a_button (g : Gui) (e : PathEditor P) :
  button g "Add Frame" = false ->
  button g "Remove Frame" = false ->
  button g "Update Current Frame Time" = false ->
  Forall (never changes_count) (log_of (render g e))
  /\ invocations AddRemoveKeyframeCB (log_of (render g e)) = 0%nat.
Proof.
  intros Hadd Hdel Hupd.
  assert (Hm : emits (never changes_count) (render g : Ed P unit)).
  { unfold render. unfold_editor. cbv zeta. rewrite Hadd, Hdel, Hupd.
    repeat first
      [ apply emits_answer; [reflexivity | cbv beta iota]
      | progress footprint ]. }
  split; [apply Hm|].
  apply never_count.
  eapply Forall_impl; [|apply Hm].
  intros [] Hev; try reflexivity.
  match goal with cb : Callback |- _ => destruct cb end;
    first [reflexivity | discriminate Hev].
Qed.

End Footprints.

(* ===================================================================== *)
(** * The pose editors under an invariant *)
(* ===================================================================== *)

(** The key-frame property editor and "Move Frame to Camera" name one key
    frame, the active one, and write three of its fields.  Whatever is kept
    by a read of that frame, by the three setters at its index, by the two
    members the property editor assigns and by the frame-changed callback is
    kept by the two editors. *)
Section Stable.

Context {P : Type} {OP : ObjectPath P} {MO : MathOps}.
Context (Q : Event -> Prop) (C : Error -> Prop) (I : PathEditor P -> Prop) (a : Z).

Hypothesis I_active : forall s, I s -> mActiveFrame s = a.
Hypothesis Q_widget : forall ev, is_widget ev = true -> Q ev.
Hypothesis I_rot : forall r s, I s -> I (set_mActiveFrameRot r s).
Hypothesis I_preserve : forall b s, I s -> I (set_mPreserveRotation b s).
Hypothesis I_get : keeps Q C I (path_getKeyFrame (to_uint32 a)) (fun _ s => I s).
Hypothesis I_position :
  forall v, keeps Q C I (path_setFramePosition (to_uint32 a) v) (fun _ s => I s).
Hypothesis I_target :
  forall v, keeps Q C I (path_setFrameTarget (to_uint32 a) v) (fun _ s => I s).
Hypothesis I_up :
  forall v, keeps Q C I (path_setFrameUp (to_uint32 a) v) (fun _ s => I s).
Hypothesis I_changed : keeps Q C I (invoke FrameChangedCB) (fun _ s => I s).

Lemma stable_widget {A : Type} (ev : Event) (r : A) :
  is_widget ev = true -> keeps Q C I (emit ev ;; ret r) (fun _ s => I s).
Proof.
  intros Hev s Hs. cbn. split; [|exact Hs].
  constructor; [apply Q_widget; exact Hev | constructor].
Qed.

Lemma stable_active {B : Type} (k : Z -> Ed P B) (Post : B -> PathEditor P -> Prop) :
  keeps Q C I (k a) Post -> keeps Q C I (bind (gets mActiveFrame) k) Post.
Proof. apply keeps_bind_gets_eq. exact I_active. Qed.

Lemma stable_read {A B : Type} (f : PathEditor P -> A) (k : A -> Ed P B)
    (Post : B -> PathEditor P -> Prop) :
  (forall x, keeps Q C I (k x) Post) -> keeps Q C I (bind (gets f) k) Post.
Proof.
  intros Hk. apply keeps_bind_gets. intros x.
  eapply keeps_pre; [intros s [Hs _]; exact Hs | apply Hk].
Qed.

Lemma stable_updateActiveFrameRotationAngles :
  keeps Q C I updateActiveFrameRotationAngles (fun _ s => I s).
Proof.
  unfold updateActiveFrameRotationAngles.
  apply stable_active.
  apply keeps_seq; [exact I_get|].
  intros keyframe. destruct (extractEulerAngleXYZ _) as [[t1 t2] t3].
  eapply keeps_pre; [|apply keeps_modify].
  intros s Hs. apply I_rot. exact Hs.
Qed.

Lemma stable_commitPosition (keyframe : Frame) (p : vec3) :
  keeps Q C I (commitPosition keyframe p) (fun _ s => I s).
Proof.
  unfold commitPosition.
  apply stable_active.
  apply stable_read. intros preserve.
  eapply keeps_bind with (Mid := fun _ s => I s).
  - destruct preserve.
    + apply keeps_seq; [apply I_target|]. intros _.
      apply keeps_skip. auto.
    + apply keeps_skip. auto.
  - intros rotationChanged.
    apply keeps_seq; [apply I_position|]. intros _.
    apply keeps_skip. auto.
Qed.

Lemma stable_commitRotation (p : vec3) :
  keeps Q C I (commitRotation p) (fun _ s => I s).
Proof.
  unfold commitRotation.
  apply stable_active.
  apply stable_read. intros rot.
  apply keeps_seq; [apply I_up|]. intros _.
  apply I_target.
Qed.

Lemma stable_editKeyframeProperties (g : Gui) :
  keeps Q C I (editKeyframeProperties g) (fun _ s => I s).
Proof.
  unfold editKeyframeProperties, keyFrameCount.
  apply stable_read. intros n.
  destruct (0 <? n); [|apply keeps_skip; auto].
  apply stable_active.
  apply keeps_seq; [exact I_get|]. intros keyframe.
  apply stable_read. intros preserve.
  apply keeps_seq; [apply stable_widget; reflexivity|]. intros [cc preserve'].
  apply (keeps_bind_modify _ _ _ _ _ I); [intros s Hs; apply I_preserve; exact Hs|].
  apply keeps_seq; [apply keeps_emit; apply Q_widget; reflexivity|]. intros _.
  apply keeps_seq; [apply stable_widget; reflexivity|]. intros [posChanged p].
  eapply keeps_bind with (Mid := fun _ s => I s).
  { destruct posChanged; [apply stable_commitPosition | apply keeps_skip; auto]. }
  intros rotationChanged1.
  apply keeps_seq; [apply stable_widget; reflexivity|]. intros [tgtChanged t].
  apply keeps_seq.
  { destruct tgtChanged; [apply I_target | apply keeps_skip; auto]. }
  intros _.
  apply keeps_seq; [apply stable_widget; reflexivity|]. intros [upChanged u].
  apply keeps_seq.
  { destruct upChanged; [apply I_up | apply keeps_skip; auto]. }
  intros _.
  apply keeps_seq.
  { destruct (rotationChanged1 || tgtChanged || upChanged);
      [apply stable_updateActiveFrameRotationAngles | apply keeps_skip; auto]. }
  intros _.
  apply stable_read. intros rot.
  apply keeps_seq; [apply stable_widget; reflexivity|]. intros [rotChanged rot'].
  apply (keeps_bind_modify _ _ _ _ _ I); [intros s Hs; apply I_rot; exact Hs|].
  apply keeps_seq.
  { destruct rotChanged; [apply stable_commitRotation | apply keeps_skip; auto]. }
  intros _.
  destruct (posChanged || tgtChanged || upChanged || rotChanged);
    [exact I_changed | apply keeps_skip; auto].
Qed.

Lemma stable_moveToCamera (g : Gui) :
  keeps Q C I (moveToCamera g) (fun _ s => I s).
Proof.
  unfold moveToCamera, keyFrameCount.
  apply stable_read. intros n.
  destruct (0 <? n); [|apply keeps_skip; auto].
  apply keeps_seq; [apply stable_widget; reflexivity|]. intros pressed.
  destruct pressed; [|apply keeps_skip; auto].
  apply stable_active.
  apply stable_read. intros cam.
  apply keeps_seq; [apply I_position|]. intros _.
  apply keeps_seq; [apply I_target|]. intros _.
  apply keeps_seq; [apply I_up|]. intros _.
  exact I_changed.
Qed.

End Stable.

Section PoseEditors.

Context {P : Type} {OP : ObjectPath P} {MO : MathOps}.

(** A call of the path that names key frame [i], under [sameSelection e]. *)
Lemma keeps_same_call {A : Type} (e : PathEditor P) (c : PathCall) (run : P -> P * A) :
  indexed c = Some (to_uint32 (mActiveFrame e)) ->
  (forall n, pose_event (Path n c)) ->
  (forall p, 0 <= to_uint32 (mActiveFrame e) < getKeyFrameCount p ->
     getKeyFrameCount (fst (run p)) = getKeyFrameCount p
     /\ time (getKeyFrame (fst (run p)) (to_uint32 (mActiveFrame e)))
        = time (getKeyFrame p (to_uint32 (mActiveFrame e)))) ->
  keeps pose_event (fun _ => True) (sameSelection e) (path_call c run)
    (fun _ s => sameSelection e s).
Proof.
  intros Hc Hq Hrun s (Hn & Ha & Ht & Hk). unfold path_call. rewrite Hc.
  destruct ((0 <=? _) && (_ <? _)) eqn:Hr.
  - apply andb_true_iff in Hr as [Hlo Hhi]. apply Z.leb_le in Hlo. apply Z.ltb_lt in Hhi.
    destruct (Hrun (mpPath s) (conj Hlo Hhi)) as [Hn' Hk'].
    destruct (run (mpPath s)) as [p' x]. cbn [fst] in *.
    split; [constructor; [apply Hq | constructor]|].
    unfold sameSelection. cbn [mpPath mActiveFrame mFrameTime set_mpPath].
    rewrite Ha in *. rewrite Hn', Hk'. auto.
  - split; [constructor; [apply Hq | constructor] | exact I].
Qed.

(** X17.  The key-frame property editor and "Move Frame to Camera" edit the
    pose of the active key frame and nothing else.  Whatever the user does,
    the only calls they make on the path are reads of a key frame and the
    three pose setters, and the only callback they invoke is the
    frame-changed one; when they return, the path has as many key frames as
    before, the editor has the same active index and the same staged time,
    and the active key frame has kept its time. *)
Theorem pose_editors_keep_selection (g : Gui) (e : PathEditor P) :
  PathLaws P ->
  (Forall pose_event (log_of (editKeyframeProperties g e))
   /\ forall e', state_of (editKeyframeProperties g e) = Some e' -> sameSelection e e')
  /\ (Forall pose_event (log_of (moveToCamera g e))
      /\ forall e', state_of (moveToCamera g e) = Some e' -> sameSelection e e').
Proof.
  intros L.
  assert (Hself : sameSelection e e) by (unfold sameSelection; auto).
  assert (Hget : keeps pose_event (fun _ => True) (sameSelection e)
                   (path_getKeyFrame (to_uint32 (mActiveFrame e)))
                   (fun _ s => sameSelection e s)).
  { apply keeps_same_call; [reflexivity | intros n; exact I |]. intros p _. auto. }
  assert (Hpos : forall v, keeps pose_event (fun _ => True) (sameSelection e)
                             (path_setFramePosition (to_uint32 (mActiveFrame e)) v)
                             (fun _ s => sameSelection e s)).
  { intros v. apply keeps_same_call; [reflexivity | intros n; exact I |]. intros p Hi.
    cbn [fst]. rewrite (setPosition_count L), (setPosition_frame L) by exact Hi. auto. }
  assert (Htgt : forall v, keeps pose_event (fun _ => True) (sameSelection e)
                             (path_setFrameTarget (to_uint32 (mActiveFrame e)) v)
                             (fun _ s => sameSelection e s)).
  { intros v. apply keeps_same_call; [reflexivity | intros n; exact I |]. intros p Hi.
    cbn [fst]. rewrite (setTarget_count L), (setTarget_frame L) by exact Hi. auto. }
  assert (Hup : forall v, keeps pose_event (fun _ => True) (sameSelection e)
                            (path_setFrameUp (to_uint32 (mActiveFrame e)) v)
                            (fun _ s => sameSelection e s)).
  { intros v. apply keeps_same_call; [reflexivity | intros n; exact I |]. intros p Hi.
    cbn [fst]. rewrite (setUp_count L), (setUp_frame L) by exact Hi. auto. }
  assert (Hcb : keeps pose_event (fun _ => True) (sameSelection e)
                  (invoke FrameChangedCB) (fun _ s => sameSelection e s)).
  { intros s Hs. unfold invoke, bind, gets. destruct (callback FrameChangedCB s); cbn.
    - split; [|exact Hs]. constructor; [reflexivity | constructor].
    - split; [constructor | exact I]. }
  assert (Hw : forall ev, is_widget ev = true -> pose_event ev).
  { intros []; cbn; intros; try exact I; discriminate. }
  split.
  - pose proof (stable_editKeyframeProperties pose_event (fun _ => True) (sameSelection e)
                  (mActiveFrame e) (fun s Hs => proj1 (proj2 Hs)) Hw
                  (fun r s Hs => Hs) (fun b s Hs => Hs) Hget Hpos Htgt Hup Hcb g e Hself) as Hk.
    destruct (editKeyframeProperties g e); cbn [log_of state_of].
    + destruct Hk as [Hl Hs]. split; [exact Hl|]. intros e' [= <-]. exact Hs.
    + destruct Hk as [Hl _]. split; [exact Hl|]. discriminate.
  - pose proof (stable_moveToCamera pose_event (fun _ => True) (sameSelection e)
                  (mActiveFrame e) (fun s Hs => proj1 (proj2 Hs)) Hw
                  Hpos Htgt Hup Hcb g e Hself) as Hk.
    destruct (moveToCamera g e); cbn [log_of state_of].
    + destruct Hk as [Hl Hs]. split; [exact Hl|]. intros e' [= <-]. exact Hs.
    + destruct Hk as [Hl _]. split; [exact Hl|]. discriminate.
Qed.

End PoseEditors.

(* ===================================================================== *)
(** * Frames in sequence: the selection stays sound *)
(* ===================================================================== *)

Ltac ready_side :=
  cbn [mpPath mActiveFrame mFrameChangedCB mAddRemoveKeyframeCB callback
       set_mpPath set_mActiveFrame set_mFrameTime set_mActiveFrameRot set_mPreserveRotation];
  repeat first [ rewrite to_int32_small by lia | rewrite to_uint32_small by lia ];
  first [ assumption | lia ].

Ltac in_range_log :=
  repeat first [ apply Forall_nil | apply Forall_cons | apply Forall_app; split ];
  cbn [in_range indexed mpPath mActiveFrame set_mpPath set_mActiveFrame set_mFrameTime
       set_mActiveFrameRot set_mPreserveRotation];
  first [ exact I | lia | assumption ].

Section Ready.

Context {P : Type} {OP : ObjectPath P} {MO : MathOps}.
Context (L : PathLaws P).

Lemma ready_closeEditor (g : Gui) (Pre : PathEditor P -> Prop) :
  keeps in_range noError Pre (closeEditor g) (fun _ s => Pre s).
Proof.
  intros s Hs. rewrite closeEditor_run. split; [|exact Hs].
  destruct (button g "Close Editor"); [destruct (mEditCompleteCB s)|]; in_range_log.
Qed.

Lemma ready_event (ev : Event) (Pre : PathEditor P -> Prop) :
  in_range ev -> keeps in_range noError Pre (emit ev) (fun _ s => Pre s).
Proof. apply keeps_emit. Qed.

Lemma ready_editPathName (g : Gui) (b : Z) :
  keeps in_range noError (ready b) (editPathName g) (fun _ s => ready b s).
Proof.
  intros s Hs. unfold editPathName. run idtac.
  destruct (textBox g _ _) as [[] t]; run idtac; (split; [in_range_log|]).
  - unfold ready in *. cbn [mpPath mActiveFrame mFrameChangedCB mAddRemoveKeyframeCB set_mpPath].
    rewrite (setName_count L). exact Hs.
  - exact Hs.
Qed.

Lemma ready_editPathLoop (g : Gui) (b : Z) :
  keeps in_range noError (ready b) (editPathLoop g) (fun _ s => ready b s).
Proof.
  intros s Hs. unfold editPathLoop. run idtac.
  destruct (checkBox g _ _) as [[] t]; run idtac; (split; [in_range_log|]).
  - unfold ready in *. cbn [mpPath mActiveFrame mFrameChangedCB mAddRemoveKeyframeCB set_mpPath].
    rewrite (setRepeat_count L). exact Hs.
  - exact Hs.
Qed.

Lemma ready_editActiveFrameID (g : Gui) (b : Z) :
  selector_in_range g -> b <= 2 ^ 31 ->
  keeps in_range noError (ready b) (editActiveFrameID g) (fun _ s => ready b s).
Proof.
  intros Hg Hb s (Hc1 & Hc2 & Hn & Hs). unfold editActiveFrameID. run idtac.
  destruct (Z.ltb_spec 0 (getKeyFrameCount (mpPath s))) as [Hpos | Hz].
  2:{ run idtac. split; [in_range_log|]. unfold ready, sound_upto. auto. }
  assert (Hhi : to_int32 (sub_u32 (getKeyFrameCount (mpPath s)) 1)
                = getKeyFrameCount (mpPath s) - 1).
  { unfold sub_u32. rewrite to_uint32_small by lia. apply to_int32_small. lia. }
  rewrite Hhi.
  assert (Hv : 0 <= snd (intVar g "Selected Frame" (mActiveFrame s) 0
                            (getKeyFrameCount (mpPath s) - 1))
               <= getKeyFrameCount (mpPath s) - 1) by (apply Hg; lia).
  run idtac.
  destruct (intVar g _ _ _ _) as [changed v]. cbn [snd] in Hv.
  assert (Hti : to_int32 v = v) by (apply to_int32_small; lia).
  assert (Htu : to_uint32 v = v) by (apply to_uint32_small; lia).
  run idtac. rewrite ?Hti, ?Htu. destruct changed.
  - run idtac. rewrite ?Hti, ?Htu.
    rewrite setActiveFrame_run by ready_side.
    cbn [prepend]. split; [in_range_log|].
    unfold ready, sound_upto.
    cbn [mpPath mActiveFrame mFrameChangedCB mAddRemoveKeyframeCB
           set_mActiveFrame set_mFrameTime set_mActiveFrameRot].
    rewrite ?Hti.
    repeat split; first [assumption | lia].
  - run idtac. split; [in_range_log|].
    unfold ready, sound_upto.
    cbn [mpPath mActiveFrame mFrameChangedCB mAddRemoveKeyframeCB set_mActiveFrame].
    repeat split; first [assumption | lia].
Qed.

Lemma ready_addFrame (g : Gui) (b : Z) :
  b < 2 ^ 31 ->
  keeps in_range noError (ready b) (addFrame g) (fun _ s => ready (b + 1) s).
Proof.
  intros Hb s (Hc1 & Hc2 & Hn & Hs). unfold addFrame. run idtac.
  destruct (button g "Add Frame").
  2:{ run idtac. split; [in_range_log|]. unfold ready, sound_upto.
      repeat split; first [assumption | lia]. }
  run idtac.
  destruct (Z.ltb_spec 0 (getKeyFrameCount (mpPath s))) as [Hpos | Hz].
  - assert (Hu : to_uint32 (mActiveFrame s) = mActiveFrame s)
      by (apply to_uint32_small; lia).
    repeat (progress (run ltac:(lia); rewrite ?Hu)).
    match goal with |- context [addKeyFrame ?t ?x ?y ?z (mpPath s)] =>
      pose proof (add_index L t x y z (mpPath s)) as Hi;
      pose proof (add_count_le L t x y z (mpPath s)) as Hle;
      set (r := addKeyFrame t x y z (mpPath s)) in *
    end.
    assert (Hti : to_int32 (snd r) = snd r) by (apply to_int32_small; lia).
    assert (Htu : to_uint32 (snd r) = snd r) by (apply to_uint32_small; lia).
    rewrite ?Hti, ?Htu. run ltac:(exact Hc2). rewrite ?Hti, ?Htu.
    rewrite setActiveFrame_run by ready_side.
    cbn [prepend]. split; [in_range_log|].
    unfold ready, sound_upto.
    cbn [mpPath mActiveFrame mFrameChangedCB mAddRemoveKeyframeCB
           set_mpPath set_mActiveFrame set_mFrameTime set_mActiveFrameRot].
    rewrite ?Hti.
    repeat split; first [assumption | lia].
  - run idtac.
    match goal with |- context [addKeyFrame ?t ?x ?y ?z (mpPath s)] =>
      pose proof (add_index L t x y z (mpPath s)) as Hi;
      pose proof (add_count_le L t x y z (mpPath s)) as Hle;
      set (r := addKeyFrame t x y z (mpPath s)) in *
    end.
    assert (Hti : to_int32 (snd r) = snd r) by (apply to_int32_small; lia).
    assert (Htu : to_uint32 (snd r) = snd r) by (apply to_uint32_small; lia).
    rewrite ?Hti, ?Htu. run ltac:(exact Hc2). rewrite ?Hti, ?Htu.
    rewrite setActiveFrame_run by ready_side.
    cbn [prepend]. split; [in_range_log|].
    unfold ready, sound_upto.
    cbn [mpPath mActiveFrame mFrameChangedCB mAddRemoveKeyframeCB
           set_mpPath set_mActiveFrame set_mFrameTime set_mActiveFrameRot].
    rewrite ?Hti.
    repeat split; first [assumption | lia].
Qed.

Lemma ready_deleteFrame (g : Gui) (b : Z) :
  b <= 2 ^ 31 ->
  keeps in_range noError (ready b) (deleteFrame g) (fun _ s => ready b s).
Proof.
  intros Hb s (Hc1 & Hc2 & Hn & Hs). unfold deleteFrame. run idtac.
  destruct (Z.ltb_spec 0 (getKeyFrameCount (mpPath s))) as [Hpos | Hz].
  2:{ run idtac. split; [in_range_log|]. unfold ready, sound_upto. auto. }
  run idtac. destruct (button g "Remove Frame").
  2:{ run idtac. split; [in_range_log|]. unfold ready, sound_upto. auto. }
  assert (Hu : to_uint32 (mActiveFrame s) = mActiveFrame s)
    by (apply to_uint32_small; lia).
  pose proof (remove_count L (mActiveFrame s) (mpPath s) ltac:(lia)) as Hcount.
  repeat (progress (run ltac:(first [lia | exact Hc2]); rewrite ?Hu, ?Hcount)).
  destruct (Z.ltb_spec 0 (getKeyFrameCount (mpPath s) - 1)) as [Hleft | Hnone].
  - assert (Hsub : sub_u32 (getKeyFrameCount (mpPath s) - 1) 1
                   = getKeyFrameCount (mpPath s) - 1 - 1)
      by (unfold sub_u32; apply to_uint32_small; lia).
    rewrite Hsub.
    assert (Hm : 0 <= Z.min (getKeyFrameCount (mpPath s) - 1 - 1) (mActiveFrame s)
                 < getKeyFrameCount (mpPath s) - 1) by lia.
    set (c := Z.min (getKeyFrameCount (mpPath s) - 1 - 1) (mActiveFrame s)) in *.
    assert (Hti : to_int32 c = c) by (apply to_int32_small; lia).
    rewrite ?Hti.
    assert (Htu : to_uint32 c = c) by (apply to_uint32_small; lia).
    run idtac. rewrite ?Htu.
    rewrite setActiveFrame_run by (ready_side; rewrite Hcount; lia).
    cbn [prepend]. split; [in_range_log; rewrite ?Hcount; lia|].
    unfold ready, sound_upto.
    cbn [mpPath mActiveFrame mFrameChangedCB mAddRemoveKeyframeCB
           set_mpPath set_mActiveFrame set_mFrameTime set_mActiveFrameRot].
    rewrite ?Hti, Hcount.
    repeat split; first [assumption | lia].
  - run idtac. split; [in_range_log|].
    unfold ready, sound_upto.
    cbn [mpPath mActiveFrame mFrameChangedCB mAddRemoveKeyframeCB
           set_mpPath set_mActiveFrame].
    rewrite Hcount.
    repeat split; first [assumption | lia].
Qed.

Lemma ready_editFrameTime (g : Gui) (b : Z) :
  keeps in_range noError (ready b) (editFrameTime g) (fun _ s => ready b s).
Proof.
  intros s Hs. unfold editFrameTime. run idtac.
  destruct (floatVar g _ _ _ _) as [c t]. run idtac.
  split; [in_range_log | exact Hs].
Qed.

Lemma ready_updateFrameTime (g : Gui) (b : Z) :
  b <= 2 ^ 31 ->
  keeps in_range noError (ready b) (updateFrameTime g) (fun _ s => ready b s).
Proof.
  intros Hb s (Hc1 & Hc2 & Hn & Hs). unfold updateFrameTime. run idtac.
  destruct (Z.eqb_spec (getKeyFrameCount (mpPath s)) 0) as [Hz | Hne].
  { run idtac. split; [in_range_log|]. unfold ready, sound_upto. auto. }
  run idtac. destruct (button g "Update Current Frame Time").
  2:{ run idtac. split; [in_range_log|]. unfold ready, sound_upto. auto. }
  assert (Hu : to_uint32 (mActiveFrame s) = mActiveFrame s)
    by (apply to_uint32_small; lia).
  pose proof (setTime_index L (mActiveFrame s) (mFrameTime s) (mpPath s) ltac:(lia)) as Hi.
  pose proof (setTime_count_le L (mActiveFrame s) (mFrameTime s) (mpPath s) ltac:(lia)) as Hle.
  set (r := setFrameTime (mActiveFrame s) (mFrameTime s) (mpPath s)) in *.
  assert (Hti : to_int32 (snd r) = snd r) by (apply to_int32_small; lia).
  assert (Htu : to_uint32 (snd r) = snd r) by (apply to_uint32_small; lia).
  repeat (progress (run ltac:(first [lia | exact Hc2]); fold r; rewrite ?Hu, ?Hti, ?Htu)).
  rewrite setActiveFrame_run by ready_side.
  cbn [prepend]. split; [in_range_log|].
  unfold ready, sound_upto.
  cbn [mpPath mActiveFrame mFrameChangedCB mAddRemoveKeyframeCB
         set_mpPath set_mActiveFrame set_mFrameTime set_mActiveFrameRot].
  rewrite ?Hti.
  repeat split; first [assumption | lia].
Qed.

(** A call that names the active key frame and keeps the count. *)
Lemma ready_frame_call {A : Type} (b n a : Z) (c : PathCall) (run : P -> P * A) :
  0 <= a < n -> n <= 2 ^ 31 ->
  indexed c = Some (to_uint32 a) ->
  (forall p, getKeyFrameCount (fst (run p)) = getKeyFrameCount p) ->
  keeps in_range noError
    (fun s => ready b s /\ count_of s = n /\ mActiveFrame s = a)
    (path_call c run)
    (fun _ s => ready b s /\ count_of s = n /\ mActiveFrame s = a).
Proof.
  intros Ha Hn Hc Hrun s (Hr & Hcount & Hact). unfold count_of in *.
  assert (Hu : to_uint32 a = a) by (apply to_uint32_small; lia).
  rewrite Hu in Hc.
  rewrite (path_call_in_range c run s a Hc) by lia.
  specialize (Hrun (mpPath s)).
  split.
  - constructor; [|constructor]. cbn [in_range]. rewrite Hc. lia.
  - unfold ready in *.
    cbn [mpPath mActiveFrame mFrameChangedCB mAddRemoveKeyframeCB set_mpPath].
    rewrite Hrun. auto.
Qed.

Lemma ready_pose_editors (g : Gui) (b : Z) :
  b <= 2 ^ 31 ->
  keeps in_range noError (ready b) (editKeyframeProperties g) (fun _ s => ready b s)
  /\ keeps in_range noError (ready b) (moveToCamera g) (fun _ s => ready b s).
Proof.
  intros Hb.
  assert (Hempty : forall s : PathEditor P, getKeyFrameCount (mpPath s) = 0 ->
            editKeyframeProperties g s = Done tt s []
            /\ moveToCamera g s = Done tt s []).
  { intros s Hz. unfold editKeyframeProperties, moveToCamera.
    rewrite !bind_unfold, !keyFrameCount_run, Hz. split; reflexivity. }
  assert (Hstable : forall n a, 0 <= a < n -> n <= 2 ^ 31 ->
            forall m : Ed P unit,
            (forall I : PathEditor P -> Prop,
               (forall s, I s -> mActiveFrame s = a) ->
               (forall r s, I s -> I (set_mActiveFrameRot r s)) ->
               (forall x s, I s -> I (set_mPreserveRotation x s)) ->
               keeps in_range noError I (path_getKeyFrame (to_uint32 a)) (fun _ s => I s) ->
               (forall v, keeps in_range noError I (path_setFramePosition (to_uint32 a) v)
                            (fun _ s => I s)) ->
               (forall v, keeps in_range noError I (path_setFrameTarget (to_uint32 a) v)
                            (fun _ s => I s)) ->
               (forall v, keeps in_range noError I (path_setFrameUp (to_uint32 a) v)
                            (fun _ s => I s)) ->
               keeps in_range noError I (invoke FrameChangedCB) (fun _ s => I s) ->
               keeps in_range noError I m (fun _ s => I s)) ->
            keeps in_range noError
              (fun s => ready b s /\ count_of s = n /\ mActiveFrame s = a) m
              (fun _ s => ready b s)).
  { intros n a Ha Hn m Hm.
    apply (keeps_post _ _ _
             (fun _ s => ready b s /\ count_of s = n /\ mActiveFrame s = a)).
    { intros x s Hs. exact (proj1 Hs). }
    apply (Hm (fun s => ready b s /\ count_of s = n /\ mActiveFrame s = a)).
    - intros s Hs. exact (proj2 (proj2 Hs)).
    - intros r s Hs. exact Hs.
    - intros x s Hs. exact Hs.
    - apply ready_frame_call; [exact Ha | exact Hn | reflexivity | reflexivity].
    - intros v. apply ready_frame_call; [exact Ha | exact Hn | reflexivity |].
      intros p. apply (setPosition_count L).
    - intros v. apply ready_frame_call; [exact Ha | exact Hn | reflexivity |].
      intros p. apply (setTarget_count L).
    - intros v. apply ready_frame_call; [exact Ha | exact Hn | reflexivity |].
      intros p. apply (setUp_count L).
    - intros s Hs. rewrite invoke_present by exact (proj1 (proj1 Hs)).
      split; [in_range_log | exact Hs]. }
  assert (Hw : forall ev, is_widget ev = true -> in_range ev).
  { intros []; cbn; intros; try exact I; discriminate. }
  split; intros s Hs.
  - destruct Hs as (Hc1 & Hc2 & Hn & [Hz | Ha]).
    + destruct (Hempty s Hz) as [-> _]. split; [constructor|].
      unfold ready, sound_upto. auto.
    + apply (Hstable (getKeyFrameCount (mpPath s)) (mActiveFrame s) Ha ltac:(lia)).
      * intros I H1 H2 H3 H4 H5 H6 H7 H8.
        apply (stable_editKeyframeProperties in_range noError I (mActiveFrame s));
          assumption.
      * unfold ready, sound_upto, count_of. auto 10.
  - destruct Hs as (Hc1 & Hc2 & Hn & [Hz | Ha]).
    + destruct (Hempty s Hz) as [_ ->]. split; [constructor|].
      unfold ready, sound_upto. auto.
    + apply (Hstable (getKeyFrameCount (mpPath s)) (mActiveFrame s) Ha ltac:(lia)).
      * intros I H1 H2 H3 H4 H5 H6 H7 H8.
        apply (stable_moveToCamera in_range noError I (mActiveFrame s)); assumption.
      * unfold ready, sound_upto, count_of. auto 10.
Qed.

Lemma ready_weaken (b b' : Z) (s : PathEditor P) : b <= b' -> ready b s -> ready b' s.
Proof.
  unfold ready, sound_upto. intros Hb (Hc1 & Hc2 & Hn & Hs).
  repeat split; first [assumption | lia].
Qed.

(** One frame, from a sound selection. *)
Lemma ready_render (g : Gui) (b : Z) :
  selector_in_range g -> b < 2 ^ 31 ->
  keeps in_range noError (ready b) (render g) (fun _ s => ready (b + 1) s).
Proof.
  intros Hg Hb.
  destruct (ready_pose_editors g (b + 1) ltac:(lia)) as [Hprop Hmove].
  unfold render, pushWindow, popWindow, addSeparator.
  apply keeps_seq; [apply ready_event; exact I|]. intros _.
  apply keeps_seq; [apply ready_closeEditor|]. intros closed.
  destruct closed.
  { apply keeps_skip. intros s Hs. apply (ready_weaken b); [lia | exact Hs]. }
  apply keeps_seq; [apply ready_event; exact I|]. intros _.
  apply keeps_seq; [apply ready_editPathName|]. intros _.
  apply keeps_seq; [apply ready_editPathLoop|]. intros _.
  apply keeps_seq; [apply ready_editActiveFrameID; [exact Hg | lia]|]. intros _.
  eapply keeps_bind; [apply ready_addFrame; exact Hb|]. intros x. cbv beta. clear x.
  apply keeps_seq; [apply ready_deleteFrame; lia|]. intros _.
  apply keeps_seq; [apply ready_event; exact I|]. intros _.
  apply keeps_seq; [apply ready_editFrameTime|]. intros _.
  apply keeps_seq; [apply ready_updateFrameTime; lia|]. intros _.
  apply keeps_seq; [apply ready_event; exact I|]. intros _.
  apply keeps_seq; [exact Hprop|]. intros _.
  apply keeps_seq; [exact Hmove|]. intros _.
  apply ready_event. exact I.
Qed.

(** X18.  A sound selection stays sound.  Let the editor have its
    frame-changed and count-changed callbacks, let its selection be sound
    (the path is empty, or the active index names a key frame), and let the
    frame selector answer within the range it is given.  Then every frame of
    a session returns, whatever the user does: no call on the path names a
    key frame that does not exist, and after the session the selection is
    sound again.  Each frame adds at most one key frame. *)
Theorem session_keeps_selection (gs : list Gui) (e : PathEditor P) :
  Forall selector_in_range gs ->
  mFrameChangedCB e = true ->
  mAddRemoveKeyframeCB e = true ->
  selectionSound e ->
  getKeyFrameCount (mpPath e) + Z.of_nat (List.length gs) <= 2 ^ 31 ->
  exists e' log,
    renders gs e = Done tt e' log
    /\ Forall in_range log
    /\ selectionSound e'
    /\ getKeyFrameCount (mpPath e') <= getKeyFrameCount (mpPath e) + Z.of_nat (List.length gs).
Proof.
  intros Hgs Hc1 Hc2 Hs Hb.
  assert (Hr : ready (getKeyFrameCount (mpPath e)) e).
  { unfold ready, sound_upto. pose proof (count_nonneg L (mpPath e)).
    repeat split; try assumption; try lia.
    destruct Hs as [Hz | [Hv _]]; [left; exact Hz | right; exact Hv]. }
  assert (Hall : forall b (s : PathEditor P),
            Forall selector_in_range gs -> ready b s ->
            b + Z.of_nat (List.length gs) <= 2 ^ 31 ->
            exists s' log,
              renders gs s = Done tt s' log /\ Forall in_range log
              /\ ready (b + Z.of_nat (List.length gs)) s').
  { clear Hgs Hc1 Hc2 Hs Hb Hr e. induction gs as [| g gs IH]; intros b s Hgs Hr Hb.
    - exists s, []. cbn. rewrite Z.add_0_r. auto.
    - inversion Hgs as [| g' gs' Hg Hgs']; subst.
      cbn [List.length] in Hb.
      pose proof (ready_render g b Hg ltac:(lia) s Hr) as Hk.
      cbn [renders]. rewrite bind_unfold.
      destruct (render g s) as [[] s1 l1 | err l1]; [|destruct Hk as [_ []]].
      destruct Hk as [Hl1 Hr1].
      destruct (IH (b + 1) s1 Hgs' Hr1 ltac:(lia)) as (s2 & l2 & Hrun & Hl2 & Hr2).
      rewrite Hrun. cbn [prepend].
      exists s2, (l1 ++ l2). split; [reflexivity|]. split.
      + apply Forall_app. auto.
      + replace (b + Z.of_nat (List.length (g :: gs)))
          with (b + 1 + Z.of_nat (List.length gs)) by (cbn [List.length]; lia).
        exact Hr2. }
  destruct (Hall _ e Hgs Hr Hb) as (e' & log & Hrun & Hl & (_ & _ & Hn & Hsel)).
  exists e', log. repeat split; try assumption; try lia.
  destruct Hsel as [Hz | Hv]; [left; exact Hz | right]. split; [exact Hv | lia].
Qed.

End Ready.

(* ===================================================================== *)
(** * The list path obeys the laws *)
(* ===================================================================== *)

Lemma insert_by_time_spec (f : Frame) (l : list Frame) :
  List.length (fst (insert_by_time f l)) = S (List.length l)
  /\ 0 <= snd (insert_by_time f l) <= Z.of_nat (List.length l)
  /\ nth (Z.to_nat (snd (insert_by_time f l))) (fst (insert_by_time f l)) default_frame = f.
Proof.
  induction l as [| g l IH]; cbn [insert_by_time].
  - cbn. repeat split; lia.
  - destruct (F32.ltb (time f) (time g)).
    + cbn. repeat split; lia.
    + destruct (insert_by_time f l) as [r i]. cbn [fst snd] in *.
      destruct IH as [Hlen [Hi Hnth]].
      cbn [List.length]. repeat split; try lia.
      replace (Z.to_nat (i + 1)) with (S (Z.to_nat i)) by lia.
      cbn [nth]. exact Hnth.
Qed.

Lemma remove_at_length (i : nat) (l : list Frame) :
  (i < List.length l)%nat -> List.length (remove_at i l) = (List.length l - 1)%nat.
Proof.
  intros Hi. unfold remove_at.
  rewrite length_app, length_firstn, length_skipn. lia.
Qed.

Lemma update_at_length (i : nat) (h : Frame -> Frame) (l : list Frame) :
  List.length (update_at i h l) = List.length l.
Proof.
  revert i. induction l as [| f l IH]; intros [| i]; cbn; try reflexivity.
  rewrite IH. reflexivity.
Qed.

Lemma update_at_nth (i : nat) (h : Frame -> Frame) (l : list Frame) :
  (i < List.length l)%nat ->
  nth i (update_at i h l) default_frame = h (nth i l default_frame).
Proof.
  revert i. induction l as [| f l IH]; intros [| i] Hi; cbn in *; try lia.
  - reflexivity.
  - apply IH. lia.
Qed.

Lemma ListPath_laws : PathLaws ListPath.
Proof.
  constructor; cbn [getKeyFrameCount getKeyFrame addKeyFrame removeKeyFrame setName
                      setAnimationRepeat setFramePosition setFrameTarget setFrameUp
                      setFrameTime ListPath_ObjectPath].
  - intros p. lia.
  - reflexivity.
  - reflexivity.
  - intros t a b c p. unfold lp_add.
    pose proof (insert_by_time_spec (mkFrame a b c t) (lp_frames p)) as [Hlen [Hi _]].
    destruct (insert_by_time _ _) as [r i]. cbn [fst snd lp_frames lp_with_frames] in *. lia.
  - intros t a b c p. unfold lp_add, lp_get.
    pose proof (insert_by_time_spec (mkFrame a b c t) (lp_frames p)) as [_ [_ Hnth]].
    destruct (insert_by_time _ _) as [r i]. cbn [fst snd lp_frames lp_with_frames] in *.
    exact Hnth.
  - intros t a b c p. unfold lp_add.
    pose proof (insert_by_time_spec (mkFrame a b c t) (lp_frames p)) as [Hlen _].
    destruct (insert_by_time _ _) as [r i]. cbn [fst snd lp_frames lp_with_frames] in *. lia.
  - intros i p Hi. unfold lp_remove. cbn [lp_frames lp_with_frames].
    rewrite remove_at_length by lia. lia.
  - intros i v p. unfold lp_update. cbn [lp_frames lp_with_frames].
    rewrite update_at_length. reflexivity.
  - intros i v p. unfold lp_update. cbn [lp_frames lp_with_frames].
    rewrite update_at_length. reflexivity.
  - intros i v p. unfold lp_update. cbn [lp_frames lp_with_frames].
    rewrite update_at_length. reflexivity.
  - intros i v p Hi. unfold lp_update, lp_get. cbn [lp_frames lp_with_frames].
    apply update_at_nth. lia.
  - intros i v p Hi. unfold lp_update, lp_get. cbn [lp_frames lp_with_frames].
    apply update_at_nth. lia.
  - intros i v p Hi. unfold lp_update, lp_get. cbn [lp_frames lp_with_frames].
    apply update_at_nth. lia.
  - intros i t p Hi. unfold lp_setFrameTime, lp_add.
    set (f := mkFrame _ _ _ t).
    pose proof (insert_by_time_spec f (lp_frames (lp_remove i p))) as [Hlen [Hj _]].
    destruct (insert_by_time _ _) as [r j]. cbn [fst snd lp_frames lp_with_frames] in *. lia.
  - intros i t p Hi. unfold lp_setFrameTime, lp_add.
    set (f := mkFrame _ _ _ t).
    pose proof (insert_by_time_spec f (lp_frames (lp_remove i p))) as [Hlen _].
    destruct (insert_by_time _ _) as [r j]. cbn [fst snd lp_frames lp_with_frames] in *.
    unfold lp_remove in Hlen. cbn [lp_frames lp_with_frames] in Hlen.
    rewrite remove_at_length in Hlen by lia. lia.
Qed.

Lemma remove_at_nth_later (i j : nat) (l : list Frame) :
  (i <= j)%nat -> nth j (remove_at i l) default_frame = nth (S j) l default_frame.
Proof.
  revert j l. induction i as [| i IH]; intros j l Hij.
  - destruct l as [| f l]; [destruct j; reflexivity | reflexivity].
  - destruct l as [| f l]; [destruct j; reflexivity|].
    destruct j as [| j]; [lia|].
    change (remove_at (S i) (f :: l)) with (f :: remove_at i l).
    cbn [nth]. apply IH. lia.
Qed.

Lemma remove_at_nth_earlier (i j : nat) (l : list Frame) :
  (j < i)%nat -> nth j (remove_at i l) default_frame = nth j l default_frame.
Proof.
  revert j l. induction i as [| i IH]; intros j l Hji; [lia|].
  destruct l as [| f l]; [destruct j; reflexivity|].
  change (remove_at (S i) (f :: l)) with (f :: remove_at i l).
  destruct j as [| j]; [reflexivity|].
  cbn [nth]. apply IH. lia.
Qed.

Lemma ListPath_contents : PathContents ListPath.
Proof.
  constructor; cbn [getKeyFrameCount getKeyFrame removeKeyFrame setName getName
                      isRepeatOn setAnimationRepeat setFrameTime ListPath_ObjectPath].
  - intros i t p Hi. unfold lp_setFrameTime, lp_add.
    set (f := lp_get p i).
    pose proof (insert_by_time_spec (mkFrame (position f) (target f) (up f) t)
                  (lp_frames (lp_remove i p))) as [_ [_ Hnth]].
    destruct (insert_by_time _ _) as [r j]. cbn [fst snd lp_frames lp_with_frames] in *.
    unfold lp_get at 1. cbn [lp_frames lp_with_frames]. exact Hnth.
  - intros i j p Hij Hj. unfold lp_remove, lp_get. cbn [lp_frames lp_with_frames].
    rewrite remove_at_nth_later by lia.
    f_equal. lia.
  - intros i j p Hji Hi. unfold lp_remove, lp_get. cbn [lp_frames lp_with_frames].
    apply remove_at_nth_earlier. lia.
  - reflexivity.
  - reflexivity.
Qed.

(* ===================================================================== *)
(** * The theorems at work on the list path *)
(* ===================================================================== *)

#[local] Existing Instance plainMath.

(** Selecting frame 1 of two. *)
Lemma setActiveFrame_effects_witness :
  exists e',
    setActiveFrame 1 (editorOn [frame0; frame1] 0 F32.zero)
    = Done tt e' [Path 2 (GetKeyFrame 1); Path 2 (GetKeyFrame 1); Invoke FrameChangedCB]
    /\ mActiveFrame e' = 1
    /\ mFrameTime e' = F32.of_Z 2.
Proof.
  destruct (setActiveFrame_effects (editorOn [frame0; frame1] 0 F32.zero) 1)
    as [e' [Hrun [_ [_ [Ha [Ht _]]]]]].
  - cbn. lia.
  - cbn. lia.
  - reflexivity.
  - exists e'. repeat split; try assumption. apply Ha. lia.
Defined.

(** The scenario of the design document: one frame at time 0, "Add Frame"
    with the staged time 5.  The path then holds two frames, the new one
    copies the pose of the old, has time 5 and is the active one, at index
    1; the count-changed callback fired once. *)
Lemma addFrame_adds_and_selects_witness :
  exists e' log,
    addFrame (pressing "Add Frame" idleGui) (editorOn [frame0] 0 (F32.of_Z 5))
    = Done tt e' log
    /\ getKeyFrameCount (mpPath e') = 2
    /\ mActiveFrame e' = 1
    /\ activeFrame e' = with_time (F32.of_Z 5) frame0
    /\ invocations AddRemoveKeyframeCB log = 1%nat.
Proof.
  destruct (addFrame_adds_and_selects (pressing "Add Frame" idleGui)
              (editorOn [frame0] 0 (F32.of_Z 5)))
    as [e' [Hrun [_ [_ [Hp [Ha [Hf _]]]]]]].
  - exact ListPath_laws.
  - reflexivity.
  - right. unfold activeValid. cbn. lia.
  - cbn. lia.
  - reflexivity.
  - reflexivity.
  - exists e'. eexists. split; [exact Hrun|].
    rewrite Hp. unfold activeFrame in *. rewrite Ha, Hp in *.
    repeat split; try assumption; reflexivity.
Defined.

(** Moving a frame with "Preserve Rotation" set to a position with a large
    integer, a fraction and a power of two among its components: the sums are
    exact, position and target move together. *)
Lemma position_edit_preserving_rotation_witness :
  exists e' log,
    editKeyframeProperties (editing3 "Position" mixedPosition idleGui)
      (preservingEditorOn [frame1] 0 F32.zero)
    = Done tt e' log
    /\ position (activeFrame e') = mixedPosition
    /\ vsub (target (activeFrame e')) (position (activeFrame e'))
       = vsub (target frame1) (position frame1)
    /\ vsub (target frame1) (position frame1) = vec3_of_Z 0 0 1.
Proof.
  destruct (position_edit_preserving_rotation
              (editing3 "Position" mixedPosition idleGui)
              (preservingEditorOn [frame1] 0 F32.zero) mixedPosition)
    as [[e' [l1 [l2 [Hrun [_ Hrest]]]]] [_ Hexact]].
  - exact ListPath_laws.
  - unfold activeValid. cbn. lia.
  - reflexivity.
  - reflexivity.
  - reflexivity.
  - destruct Hrest as [Hf _]; try reflexivity.
    destruct Hexact as [_ Hsame]; [vm_compute; reflexivity|].
    exists e'. eexists. split; [exact Hrun|].
    rewrite Hf. cbn [position target].
    split; [reflexivity|]. split; [|reflexivity].
    apply Hsame. vm_compute. repeat split.
Defined.

(** Removing the last of three frames selects the new last one. *)
Lemma deleteFrame_clamps_witness :
  exists e' log,
    deleteFrame (pressing "Remove Frame" idleGui) (editorOn [frame0; frame1; frame2] 2 F32.zero)
    = Done tt e' log
    /\ getKeyFrameCount (mpPath e') = 2
    /\ mActiveFrame e' = 1.
Proof.
  destruct (deleteFrame_clamps (pressing "Remove Frame" idleGui)
              (editorOn [frame0; frame1; frame2] 2 F32.zero))
    as [e' [Hrun [Hp [Hn [_ [_ Hlast]]]]]].
  - exact ListPath_laws.
  - reflexivity.
  - unfold activeValid. cbn. lia.
  - cbn. lia.
  - reflexivity.
  - reflexivity.
  - exists e'. eexists. split; [exact Hrun|].
    rewrite Hp. split; [exact Hn|].
    apply Hlast; cbn; lia.
Defined.

(** Removing the only frame. *)
Lemma deleteFrame_only_frame_witness :
  exists e',
    deleteFrame (pressing "Remove Frame" idleGui) (editorOn [frame0] 0 (F32.of_Z 7))
    = Done tt e'
        [Button "Remove Frame" true; Path 1 (RemoveKeyFrame 0); Invoke AddRemoveKeyframeCB]
    /\ getKeyFrameCount (mpPath e') = 0
    /\ mActiveFrame e' = 0
    /\ mFrameTime e' = F32.of_Z 7.
Proof.
  destruct (deleteFrame_only_frame (pressing "Remove Frame" idleGui)
              (editorOn [frame0] 0 (F32.of_Z 7)))
    as [Hn [_ [_ [Hrun [Ha [Ht _]]]]]].
  - exact ListPath_laws.
  - reflexivity.
  - reflexivity.
  - unfold activeValid. cbn. lia.
  - reflexivity.
  - eexists. split; [exact Hrun|].
    repeat split; assumption.
Defined.


(** Closing an editor that was given all three callbacks. *)
Lemma render_close_witness :
  exists log,
    render (pressing "Close Editor" idleGui) (editorOn [frame0] 0 F32.zero)
    = Done tt (editorOn [frame0] 0 F32.zero) log
    /\ invocations EditCompleteCB log = 1%nat
    /\ filter is_widget log = [Button "Close Editor" true].
Proof.
  destruct (render_close (pressing "Close Editor" idleGui) (editorOn [frame0] 0 F32.zero))
    as [log [Hrun [_ [Hinv [Hw _]]]]].
  - reflexivity.
  - exists log. repeat split; assumption.
Defined.

(** Editing the target of the only frame: one notification. *)
Lemma editKeyframeProperties_notifies_once_witness :
  exists e' log,
    editKeyframeProperties (editing3 "Target" (vec3_of_Z 0 1 1) idleGui)
      (editorOn [frame0] 0 F32.zero)
    = Done tt e' log
    /\ float3_answers log
       = [("Position", false); ("Target", true); ("Up", false); ("Rotation", false)]
    /\ invocations FrameChangedCB log = 1%nat.
Proof.
  destruct (editKeyframeProperties_notifies_once
              (editing3 "Target" (vec3_of_Z 0 1 1) idleGui) (editorOn [frame0] 0 F32.zero))
    as [e' [log [Hrun [_ [Hans [Hinv _]]]]]].
  - exact ListPath_laws.
  - unfold activeValid. cbn. lia.
  - reflexivity.
  - exists e', log. split; [exact Hrun|]. split; [exact Hans | exact Hinv].
Defined.

(** A frame on the empty path in which the user presses "Add Frame" and
    "Remove Frame" and edits the position. *)
Lemma render_guards_frame_access_witness :
  Forall guarded
    (log_of (render (pressing "Add Frame" (pressing "Remove Frame"
                       (editing3 "Position" (vec3_of_Z 1 1 1) idleGui)))
               (editorOn [] 0 F32.zero)))
  /\ Forall in_range
       (log_of (render (pressing "Add Frame" (pressing "Remove Frame"
                          (editing3 "Position" (vec3_of_Z 1 1 1) idleGui)))
                  (editorOn [] 0 F32.zero))).
Proof.
  destruct (render_guards_frame_access
              (pressing "Add Frame" (pressing "Remove Frame"
                 (editing3 "Position" (vec3_of_Z 1 1 1) idleGui)))
              (editorOn [] 0 F32.zero))
    as [_ [Hg Hr]].
  - exact ListPath_laws.
  - split; [exact Hg|]. apply Hr. reflexivity.
Defined.

(** C3, refuted at a frame at the origin that looks down the z axis and is
    moved, with "Preserve Rotation" checked, to z = 2^24.  In single
    precision 2^24 + 1 rounds to 2^24: the editor commits a target equal to
    the position, and the look direction (0,0,1) becomes (0,0,0). *)
Lemma position_edit_loses_direction :
  let e := preservingEditorOn [frame0] 0 F32.zero in
  let g := editing3 "Position" farPosition idleGui in
  mPreserveRotation e = true
  /\ float3Var g "Position" (position (activeFrame e)) (F32.opp F32.FLT_MAX) F32.FLT_MAX
     = (true, farPosition)
  /\ exists e' log,
       editKeyframeProperties g e = Done tt e' log
       /\ position (activeFrame e') = farPosition
       /\ target (activeFrame e') = farPosition
       /\ vsub (target (activeFrame e)) (position (activeFrame e)) = vec3_of_Z 0 0 1
       /\ vsub (target (activeFrame e')) (position (activeFrame e')) = vec3_zero
       /\ vsub (target (activeFrame e')) (position (activeFrame e'))
          <> vsub (target (activeFrame e)) (position (activeFrame e)).
Proof.
  cbv zeta. split; [reflexivity|]. split; [reflexivity|].
  eexists. eexists. split; [vm_compute; reflexivity|].
  vm_compute. repeat split; discriminate.
Qed.

(** At z = 2^24 the sum of the new position and the look direction (0,0,1)
    is rounded: the condition under which the direction is kept fails there,
    and holds one power of two below. *)
Example far_position_sum_is_rounded :
  exact_shift farPosition (vec3_of_Z 0 0 1) = false
  /\ exact_shift (vec3_of_Z 0 0 8388608) (vec3_of_Z 0 0 1) = true.
Proof. split; vm_compute; reflexivity. Qed.

(** C7, refuted at an editor created with an empty edit-complete callback:
    "Close Editor" closes the window and invokes nothing. *)
Lemma close_without_callback :
  let e := editorWithoutCompletion [frame0] 0 F32.zero in
  let g := pressing "Close Editor" idleGui in
  button g "Close Editor" = true
  /\ render g e = Done tt e [PushWindow "Path Editor" 350 400 440 400;
                             Button "Close Editor" true; PopWindow]
  /\ invocations EditCompleteCB (log_of (render g e)) = 0%nat
  /\ invocations EditCompleteCB (log_of (render g e)) <> 1%nat.
Proof.
  cbv zeta. vm_compute. repeat split; discriminate.
Qed.



(** Toggling "Preserve Rotation" and nothing else: no notification. *)
Example toggle_preserve_rotation_is_silent :
  let o := editKeyframeProperties (toggling "Preserve Rotation" idleGui)
             (editorOn [frame0] 0 F32.zero) in
  In (CheckBox "Preserve Rotation" true) (log_of o)
  /\ invocations FrameChangedCB (log_of o) = 0%nat
  /\ option_map mPreserveRotation (state_of o) = Some true.
Proof. vm_compute. repeat split. right. left. reflexivity. Qed.

(* ===================================================================== *)
(** * More of the theorems at work on the list path *)
(* ===================================================================== *)

Lemma idleGui_quiet : quiet idleGui.
Proof. unfold quiet. repeat split. Qed.

Lemma idle_selector_in_range (g : Gui) :
  intVar g = intVar idleGui -> selector_in_range g.
Proof. intros Hg v lo hi Hv. rewrite Hg. exact Hv. Qed.

(** Selecting an index past the only frame. *)
Lemma setActiveFrame_out_of_range_witness :
  hd_error (log_of (setActiveFrame 1 (editorOn [frame0] 0 F32.zero)))
  = Some (Path 1 (GetKeyFrame 1))
  /\ ~ in_range (Path 1 (GetKeyFrame 1)).
Proof.
  destruct (setActiveFrame_out_of_range (editorOn [frame0] 0 F32.zero) 1) as [Hread [Hout _]].
  - cbn. lia.
  - lia.
  - split; [exact Hread | exact Hout].
Defined.

(** An editor made for a path whose first frame has time 2. *)
Lemma create_stages_first_frame_witness :
  exists e0,
    create zeroDefaults (mkListPath "path" false [frame1; frame2]) originCamera true true true
    = Done tt e0 [Path 2 (GetKeyFrame 0)]
    /\ mFrameTime e0 = F32.of_Z 2
    /\ selectionSound e0.
Proof.
  destruct (create_stages_first_frame zeroDefaults (mkListPath "path" false [frame1; frame2])
              originCamera true true true ListPath_laws) as [e0 [Hrun [He Hs]]].
  exists e0. split; [exact Hrun|].
  split; [rewrite He; reflexivity | apply Hs; reflexivity].
Defined.

(** Frame 0 of two, at time 0, is given the staged time 5: it moves behind
    the frame at time 2 and the selection follows it to index 1. *)
Lemma updateFrameTime_follows_frame_witness :
  exists e' log,
    updateFrameTime (pressing "Update Current Frame Time" idleGui)
      (editorOn [frame0; frame1] 0 (F32.of_Z 5))
    = Done tt e' log
    /\ mActiveFrame e' = 1
    /\ activeFrame e' = with_time (F32.of_Z 5) frame0.
Proof.
  destruct (updateFrameTime_follows_frame (pressing "Update Current Frame Time" idleGui)
              (editorOn [frame0; frame1] 0 (F32.of_Z 5)) ListPath_laws ListPath_contents)
    as [e' [Hrun [_ [Ha [Hf _]]]]].
  - reflexivity.
  - unfold activeValid. cbn. lia.
  - cbn. lia.
  - reflexivity.
  - reflexivity.
  - exists e'. eexists. split; [exact Hrun|].
    split; [rewrite Ha; vm_compute; reflexivity | exact Hf].
Defined.

(** The selector moved from frame 0 to frame 1 of two. *)
Lemma editActiveFrameID_selects_witness :
  exists e',
    editActiveFrameID (selecting 1 idleGui) (editorOn [frame0; frame1] 0 F32.zero)
    = Done tt e'
        [IntVar "Selected Frame" true;
         Path 2 (GetKeyFrame 1); Path 2 (GetKeyFrame 1); Invoke FrameChangedCB]
    /\ mActiveFrame e' = 1
    /\ mFrameTime e' = F32.of_Z 2.
Proof.
  destruct (editActiveFrameID_selects (selecting 1 idleGui)
              (editorOn [frame0; frame1] 0 F32.zero) 1)
    as [e' [Hrun [Ha [Ht _]]]].
  - cbn. lia.
  - reflexivity.
  - cbn. lia.
  - reflexivity.
  - exists e'. split; [exact Hrun|]. split; [exact Ha | exact Ht].
Defined.

(** The time 5 typed into the field and committed in the same frame. *)
Lemma staged_time_is_committed_witness :
  exists rest,
    log_of ((editFrameTime (pressing "Update Current Frame Time"
                              (editing1 "Frame Time" (F32.of_Z 5) idleGui)) ;;
             updateFrameTime (pressing "Update Current Frame Time"
                                (editing1 "Frame Time" (F32.of_Z 5) idleGui)))
              (editorOn [frame0] 0 F32.zero))
    = [FloatVar "Frame Time" true; Button "Update Current Frame Time" true;
       Path 1 (SetFrameTime 0 (F32.of_Z 5)); Invoke AddRemoveKeyframeCB] ++ rest.
Proof.
  destruct (staged_time_is_committed
              (pressing "Update Current Frame Time"
                 (editing1 "Frame Time" (F32.of_Z 5) idleGui))
              (editorOn [frame0] 0 F32.zero) (F32.of_Z 5)) as [_ Hboth].
  - reflexivity.
  - destruct Hboth as [rest Hlog].
    + reflexivity.
    + unfold activeValid. cbn. lia.
    + reflexivity.
    + exists rest. exact Hlog.
Defined.

(** Moving the only frame with "Preserve Rotation" off: the target stays. *)
Lemma position_edit_turns_the_view_witness :
  exists e' log,
    editKeyframeProperties (editing3 "Position" (vec3_of_Z 3 4 5) idleGui)
      (editorOn [frame1] 0 F32.zero)
    = Done tt e' log
    /\ activeFrame e'
       = mkFrame (vec3_of_Z 3 4 5) (vec3_of_Z 1 2 4) (vec3_of_Z 0 1 0) (F32.of_Z 2).
Proof.
  destruct (position_edit_turns_the_view (editing3 "Position" (vec3_of_Z 3 4 5) idleGui)
              (editorOn [frame1] 0 F32.zero) (vec3_of_Z 3 4 5) ListPath_laws)
    as [e' [Hrun [Hf _]]].
  - unfold activeValid. cbn. lia.
  - reflexivity.
  - reflexivity.
  - reflexivity.
  - reflexivity.
  - reflexivity.
  - reflexivity.
  - exists e'. eexists. split; [exact Hrun | exact Hf].
Defined.

(** Editing the target of the only frame. *)
Lemma orientation_edit_recomputes_cache_witness :
  exists e' log,
    editKeyframeProperties (editing3 "Target" (vec3_of_Z 0 1 1) idleGui)
      (editorOn [frame0] 0 F32.zero)
    = Done tt e' log
    /\ activeFrame e' = with_target (vec3_of_Z 0 1 1) frame0
    /\ mActiveFrameRot e' = eulerCache (with_target (vec3_of_Z 0 1 1) frame0).
Proof.
  destruct (orientation_edit_recomputes_cache (editing3 "Target" (vec3_of_Z 0 1 1) idleGui)
              (editorOn [frame0] 0 F32.zero) (vec3_of_Z 0 1 1) ListPath_laws)
    as [Htarget _].
  - unfold activeValid. cbn. lia.
  - reflexivity.
  - reflexivity.
  - destruct Htarget as [e' [log [Hrun [Hf [Hr _]]]]].
    + reflexivity.
    + reflexivity.
    + reflexivity.
    + exists e', log. split; [exact Hrun|]. split; [exact Hf | exact Hr].
Defined.

(** Typing a rotation for the only frame. *)
Lemma rotation_edit_commits_witness :
  exists e' log,
    editKeyframeProperties (editing3 "Rotation" (vec3_of_Z 10 20 30) idleGui)
      (editorOn [frame0] 0 F32.zero)
    = Done tt e' log
    /\ position (activeFrame e') = vec3_zero
    /\ up (activeFrame e') = vec3_of_Z 0 1 0
    /\ mActiveFrameRot e' = vec3_of_Z 10 20 30.
Proof.
  destruct (rotation_edit_commits (editing3 "Rotation" (vec3_of_Z 10 20 30) idleGui)
              (editorOn [frame0] 0 F32.zero) (vec3_of_Z 10 20 30) ListPath_laws)
    as [e' [Hrun [Hf Hr]]].
  - unfold activeValid. cbn. lia.
  - reflexivity.
  - reflexivity.
  - reflexivity.
  - reflexivity.
  - reflexivity.
  - exists e'. eexists. split; [exact Hrun|].
    rewrite Hf. repeat split. exact Hr.
Defined.

(** Renaming the path. *)
Lemma editPathName_commits_witness :
  exists e',
    editPathName (typing "Path Name" "orbit" idleGui) (editorOn [frame0] 0 F32.zero)
    = Done tt e' [TextBox "Path Name" true; Path 1 (SetName "orbit")]
    /\ getName (mpPath e') = "orbit".
Proof.
  destruct (editPathName_commits (typing "Path Name" "orbit" idleGui)
              (editorOn [frame0] 0 F32.zero) ListPath_laws ListPath_contents)
    as [_ [e' [Hrun [Hname _]]]].
  exists e'. split; [exact Hrun | exact Hname].
Defined.

(** Switching the loop on. *)
Lemma editPathLoop_commits_witness :
  exists e',
    editPathLoop (toggling "Loop Path" idleGui) (editorOn [frame0] 0 F32.zero)
    = Done tt e' [CheckBox "Loop Path" true; Path 1 (SetAnimationRepeat true)]
    /\ isRepeatOn (mpPath e') = true.
Proof.
  destruct (editPathLoop_commits (toggling "Loop Path" idleGui)
              (editorOn [frame0] 0 F32.zero) ListPath_laws ListPath_contents)
    as [e' [Hrun [Hflag _]]].
  exists e'. split; [exact Hrun | exact Hflag].
Defined.

(** A quiet frame on the empty path, with no callback at all. *)
Lemma quiet_render_changes_nothing_witness :
  render idleGui (mkPathEditor (mkListPath "path" false []) originCamera false false false
                    false 0 F32.zero vec3_zero)
  = Done tt (mkPathEditor (mkListPath "path" false []) originCamera false false false
               false 0 F32.zero vec3_zero) emptyLog.
Proof.
  exact (quiet_render_changes_nothing idleGui
           (mkPathEditor (mkListPath "path" false []) originCamera false false false
              false 0 F32.zero vec3_zero)
           idleGui_quiet (or_introl eq_refl)).
Defined.

(** Removing frame 0 of three: the index stays 0 and names what was
    frame 1. *)
Lemma deleteFrame_selects_neighbour_witness :
  exists e' log,
    deleteFrame (pressing "Remove Frame" idleGui) (editorOn [frame0; frame1; frame2] 0 F32.zero)
    = Done tt e' log
    /\ mActiveFrame e' = 0
    /\ activeFrame e' = frame1
    /\ mFrameTime e' = F32.of_Z 2.
Proof.
  destruct (deleteFrame_selects_neighbour (pressing "Remove Frame" idleGui)
              (editorOn [frame0; frame1; frame2] 0 F32.zero) ListPath_laws ListPath_contents)
    as [e' [log [Hrun [Hnext [_ [Ht _]]]]]].
  - reflexivity.
  - unfold activeValid. cbn. lia.
  - cbn. lia.
  - reflexivity.
  - reflexivity.
  - destruct Hnext as [Ha Hf]; [cbn; lia|].
    exists e', log. split; [exact Hrun|]. split; [exact Ha|]. split; [exact Hf|].
    rewrite Ht, Hf. reflexivity.
Defined.

(** "Add Frame" in an editor that was given no count-changed callback. *)
Lemma count_callback_is_required_witness :
  addFrame (pressing "Add Frame" idleGui) (editorWithoutCountCallback [frame0] 0 (F32.of_Z 5))
  = Crash BadFunctionCall
      [Button "Add Frame" true; Path 1 (GetKeyFrame 0);
       Path 1 (AddKeyFrame (with_time (F32.of_Z 5) frame0))].
Proof.
  destruct (count_callback_is_required (pressing "Add Frame" idleGui)
              (editorWithoutCountCallback [frame0] 0 (F32.of_Z 5))) as [Hadd _].
  - right. unfold activeValid. cbn. lia.
  - reflexivity.
  - apply Hadd. reflexivity.
Defined.

(** A frame in which only the pose is edited. *)
Lemma count_changes_need_a_button_witness :
  invocations AddRemoveKeyframeCB
    (log_of (render (editing3 "Position" (vec3_of_Z 1 1 1) idleGui)
               (editorOn [frame0] 0 F32.zero)))
  = 0%nat.
Proof.
  destruct (count_changes_need_a_button (editing3 "Position" (vec3_of_Z 1 1 1) idleGui)
              (editorOn [frame0] 0 F32.zero)) as [_ Hinv].
  - reflexivity.
  - reflexivity.
  - reflexivity.
  - exact Hinv.
Defined.

(** The two pose editors on frame 1 of two. *)
Lemma pose_editors_keep_selection_witness :
  Forall pose_event
    (log_of (editKeyframeProperties (editing3 "Position" (vec3_of_Z 1 1 1) idleGui)
               (editorOn [frame0; frame1] 1 F32.zero)))
  /\ Forall pose_event
       (log_of (moveToCamera (editing3 "Position" (vec3_of_Z 1 1 1) idleGui)
                  (editorOn [frame0; frame1] 1 F32.zero))).
Proof.
  destruct (pose_editors_keep_selection (editing3 "Position" (vec3_of_Z 1 1 1) idleGui)
              (editorOn [frame0; frame1] 1 F32.zero) ListPath_laws)
    as [[Hprop _] [Hmove _]].
  split; [exact Hprop | exact Hmove].
Defined.

(** A session on the empty path: two frames added, then one removed. *)
Lemma session_keeps_selection_witness :
  exists e' log,
    renders [pressing "Add Frame" idleGui; pressing "Add Frame" idleGui;
             pressing "Remove Frame" idleGui]
      (editorOn [] 0 F32.zero)
    = Done tt e' log
    /\ Forall in_range log
    /\ selectionSound e'.
Proof.
  destruct (session_keeps_selection ListPath_laws
              [pressing "Add Frame" idleGui; pressing "Add Frame" idleGui;
               pressing "Remove Frame" idleGui]
              (editorOn [] 0 F32.zero))
    as [e' [log [Hrun [Hlog [Hs _]]]]].
  - repeat (apply Forall_cons; [apply idle_selector_in_range; reflexivity|]).
    apply Forall_nil.
  - reflexivity.
  - reflexivity.
  - left. reflexivity.
  - cbn. lia.
  - exists e', log. split; [exact Hrun|]. split; [exact Hlog | exact Hs].
Defined.
